(** * Textract result processor: blocks to CSV rows and structured JSON

    A shallow embedding of [src/lambda.py]: the text/confidence resolver
    ([get_text_and_confidence_from_block]), the two table paths (spatial
    reconstruction from word geometry, and the structural builder from
    declared row/column indices), the key/value extraction and the two
    assemblers ([parse_tables_to_csv_data],
    [parse_blocks_to_structured_json]).

    Modelling conventions.
    - A Textract block is a Python dict; it is a record whose optional keys
      are [option] fields.  [d.get(k, v)] is [default v (k d)], [d[k]] on an
      optional key is [getitem], which raises [KeyError] when the key is
      absent, and [k in d] is [is_Some].
    - JSON numbers (confidences on the 0-100 scale, page-relative
      coordinates) are exact rationals [Q]; Python [int]s that index rows
      and columns are [Z].  The code computes with binary floating point:
      a sum, a difference or a mean of coordinates differs from the exact
      one by a rounding error, which can change the answer of a comparison
      that the exact numbers decide by less than that error.  Statements
      that cross such a comparison keep a margin from it.
    - A [str] is the string of the bytes of its UTF-8 encoding.  What
      Python does by character is done by character: [strip] removes the
      white space of [str.isspace], Unicode spaces included, and [s[:n]],
      [len(s)] and [for c in s] count and cut characters, not bytes.
    - [blocks_map] is a [gmap string Block]; dicts whose iteration order is
      observed ([column_words], [parsed_cells_map], [temp_rows_dict]) are
      association lists in insertion order.
    - Exceptions are an error monad [exc]; the recursion of
      [extract_words_from_cell] over the block graph is bounded by the
      interpreter's recursion limit and raises [RecursionError] beyond it.
    - [print] is outside the model.  The OpenAI step of
      [parse_blocks_to_structured_json] takes whether it is enabled and the
      chat completion as parameters; the handler with its calls to
      Textract, S3 and the webhook, and the job starter of
      [src/textract_lambda.py], take their services as parameters too. *)

From Stdlib Require Import QArith Qround Qabs Qminmax Lqa.
From stdpp Require Import gmap strings list fin_maps pretty.

(** ** Exceptions *)

Inductive error : Type :=
  | KeyError (key : string)
  | RecursionError.

Inductive exc (A : Type) : Type :=
  | Ok (a : A)
  | Raise (e : error).
Arguments Ok {A} a.
Arguments Raise {A} e.

#[global] Instance exc_ret : MRet exc := fun A a => Ok a.
#[global] Instance exc_bind : MBind exc := fun A B f m =>
  match m with
  | Ok a => f a
  | Raise e => Raise e
  end.

(** [d[key]] on an optional key. *)
Definition getitem {A} (key : string) (field : option A) : exc A :=
  match field with
  | Some a => Ok a
  | None => Raise (KeyError key)
  end.

(** A [for] loop whose body may raise: the state is threaded through the
    iterations and the first exception ends the loop. *)
Fixpoint for_each {A S : Type} (body : S -> A -> exc S) (l : list A) (s : S) : exc S :=
  match l with
  | [] => Ok s
  | x :: l' => s' ← body s x; for_each body l' s'
  end.

(** ** Python built-ins on numbers, strings and lists *)

Definition Qleb (x y : Q) : bool := Qle_bool x y.
Definition Qltb (x y : Q) : bool :=
  match (x ?= y)%Q with
  | Lt => true
  | _ => false
  end.

(** [min(l)] and [max(l)] on a list: the first smallest (largest) element;
    [None] stands for the [ValueError] on an empty list, which no caller
    triggers. *)
Definition py_min (l : list Q) : option Q :=
  match l with
  | [] => None
  | x :: l' => Some (fold_left (fun m y => if Qltb y m then y else m) l' x)
  end.

Definition py_max (l : list Q) : option Q :=
  match l with
  | [] => None
  | x :: l' => Some (fold_left (fun m y => if Qltb m y then y else m) l' x)
  end.

(** [max(a, b)] and [min(a, b)] with two arguments are [Qmax a b] and
    [Qmin a b]: the first argument unless the second is strictly larger
    (smaller). *)

Definition Qsum (l : list Q) : Q := fold_left Qplus l 0%Q.

Definition Qlen {A} (l : list A) : Q := inject_Z (Z.of_nat (length l)).

(** [round(x, 2)]: the nearest multiple of 1/100, ties to the even one. *)
Definition round_half_even (x : Q) : Z :=
  let f := Qfloor x in
  let r := (x - inject_Z f)%Q in
  match (r ?= 1 # 2)%Q with
  | Lt => f
  | Gt => (f + 1)%Z
  | Eq => if Z.even f then f else (f + 1)%Z
  end.

Definition round2 (x : Q) : Q := Qred (round_half_even (x * 100) # 100).

(** The UTF-8 encoding of a code point below U+10000. *)
Definition utf8 (code_point : N) : string :=
  let byte := Ascii.ascii_of_N in
  if N.ltb code_point 128 then String (byte code_point) ""
  else if N.ltb code_point 2048 then
    String (byte (192 + N.div code_point 64)%N)
      (String (byte (128 + N.modulo code_point 64)%N) "")
  else
    String (byte (224 + N.div code_point 4096)%N)
      (String (byte (128 + N.modulo (N.div code_point 64) 64)%N)
         (String (byte (128 + N.modulo code_point 64)%N) "")).

(** The characters of [str.isspace], which [str.strip()] removes: U+0009 to
    U+000D, U+001C to U+0020, U+0085, U+00A0, U+1680, U+2000 to U+200A,
    U+2028, U+2029, U+202F, U+205F and U+3000. *)
Definition whitespace : list string :=
  map utf8 [9; 10; 11; 12; 13; 28; 29; 30; 31; 32; 133; 160; 5760;
            8192; 8193; 8194; 8195; 8196; 8197; 8198; 8199; 8200; 8201; 8202;
            8232; 8233; 8239; 8287; 12288]%N.

(** [s] without the prefix [p], when it starts with it. *)
Fixpoint drop_prefix (p s : string) : option string :=
  match p, s with
  | EmptyString, _ => Some s
  | String a p', String b s' => if Ascii.eqb a b then drop_prefix p' s' else None
  | String _ _, EmptyString => None
  end.

(** [s] without its first character, when that is white space. *)
Definition drop_space (s : string) : option string :=
  head (omap (fun p => drop_prefix p s) whitespace).

(** [str.lstrip()]: every round removes one leading white-space character,
    so [String.length s] rounds are enough. *)
Fixpoint lstrip_rounds (n : nat) (s : string) : string :=
  match n with
  | O => s
  | S n' =>
      match drop_space s with
      | Some s' => lstrip_rounds n' s'
      | None => s
      end
  end.

Definition lstrip (s : string) : string := lstrip_rounds (String.length s) s.

(** A string of white space only ([not s.strip()]). *)
Definition blank (s : string) : bool :=
  match lstrip s with
  | EmptyString => true
  | String _ _ => false
  end.

(** [str.rstrip()]: the string without its longest blank suffix. *)
Fixpoint rstrip (s : string) : string :=
  match s with
  | EmptyString => EmptyString
  | String c s' => if blank s then EmptyString else String c (rstrip s')
  end.

(** [str.strip()] *)
Definition strip (s : string) : string := rstrip (lstrip s).

(** [sep.join(l)] *)
Definition join (sep : string) (l : list string) : string := String.concat sep l.

(** [not s] for a string. *)
Definition str_empty (s : string) : bool :=
  match s with
  | EmptyString => true
  | _ => false
  end.

(** A byte [10xxxxxx] continues the character begun before it. *)
Definition is_continuation (c : Ascii.ascii) : bool :=
  let n := Ascii.N_of_ascii c in N.leb 128 n && N.ltb n 192.

(** The string goes on inside a character. *)
Definition continues (s : string) : bool :=
  match s with
  | EmptyString => false
  | String c _ => is_continuation c
  end.

(** The characters of a string, as [for c in s] sees them. *)
Fixpoint str_chars (s : string) : list string :=
  match s with
  | EmptyString => []
  | String c s' =>
      match str_chars s' with
      | first :: rest =>
          if continues s' then String c first :: rest else String c "" :: first :: rest
      | [] => [String c ""]
      end
  end.

(** [len(s)]: the number of characters. *)
Fixpoint str_len (s : string) : nat :=
  match s with
  | EmptyString => 0
  | String c s' => (if is_continuation c then 0 else 1) + str_len s'
  end.

(** [list.sort(key=...)] and [sorted]: a stable sort, here by insertion from
    the right; [leb a b] reads "a may stay before b". *)
Fixpoint insert_sorted {A} (leb : A -> A -> bool) (x : A) (l : list A) : list A :=
  match l with
  | [] => [x]
  | y :: l' => if leb x y then x :: y :: l' else y :: insert_sorted leb x l'
  end.

Definition sort_by {A} (leb : A -> A -> bool) (l : list A) : list A :=
  foldr (insert_sorted leb) [] l.

Definition sort_key {A} (key : A -> Q) : list A -> list A :=
  sort_by (fun a b => Qleb (key a) (key b)).

Definition sort_keyZ {A} (key : A -> Z) : list A -> list A :=
  sort_by (fun a b => (key a <=? key b)%Z).

(** [set(l)] followed by [sorted]: the order a set iterates in is lost by
    the sort, so the set is the list without repeated values. *)
Fixpoint dedup_Q (l : list Q) : list Q :=
  match l with
  | [] => []
  | x :: l' => x :: List.filter (fun y => negb (Qeq_bool x y)) (dedup_Q l')
  end.

(** A dict in insertion order: assignment to an existing key keeps its
    place. *)
Fixpoint dict_get {K V} `{EqDecision K} (k : K) (d : list (K * V)) : option V :=
  match d with
  | [] => None
  | (k', v) :: d' => if decide (k = k') then Some v else dict_get k d'
  end.

Fixpoint dict_set {K V} `{EqDecision K} (k : K) (v : V) (d : list (K * V)) : list (K * V) :=
  match d with
  | [] => [(k, v)]
  | (k', v') :: d' => if decide (k = k') then (k, v) :: d' else (k', v') :: dict_set k v d'
  end.

(** ** Blocks *)

Record Relationship : Type := {
  Type_ : string;
  Ids : list string
}.

Record BoundingBox : Type := {
  Left : option Q;    (* [None]: absent or not a number *)
  Top : option Q;
  Width : option Q;
  Height : option Q
}.

Record Geometry_ : Type := {
  BoundingBox_ : option BoundingBox
}.

Record Block : Type := {
  Id : string;
  BlockType : string;
  Text : option string;
  Confidence : option Q;
  Page : option Z;
  Geometry : option Geometry_;
  Relationships : option (list Relationship);
  RowIndex : option Z;
  ColumnIndex : option Z;
  RowSpan : option Z;
  ColumnSpan : option Z;
  EntityTypes : option (list string);
  SelectionStatus : option string
}.

(** [block.get('Relationships')] when false, or the key absent, leaves
    nothing to iterate. *)
Definition relationships (b : Block) : list Relationship := default [] (Relationships b).

(** The ids of the CHILD relationships, in the order the nested loops
    [for relationship ... if Type == 'CHILD': for id in Ids] visit them. *)
Definition child_ids (b : Block) : list string :=
  flat_map (fun r => if decide (Type_ r = "CHILD") then Ids r else []) (relationships b).

(** [blocks_map = {block['Id']: block for block in blocks}] *)
Definition mk_blocks_map (blocks : list Block) : gmap string Block :=
  fold_left (fun m b => <[Id b := b]> m) blocks ∅.

(** ** Text/confidence resolver *)

Section Resolver.
Variable blocks_map : gmap string Block.

Definition resolve_child (acc : list string * list Q) (child_id : string)
  : exc (list string * list Q) :=
  let '(text_parts, confidences) := acc in
  match blocks_map !! child_id with
  | Some child_block =>
      if decide (BlockType child_block = "WORD") then
        t ← getitem "Text" (Text child_block);
        Ok (text_parts ++ [t], confidences ++ [default 0%Q (Confidence child_block)])
      else if decide (BlockType child_block = "SELECTION_ELEMENT") then
        st ← getitem "SelectionStatus" (SelectionStatus child_block);
        let status_text := if decide (st = "SELECTED") then "[X]" else "[ ]" in
        Ok (text_parts ++ [status_text], confidences ++ [default 0%Q (Confidence child_block)])
      else Ok acc
  | None => Ok acc
  end.

Definition get_text_and_confidence_from_block (block : Block) : exc (string * Q) :=
  '(text_parts, confidences) ← for_each resolve_child (child_ids block) ([], []);
  let full_text := strip (join " " text_parts) in
  let '(full_text, confidences) :=
    match str_empty full_text, Text block with
    | true, Some t => (t, confidences ++ [default 0%Q (Confidence block)])
    | _, _ => (full_text, confidences)
    end in
  let aggregated_confidence := default 0%Q (py_min confidences) in
  Ok (strip full_text, aggregated_confidence).

End Resolver.

(** ** Spatial table reconstruction *)

Record SpatialWord : Type := {
  sw_id : string;
  sw_text : string;
  sw_confidence : Q;
  sw_left : Q;
  sw_top : Q;
  sw_width : Q;
  sw_height : Q;
  sw_right : Q;
  sw_bottom : Q;
  sw_center_x : Q;
  sw_center_y : Q
}.

Record ColumnRange : Type := {
  cr_start : Q;
  cr_end : Q;
  cr_center : Q
}.

Record SpatialCell : Type := {
  column_index : Z;
  sc_text : string;
  sc_confidence : Q
}.

Record SpatialRow : Type := {
  row_index : Z;
  cells : list SpatialCell
}.

Record ReconstructionMetadata : Type := {
  word_count : nat;
  row_tolerance : Q;
  boundary_tolerance : Q;
  avg_word_height : Q;
  doc_width : Q
}.

Record SpatialTable : Type := {
  table_id : string;
  page_number : option Z;
  spatial_reconstruction : bool;
  reconstruction_metadata : ReconstructionMetadata;
  row_count : nat;
  column_count : nat;
  rows : list SpatialRow
}.

(** The depth the interpreter leaves to the recursion of
    [extract_words_from_cell] (CPython's default limit). *)
Definition recursion_limit : nat := 1000.

(** The spatial projection of one WORD block; [None] when it has no
    geometry, no bounding box, or an edge that is not a number (the word is
    skipped). *)
Definition spatial_word_of (word_block : Block) : option SpatialWord :=
  match Geometry word_block with
  | Some g =>
      match BoundingBox_ g with
      | Some bbox =>
          match Left bbox, Top bbox, Width bbox, Height bbox with
          | Some l, Some t, Some w, Some h =>
              Some {| sw_id := Id word_block;
                      sw_text := default "" (Text word_block);
                      sw_confidence := default 0%Q (Confidence word_block);
                      sw_left := l;
                      sw_top := t;
                      sw_width := w;
                      sw_height := h;
                      sw_right := l + w;
                      sw_bottom := t + h;
                      sw_center_x := l + w / 2;
                      sw_center_y := t + h / 2 |}
          | _, _, _, _ => None
          end
      | None => None
      end
  | None => None
  end.

(** The adaptive tolerances: half the mean word height, clamped to
    [0.005, 0.02], and 2% of the document width, clamped to [0.01, 0.03]. *)
Definition row_tolerance_of (avg_word_height : Q) : Q :=
  Qmax 0.005 (Qmin 0.02 (avg_word_height * 0.5)).

Definition boundary_tolerance_of (doc_width : Q) : Q :=
  Qmax 0.01 (Qmin 0.03 (doc_width * 0.02)).

(** Row clustering: the loop state is [(rows, current_row)]. *)
Definition cluster_step (row_tolerance : Q) (st : list (list SpatialWord) * list SpatialWord)
    (word : SpatialWord) : list (list SpatialWord) * list SpatialWord :=
  let '(rows, current_row) := st in
  match current_row with
  | [] => (rows, [word])
  | _ :: _ =>
      let current_row_avg_y := (Qsum (map sw_center_y current_row) / Qlen current_row)%Q in
      if Qleb (Qabs (sw_center_y word - current_row_avg_y)) row_tolerance
      then (rows, current_row ++ [word])
      else (rows ++ [current_row], [word])
  end.

Definition cluster_rows (row_tolerance : Q) (spatial_words : list SpatialWord)
  : list (list SpatialWord) :=
  let '(rows, current_row) := fold_left (cluster_step row_tolerance) spatial_words ([], []) in
  match current_row with
  | [] => rows
  | _ :: _ => rows ++ [current_row]
  end.

(** Boundary folding: [merge_boundary] is the inner loop, which replaces the
    first boundary within tolerance by its mean with [x_pos] and reports
    whether it merged. *)
Fixpoint merge_boundary (boundary_tolerance x_pos : Q) (column_boundaries : list Q)
  : option (list Q) :=
  match column_boundaries with
  | [] => None
  | boundary :: rest =>
      if Qleb (Qabs (x_pos - boundary)) boundary_tolerance
      then Some (((boundary + x_pos) / 2)%Q :: rest)
      else cons boundary <$> merge_boundary boundary_tolerance x_pos rest
  end.

Definition boundary_step (boundary_tolerance : Q) (column_boundaries : list Q) (x_pos : Q)
  : list Q :=
  match merge_boundary boundary_tolerance x_pos column_boundaries with
  | Some merged => merged
  | None => column_boundaries ++ [x_pos]
  end.

(** [for i in range(len(column_boundaries) - 1)] over consecutive pairs. *)
Fixpoint mk_column_ranges (column_boundaries : list Q) : list ColumnRange :=
  match column_boundaries with
  | b :: (b' :: _) as rest =>
      {| cr_start := b; cr_end := b'; cr_center := ((b + b') / 2)%Q |} :: mk_column_ranges rest
  | _ => []
  end.

Section ColumnIndex.
Variable column_ranges : list ColumnRange.

(** First loop of [get_column_index]: the first range containing the
    center, counted from [i]. *)
Fixpoint containing_range (word_center : Q) (ranges : list ColumnRange) (i : nat) : option nat :=
  match ranges with
  | [] => None
  | col_range :: rest =>
      if Qleb (cr_start col_range) word_center && Qleb word_center (cr_end col_range)
      then Some i
      else containing_range word_center rest (S i)
  end.

(** Second loop: the state is [(closest_col, min_distance)], with [None]
    for [float('inf')]. *)
Definition closest_step (word_center : Q) (st : nat * option Q) (ir : nat * ColumnRange)
  : nat * option Q :=
  let '(closest_col, min_distance) := st in
  let '(i, col_range) := ir in
  let distance := Qmin (Qabs (word_center - cr_start col_range))
                       (Qabs (word_center - cr_end col_range)) in
  let smaller := match min_distance with
                 | None => true
                 | Some d => Qltb distance d
                 end in
  if smaller then (i, Some distance) else st.

Definition get_column_index (word : SpatialWord) : nat :=
  let word_center := sw_center_x word in
  match containing_range word_center column_ranges 0 with
  | Some i => i
  | None => fst (fold_left (closest_step word_center) (imap pair column_ranges) (0%nat, None))
  end.

(** Grouping the words of one row by column ([column_words]). *)
Definition group_step (column_words : list (nat * list SpatialWord)) (word : SpatialWord)
  : list (nat * list SpatialWord) :=
  let col_idx := get_column_index word in
  match dict_get col_idx column_words with
  | None => column_words ++ [(col_idx, [word])]
  | Some words => dict_set col_idx (words ++ [word]) column_words
  end.

(** Combining the words of one column; the state is
    [(row_cells, row_confidences)]. *)
Definition combine_step (st : list string * list Q) (entry : nat * list SpatialWord)
  : list string * list Q :=
  let '(row_cells, row_confidences) := st in
  let '(col_idx, words) := entry in
  if (col_idx <? length row_cells)%nat then
    let words := sort_key sw_left words in
    let combined_text := join " " (map sw_text words) in
    let avg_confidence := (Qsum (map sw_confidence words) / Qlen words)%Q in
    (<[col_idx := strip combined_text]> row_cells,
     <[col_idx := round2 avg_confidence]> row_confidences)
  else st.

Definition build_row (row_idx : nat) (row_words : list SpatialWord) : SpatialRow :=
  let row_cells := replicate (length column_ranges) "" in
  let row_confidences := replicate (length column_ranges) 0%Q in
  let column_words := fold_left group_step row_words [] in
  let '(row_cells, row_confidences) :=
    fold_left combine_step column_words (row_cells, row_confidences) in
  {| row_index := Z.of_nat row_idx + 1;
     cells := imap (fun col_idx cell_text =>
                      {| column_index := Z.of_nat col_idx + 1;
                         sc_text := cell_text;
                         sc_confidence := default 0%Q (row_confidences !! col_idx) |})
                   row_cells |}.

End ColumnIndex.

Section Tables.
Variable blocks_map : gmap string Block.

(** [extract_words_from_cell], a closure of the reconstruction: the WORD
    blocks below a cell, descending through LINE blocks.  [depth] is the
    number of nested calls the interpreter still allows. *)
Fixpoint extract_words_from_cell (depth : nat) (cell_block : Block) : exc (list Block) :=
  match depth with
  | O => Raise RecursionError
  | S depth' =>
      for_each
        (fun words child_id =>
           match blocks_map !! child_id with
           | Some child_block =>
               if decide (BlockType child_block = "WORD") then Ok (words ++ [child_block])
               else if decide (BlockType child_block = "LINE") then
                 sub ← extract_words_from_cell depth' child_block;
                 Ok (words ++ sub)
               else Ok words
           | None => Ok words
           end)
        (child_ids cell_block) []
  end.

(** The words of the table's CELL children ([word_blocks]). *)
Definition table_word_blocks (table_block : Block) : exc (list Block) :=
  for_each
    (fun word_blocks cell_id =>
       match blocks_map !! cell_id with
       | Some cell_block =>
           if decide (BlockType cell_block = "CELL") then
             cell_words ← extract_words_from_cell recursion_limit cell_block;
             Ok (word_blocks ++ cell_words)
           else Ok word_blocks
       | None => Ok word_blocks
       end)
    (child_ids table_block) [].

(** The reconstruction once the spatial words are known to be non-empty:
    everything below [if not spatial_words] in the source. *)
Definition reconstruct_from_spatial_words (table_block : Block)
    (spatial_words : list SpatialWord) : option SpatialTable :=
  let spatial_words := sort_key sw_top spatial_words in
  let avg_word_height := (Qsum (map sw_height spatial_words) / Qlen spatial_words)%Q in
  let row_tolerance := row_tolerance_of avg_word_height in
  let rows := cluster_rows row_tolerance spatial_words in
  if (length rows <? 1)%nat then None else
  let rows := map (sort_key sw_left) rows in
  let all_x_positions :=
    flat_map (fun row => flat_map (fun word => [sw_left word; sw_right word]) row) rows in
  let unique_x_positions := sort_key id (dedup_Q all_x_positions) in
  let doc_width :=
    match py_max unique_x_positions, py_min unique_x_positions with
    | Some hi, Some lo => (hi - lo)%Q
    | _, _ => 1%Q
    end in
  let boundary_tolerance := boundary_tolerance_of doc_width in
  let column_boundaries :=
    fold_left (boundary_step boundary_tolerance) unique_x_positions [] in
  let column_boundaries := sort_key id column_boundaries in
  if (length column_boundaries <? 2)%nat then None else
  let column_ranges := mk_column_ranges column_boundaries in
  Some {| table_id := Id table_block;
          page_number := Page table_block;
          spatial_reconstruction := true;
          reconstruction_metadata :=
            {| word_count := length spatial_words;
               row_tolerance := row_tolerance;
               boundary_tolerance := boundary_tolerance;
               avg_word_height := avg_word_height;
               doc_width := doc_width |};
          row_count := length rows;
          column_count := length column_ranges;
          rows := imap (build_row column_ranges) rows |}.

(** The reconstruction from the collected word blocks on: everything below
    [if not word_blocks]. *)
Definition reconstruct_from_words (table_block : Block) (word_blocks : list Block)
  : option SpatialTable :=
  match word_blocks with
  | [] => None
  | _ :: _ =>
      match omap spatial_word_of word_blocks with
      | [] => None
      | (_ :: _) as spatial_words => reconstruct_from_spatial_words table_block spatial_words
      end
  end.

(** The body of the [try] block. *)
Definition spatial_body (table_block : Block) : exc (option SpatialTable) :=
  word_blocks ← table_word_blocks table_block;
  Ok (reconstruct_from_words table_block word_blocks).

(** [try: ... except Exception: return None] *)
Definition reconstruct_table_structure_spatially (table_block : Block) : option SpatialTable :=
  match spatial_body table_block with
  | Ok result => result
  | Raise _ => None
  end.

(** ** Structural table builder *)

(** The CELL blocks of a table, with the CELL children of its MERGED_CELL
    children ([cell_blocks_in_table] in the CSV path,
    [cells_in_current_table] in the JSON path: the same loops). *)
Definition cell_blocks_in_table (table : Block) : list Block :=
  flat_map
    (fun G_id =>
       match blocks_map !! G_id with
       | Some G_block =>
           if decide (BlockType G_block = "CELL") then [G_block]
           else if decide (BlockType G_block = "MERGED_CELL") then
             flat_map
               (fun m_cell_id =>
                  match blocks_map !! m_cell_id with
                  | Some m_cell => if decide (BlockType m_cell = "CELL") then [m_cell] else []
                  | None => []
                  end)
               (child_ids G_block)
           else []
       | None => []
       end)
    (child_ids table).

(** The two nested [range] loops over the span of one cell. *)
Definition write_span (row_idx col_idx row_span col_span : Z) (cell_text : string)
    (table_cells_map : gmap (Z * Z) string) : gmap (Z * Z) string :=
  fold_left
    (fun tcm r_offset =>
       fold_left
         (fun tcm c_offset =>
            let current := ((row_idx + r_offset)%Z, (col_idx + c_offset)%Z) in
            if ((r_offset =? 0)%Z && (c_offset =? 0)%Z)
            then <[current := cell_text]> tcm
            else <[current := default "" (tcm !! current)]> tcm)
         (seqZ 0 col_span) tcm)
    (seqZ 0 row_span) table_cells_map.

(** One iteration of [for cell_block in cell_blocks_in_table]; the state is
    [(table_cells_map, max_row, max_col)]. *)
Definition csv_cell_step (st : gmap (Z * Z) string * Z * Z) (cell_block : Block)
  : exc (gmap (Z * Z) string * Z * Z) :=
  let '(table_cells_map, max_row, max_col) := st in
  row_idx ← getitem "RowIndex" (RowIndex cell_block);
  col_idx ← getitem "ColumnIndex" (ColumnIndex cell_block);
  let row_span := default 1%Z (RowSpan cell_block) in
  let col_span := default 1%Z (ColumnSpan cell_block) in
  '(cell_text, _) ← get_text_and_confidence_from_block blocks_map cell_block;
  Ok (write_span row_idx col_idx row_span col_span cell_text table_cells_map,
      Z.max max_row (row_idx + row_span - 1),
      Z.max max_col (col_idx + col_span - 1)).

(** [current_table_rows] *)
Definition grid_rows (table_cells_map : gmap (Z * Z) string) (max_row max_col : Z)
  : list (list string) :=
  map (fun r => map (fun c => default "" (table_cells_map !! (r, c))) (seqZ 1 max_col))
      (seqZ 1 max_row).

(** The fallback of the CSV path for one table: [None] when the table is
    skipped ([continue]). *)
Definition structural_csv_rows (table : Block) : exc (option (list (list string))) :=
  match cell_blocks_in_table table with
  | [] => Ok None
  | (_ :: _) as cells =>
      '(table_cells_map, max_row, max_col) ← for_each csv_cell_step cells (∅, 0%Z, 0%Z);
      if decide (table_cells_map = ∅) then Ok None
      else Ok (Some (grid_rows table_cells_map max_row max_col))
  end.

(** ** CSV assembly *)

Definition page_label (table : Block) : string :=
  match Page table with
  | Some p => pretty p
  | None => "Unknown"
  end.

(** One iteration of [for table_num, table in enumerate(tables)]. *)
Definition csv_table_step (all_csv_rows : list (list string)) (numbered : nat * Block)
  : exc (list (list string)) :=
  let '(table_num, table) := numbered in
  let page_number := page_label table in
  let all_csv_rows :=
    match all_csv_rows with
    | [] => all_csv_rows
    | _ :: _ =>
        all_csv_rows ++
          [[]; ["--- Table " +:+ pretty (table_num + 1)%nat +:+ " (Page " +:+ page_number +:+ ") ---"]]
    end in
  match reconstruct_table_structure_spatially table with
  | Some spatial_table =>
      Ok (all_csv_rows ++ map (fun spatial_row => map sc_text (cells spatial_row))
                              (rows spatial_table))
  | None =>
      current_table_rows ← structural_csv_rows table;
      match current_table_rows with
      | None => Ok all_csv_rows
      | Some current_table_rows => Ok (all_csv_rows ++ current_table_rows)
      end
  end.

Definition is_type (ty : string) (block : Block) : bool := bool_decide (BlockType block = ty).

Definition parse_tables_to_csv_data (blocks : list Block) : exc (list (list string)) :=
  let tables := List.filter (is_type "TABLE") blocks in
  match tables with
  | [] =>
      let lines := List.filter (is_type "LINE") blocks in
      match lines with
      | [] => Ok []
      | _ :: _ =>
          for_each
            (fun all_csv_rows line_block =>
               '(text, _) ← get_text_and_confidence_from_block blocks_map line_block;
               Ok (all_csv_rows ++ [[text]]))
            lines [["Detected Lines (No Table Structure Found)"]]
      end
  | _ :: _ => for_each csv_table_step (imap pair tables) []
  end.

End Tables.

(** ** JSON values *)

#[local] Set Warnings "-register-all".
Inductive json : Type :=
  | JNull
  | JBool (b : bool)
  | JInt (z : Z)
  | JNum (q : Q)
  | JStr (s : string)
  | JList (l : list json)
  | JDict (l : list (string * json)).

(** ** Structured record *)

Record CellInfo : Type := {
  cellId : string;
  cell_rowIndex : Z;
  columnIndex : Z;
  rowSpan : Z;
  columnSpan : Z;
  cell_text : string;
  cell_confidence : Q;
  cell_geometry : option Geometry_;
  cell_spatiallyReconstructed : bool
}.

Record RowData : Type := {
  rowIndex : Z;
  row_cells : list CellInfo
}.

Record TableData : Type := {
  tableId : string;
  pageNumber : option Z;
  table_confidence : option Q;
  rowCount : Z;
  columnCount : Z;
  spatiallyReconstructed : bool;
  table_rows : list RowData
}.

Record KeyValuePair : Type := {
  key : string;
  keyConfidence : Q;
  value : string;
  valueConfidence : Q;
  keyGeometry : option Geometry_;
  kv_pageNumber : option Z
}.

Record RawLine : Type := {
  lineId : string;
  line_text : string;
  line_confidence : Q;
  line_geometry : option Geometry_;
  line_pageNumber : option Z
}.

Record DocumentMetadata : Type := {
  pageCount : nat
}.

Section Structured.
Variable blocks_map : gmap string Block.

(** The table record of a spatially reconstructed table. *)
Definition spatial_table_data (table_block : Block) (spatial_table : SpatialTable) : TableData :=
  {| tableId := Id table_block;
     pageNumber := Page table_block;
     table_confidence := Confidence table_block;
     rowCount := Z.of_nat (row_count spatial_table);
     columnCount := Z.of_nat (column_count spatial_table);
     spatiallyReconstructed := true;
     table_rows :=
       map (fun spatial_row =>
              {| rowIndex := row_index spatial_row;
                 row_cells :=
                   map (fun cell =>
                          {| cellId := "spatial_" +:+ Id table_block +:+ "_" +:+
                                       pretty (row_index spatial_row) +:+ "_" +:+
                                       pretty (column_index cell);
                             cell_rowIndex := row_index spatial_row;
                             columnIndex := column_index cell;
                             rowSpan := 1;
                             columnSpan := 1;
                             cell_text := sc_text cell;
                             cell_confidence := sc_confidence cell;
                             cell_geometry := None;
                             cell_spatiallyReconstructed := true |})
                       (cells spatial_row) |})
           (rows spatial_table) |}.

(** One iteration of [for cell_block in cells_in_current_table]; the state
    is [(parsed_cells_map, max_r, max_c)]. *)
Definition json_cell_step (st : list ((Z * Z) * CellInfo) * Z * Z) (cell_block : Block)
  : exc (list ((Z * Z) * CellInfo) * Z * Z) :=
  let '(parsed_cells_map, max_r, max_c) := st in
  '(text, confidence) ← get_text_and_confidence_from_block blocks_map cell_block;
  row_idx ← getitem "RowIndex" (RowIndex cell_block);
  col_idx ← getitem "ColumnIndex" (ColumnIndex cell_block);
  let cell_info :=
    {| cellId := Id cell_block;
       cell_rowIndex := row_idx;
       columnIndex := col_idx;
       rowSpan := default 1%Z (RowSpan cell_block);
       columnSpan := default 1%Z (ColumnSpan cell_block);
       cell_text := text;
       cell_confidence := round2 confidence;
       cell_geometry := Geometry cell_block;
       cell_spatiallyReconstructed := false |} in
  Ok (dict_set (cell_rowIndex cell_info, columnIndex cell_info) cell_info parsed_cells_map,
      Z.max max_r (cell_rowIndex cell_info + rowSpan cell_info - 1),
      Z.max max_c (columnIndex cell_info + columnSpan cell_info - 1)).

(** Tuple order on the keys of [parsed_cells_map] (its keys are distinct,
    so [sorted(parsed_cells_map.items())] never compares two values). *)
Definition key_leb (a b : (Z * Z) * CellInfo) : bool :=
  let '((r1, c1), _) := a in
  let '((r2, c2), _) := b in
  (r1 <? r2)%Z || ((r1 =? r2)%Z && (c1 <=? c2)%Z).

(** [temp_rows_dict]: the cells of each row index, in the order met. *)
Definition temp_rows_step (temp_rows_dict : list (Z * list CellInfo))
    (item : (Z * Z) * CellInfo) : list (Z * list CellInfo) :=
  let '((r_idx, _), cell_detail) := item in
  match dict_get r_idx temp_rows_dict with
  | None => temp_rows_dict ++ [(r_idx, [cell_detail])]
  | Some row => dict_set r_idx (row ++ [cell_detail]) temp_rows_dict
  end.

Definition structural_rows (parsed_cells_map : list ((Z * Z) * CellInfo)) : list RowData :=
  let temp_rows_dict := fold_left temp_rows_step (sort_by key_leb parsed_cells_map) [] in
  map (fun r_idx =>
         {| rowIndex := r_idx;
            row_cells := sort_keyZ columnIndex (default [] (dict_get r_idx temp_rows_dict)) |})
      (sort_keyZ id (map fst temp_rows_dict)).

(** The fallback of the JSON path for one table: [None] when the table is
    skipped ([continue]). *)
Definition structural_table_data (table_block : Block) : exc (option TableData) :=
  match cell_blocks_in_table blocks_map table_block with
  | [] => Ok None
  | (_ :: _) as cells =>
      '(parsed_cells_map, max_r, max_c) ← for_each json_cell_step cells ([], 0%Z, 0%Z);
      Ok (Some {| tableId := Id table_block;
                  pageNumber := Page table_block;
                  table_confidence := Confidence table_block;
                  rowCount := max_r;
                  columnCount := max_c;
                  spatiallyReconstructed := false;
                  table_rows := structural_rows parsed_cells_map |})
  end.

(** One iteration of [for table_block in table_blocks]. *)
Definition json_table_step (out_tables : list TableData) (table_block : Block)
  : exc (list TableData) :=
  match reconstruct_table_structure_spatially blocks_map table_block with
  | Some spatial_table => Ok (out_tables ++ [spatial_table_data table_block spatial_table])
  | None =>
      table_data ← structural_table_data table_block;
      match table_data with
      | None => Ok out_tables
      | Some table_data => Ok (out_tables ++ [table_data])
      end
  end.

(** ** Key/value extraction *)

(** [for rel in ...: if rel['Type'] == 'VALUE': ...; break]: the ids of the
    first VALUE relationship. *)
Fixpoint first_value_ids (rels : list Relationship) : option (list string) :=
  match rels with
  | [] => None
  | rel :: rest => if decide (Type_ rel = "VALUE") then Some (Ids rel) else first_value_ids rest
  end.

Definition value_step (st : string * Q) (value_id : string) : exc (string * Q) :=
  let '(value_text, value_confidence) := st in
  match blocks_map !! value_id with
  | Some value_block =>
      '(v_text, v_conf) ← get_text_and_confidence_from_block blocks_map value_block;
      Ok (value_text +:+ v_text +:+ " ", Qmax value_confidence v_conf)
  | None => Ok st
  end.

(** One iteration of [for key_block in keys]. *)
Definition key_value_pair (key_block : Block) : exc KeyValuePair :=
  '(key_text, key_confidence) ← get_text_and_confidence_from_block blocks_map key_block;
  '(value_text, value_confidence) ←
    match first_value_ids (relationships key_block) with
    | Some ids => for_each value_step ids ("", 0%Q)
    | None => Ok ("", 0%Q)
    end;
  Ok {| key := strip key_text;
        keyConfidence := round2 key_confidence;
        value := strip value_text;
        valueConfidence := round2 value_confidence;
        keyGeometry := Geometry key_block;
        kv_pageNumber := Page key_block |}.

Definition is_key (kv : Block) : bool := bool_decide ("KEY" ∈ default [] (EntityTypes kv)).

Definition raw_line (line_block : Block) : exc RawLine :=
  '(text, confidence) ← get_text_and_confidence_from_block blocks_map line_block;
  Ok {| lineId := Id line_block;
        line_text := text;
        line_confidence := round2 confidence;
        line_geometry := Geometry line_block;
        line_pageNumber := Page line_block |}.

End Structured.

(** ** The AI restructuring step ([smart_table_restructure])

    The step works on a table record of the structured output.  The reply
    of the chat completion is whatever JSON the service sent, so it is kept
    untyped ([json]) and read with Python's rules: [.get] needs a dict,
    truth is emptiness or zero, [enumerate] iterates a list, the characters
    of a string or the keys of a dict, a comparison with an [int] needs a
    number ([bool] counts as 0 or 1), a slice bound needs an integer.
    A JSON object is the association list of its keys, which are distinct.
    Every exception raised inside the function is caught there and makes it
    return its argument, so the body is an [option]: [None] stands for any
    exception, and for the branch that declines the analysis. *)

Definition py_truthy (v : json) : bool :=
  match v with
  | JNull => false
  | JBool b => b
  | JInt z => negb (z =? 0)%Z
  | JNum q => negb (Qeq_bool q 0)
  | JStr s => negb (str_empty s)
  | JList [] => false
  | JList (_ :: _) => true
  | JDict [] => false
  | JDict (_ :: _) => true
  end.

(** [d.get(key, default)]: [None] is the [AttributeError] of a value that is
    no dict. *)
Definition py_get (key : string) (default_value : json) (d : json) : option json :=
  match d with
  | JDict items => Some (default default_value (dict_get key items))
  | _ => None
  end.

(** The elements a [for] loop sees (of a string its characters, of a dict
    its keys); [None] is the [TypeError] of a value that cannot be
    iterated. *)
Definition py_iter (v : json) : option (list json) :=
  match v with
  | JList l => Some l
  | JStr s => Some (map JStr (str_chars s))
  | JDict items => Some (map (fun item => JStr item.1) items)
  | _ => None
  end.

(** [v < n] for an [int] [n]; [None] is the [TypeError] of a value that is
    no number. *)
Definition py_lt_int (v : json) (n : Z) : option bool :=
  match v with
  | JInt z => Some (z <? n)%Z
  | JBool b => Some (Z.b2z b <? n)%Z
  | JNum q => Some (Qltb q (inject_Z n))
  | _ => None
  end.

(** A value used as a slice bound; [None] is the [TypeError] of a value
    that is no integer. *)
Definition py_index (v : json) : option Z :=
  match v with
  | JInt z => Some z
  | JBool b => Some (Z.b2z b)
  | _ => None
  end.

(** [l[start:]]: a negative [start] counts from the end. *)
Definition py_slice_from {A} (start : Z) (l : list A) : list A :=
  if (start <? 0)%Z then drop (Z.to_nat (Z.of_nat (length l) + start)) l
  else drop (Z.to_nat start) l.

(** A cell of a restructured table: a header cell holds whatever the
    analysis listed as header, and neither it nor a padding cell has the
    key [spatiallyReconstructed]. *)
Record RestructuredCell : Type := {
  r_cellId : string;
  r_rowIndex : Z;
  r_columnIndex : Z;
  r_rowSpan : Z;
  r_columnSpan : Z;
  r_text : json;
  r_confidence : Q;
  r_geometry : option Geometry_;
  r_spatiallyReconstructed : option bool
}.

Record RestructuredRow : Type := {
  r_row_rowIndex : Z;
  r_cells : list RestructuredCell
}.

(** [{**table_data, 'restructured': True, ...}] with [rows], [rowCount] and
    [columnCount] replaced. *)
Record RestructuredTable : Type := {
  r_tableId : string;
  r_pageNumber : option Z;
  r_table_confidence : option Q;
  r_rowCount : Z;
  r_columnCount : Z;
  r_table_spatiallyReconstructed : bool;
  r_rows : list RestructuredRow;
  restructured : bool;
  original_row_count : Z;
  ai_analysis : json
}.

Section Restructure.
(** [AI_AVAILABLE and OPENAI_API_KEY] *)
Variable ai_enabled : bool.
(** The chat completion for the prompt built from [analysis_data], parsed
    by [json.loads]; [None] when the call or the parsing raises. *)
Variable chat_completion : list (list string) -> option json.

(** The texts of the first 10 rows. *)
Definition analysis_data (table_data : TableData) : list (list string) :=
  map (fun row => map cell_text (row_cells row)) (take 10 (table_rows table_data)).

Definition header_cell (i : nat) (header_text : json) : RestructuredCell :=
  {| r_cellId := "header_" +:+ pretty i;
     r_rowIndex := 1;
     r_columnIndex := Z.of_nat i + 1;
     r_rowSpan := 1;
     r_columnSpan := 1;
     r_text := header_text;
     r_confidence := 100;
     r_geometry := None;
     r_spatiallyReconstructed := None |}.

(** [original_cells[col_idx].copy()] with its two indices overwritten. *)
Definition moved_cell (row_idx : Z) (col_idx : nat) (cell : CellInfo) : RestructuredCell :=
  {| r_cellId := cellId cell;
     r_rowIndex := row_idx;
     r_columnIndex := Z.of_nat col_idx + 1;
     r_rowSpan := rowSpan cell;
     r_columnSpan := columnSpan cell;
     r_text := JStr (cell_text cell);
     r_confidence := cell_confidence cell;
     r_geometry := cell_geometry cell;
     r_spatiallyReconstructed := Some (cell_spatiallyReconstructed cell) |}.

Definition empty_cell (row_idx : Z) (col_idx : nat) : RestructuredCell :=
  {| r_cellId := "empty_" +:+ pretty row_idx +:+ "_" +:+ pretty col_idx;
     r_rowIndex := row_idx;
     r_columnIndex := Z.of_nat col_idx + 1;
     r_rowSpan := 1;
     r_columnSpan := 1;
     r_text := JStr "";
     r_confidence := 0;
     r_geometry := None;
     r_spatiallyReconstructed := None |}.

(** One iteration of
    [for row_idx, original_row in enumerate(original_rows[data_start_row:], start=2)]. *)
Definition data_row (consolidated_headers : list json) (k : nat) (original_row : RowData)
  : RestructuredRow :=
  let row_idx := (Z.of_nat k + 2)%Z in
  {| r_row_rowIndex := row_idx;
     r_cells :=
       imap (fun col_idx _ =>
               match row_cells original_row !! col_idx with
               | Some cell => moved_cell row_idx col_idx cell
               | None => empty_cell row_idx col_idx
               end)
            consolidated_headers |}.

(** The body of the [try] block. *)
Definition restructure_body (table_data : TableData) : option RestructuredTable :=
  ai_analysis ← chat_completion (analysis_data table_data);
  _ ← py_get "header_row_indices" (JList [JInt 0]) ai_analysis;
  consolidated_headers ← py_get "consolidated_headers" (JList []) ai_analysis;
  data_start_row ← py_get "data_start_row" (JInt 1) ai_analysis;
  if py_truthy consolidated_headers then
    in_range ← py_lt_int data_start_row (Z.of_nat (length (table_rows table_data)));
    if in_range : bool then
      headers ← py_iter consolidated_headers;
      let header_row := {| r_row_rowIndex := 1; r_cells := imap header_cell headers |} in
      start ← py_index data_start_row;
      let new_rows :=
        header_row :: imap (data_row headers) (py_slice_from start (table_rows table_data)) in
      Some {| r_tableId := tableId table_data;
              r_pageNumber := pageNumber table_data;
              r_table_confidence := table_confidence table_data;
              r_rowCount := Z.of_nat (length new_rows);
              r_columnCount := Z.of_nat (length headers);
              r_table_spatiallyReconstructed := spatiallyReconstructed table_data;
              r_rows := new_rows;
              restructured := true;
              original_row_count := Z.of_nat (length (table_rows table_data));
              ai_analysis := ai_analysis |}
    else None
  else None.

Definition smart_table_restructure (table_data : TableData) : TableData + RestructuredTable :=
  if negb ai_enabled then inl table_data
  else match restructure_body table_data with
       | Some restructured_table => inr restructured_table
       | None => inl table_data
       end.

(** The restructuring loop of [parse_blocks_to_structured_json]: every
    table of the output is replaced, at its index, by what
    [smart_table_restructure] returns for it. *)
Definition restructure_tables (tables : list TableData)
  : list (TableData + RestructuredTable) :=
  if negb (bool_decide (tables = [])) && ai_enabled then
    fold_left
      (fun out_tables '(i, table) => <[i := smart_table_restructure table]> out_tables)
      (imap pair tables) (map inl tables)
  else map inl tables.

End Restructure.

(** ** The structured record ([parse_blocks_to_structured_json]) *)

Record OutputJson : Type := {
  originalS3Key : string;
  processingJobId : string;
  documentMetadata : DocumentMetadata;
  tables : list (TableData + RestructuredTable);
  keyValuePairs : list KeyValuePair;
  rawLines : list RawLine
}.

Definition parse_blocks_to_structured_json (ai_enabled : bool)
    (chat_completion : list (list string) -> option json)
    (blocks_map : gmap string Block) (blocks : list Block)
    (original_s3_key job_id : string) : exc OutputJson :=
  let pages := List.filter (is_type "PAGE") blocks in
  let table_blocks := List.filter (is_type "TABLE") blocks in
  out_tables ← for_each (json_table_step blocks_map) table_blocks [];
  let out_tables := restructure_tables ai_enabled chat_completion out_tables in
  let key_value_blocks := List.filter (is_type "KEY_VALUE_SET") blocks in
  let keys := List.filter is_key key_value_blocks in
  pairs ← mapM (key_value_pair blocks_map) keys;
  let line_blocks := List.filter (is_type "LINE") blocks in
  lines ← mapM (raw_line blocks_map) line_blocks;
  Ok {| originalS3Key := original_s3_key;
        processingJobId := job_id;
        documentMetadata := {| pageCount := length pages |};
        tables := out_tables;
        keyValuePairs := pairs;
        rawLines := lines |}.

(** ** Serialisation ([json.dumps] of the structured record) *)

Definition json_opt {A} (f : A -> json) (o : option A) : json :=
  match o with
  | Some a => f a
  | None => JNull
  end.

Definition bounding_box_json (bbox : BoundingBox) : json :=
  JDict [("Left", json_opt JNum (Left bbox)); ("Top", json_opt JNum (Top bbox));
         ("Width", json_opt JNum (Width bbox)); ("Height", json_opt JNum (Height bbox))].

Definition geometry_json (g : Geometry_) : json :=
  JDict (match BoundingBox_ g with
         | Some bbox => [("BoundingBox", bounding_box_json bbox)]
         | None => []
         end).

Definition cell_json (c : CellInfo) : json :=
  JDict [("cellId", JStr (cellId c)); ("rowIndex", JInt (cell_rowIndex c));
         ("columnIndex", JInt (columnIndex c)); ("rowSpan", JInt (rowSpan c));
         ("columnSpan", JInt (columnSpan c)); ("text", JStr (cell_text c));
         ("confidence", JNum (cell_confidence c));
         ("geometry", json_opt geometry_json (cell_geometry c));
         ("spatiallyReconstructed", JBool (cell_spatiallyReconstructed c))].

Definition row_json (r : RowData) : json :=
  JDict [("rowIndex", JInt (rowIndex r)); ("cells", JList (map cell_json (row_cells r)))].

Definition table_json (t : TableData) : json :=
  JDict [("tableId", JStr (tableId t)); ("pageNumber", json_opt JInt (pageNumber t));
         ("confidence", json_opt JNum (table_confidence t));
         ("rowCount", JInt (rowCount t)); ("columnCount", JInt (columnCount t));
         ("spatiallyReconstructed", JBool (spatiallyReconstructed t));
         ("rows", JList (map row_json (table_rows t)))].

(** A restructured table is [{**table_data, ...}], so its first keys are
    those of the table; a header or padding cell has eight keys and an
    [int] as confidence. *)
Definition restructured_cell_json (c : RestructuredCell) : json :=
  JDict ([("cellId", JStr (r_cellId c)); ("rowIndex", JInt (r_rowIndex c));
          ("columnIndex", JInt (r_columnIndex c)); ("rowSpan", JInt (r_rowSpan c));
          ("columnSpan", JInt (r_columnSpan c)); ("text", r_text c);
          ("confidence",
           match r_spatiallyReconstructed c with
           | Some _ => JNum (r_confidence c)
           | None => JInt (Qfloor (r_confidence c))
           end);
          ("geometry", json_opt geometry_json (r_geometry c))] ++
         match r_spatiallyReconstructed c with
         | Some b => [("spatiallyReconstructed", JBool b)]
         | None => []
         end).

Definition restructured_row_json (r : RestructuredRow) : json :=
  JDict [("rowIndex", JInt (r_row_rowIndex r));
         ("cells", JList (map restructured_cell_json (r_cells r)))].

Definition restructured_table_json (t : RestructuredTable) : json :=
  JDict [("tableId", JStr (r_tableId t)); ("pageNumber", json_opt JInt (r_pageNumber t));
         ("confidence", json_opt JNum (r_table_confidence t));
         ("rowCount", JInt (r_rowCount t)); ("columnCount", JInt (r_columnCount t));
         ("spatiallyReconstructed", JBool (r_table_spatiallyReconstructed t));
         ("rows", JList (map restructured_row_json (r_rows t)));
         ("restructured", JBool (restructured t));
         ("original_row_count", JInt (original_row_count t));
         ("ai_analysis", ai_analysis t)].

Definition output_table_json (t : TableData + RestructuredTable) : json :=
  match t with
  | inl table_data => table_json table_data
  | inr restructured_table => restructured_table_json restructured_table
  end.

Definition pair_json (p : KeyValuePair) : json :=
  JDict [("key", JStr (key p)); ("keyConfidence", JNum (keyConfidence p));
         ("value", JStr (value p)); ("valueConfidence", JNum (valueConfidence p));
         ("keyGeometry", json_opt geometry_json (keyGeometry p));
         ("pageNumber", json_opt JInt (kv_pageNumber p))].

Definition line_json (l : RawLine) : json :=
  JDict [("lineId", JStr (lineId l)); ("text", JStr (line_text l));
         ("confidence", JNum (line_confidence l));
         ("geometry", json_opt geometry_json (line_geometry l));
         ("pageNumber", json_opt JInt (line_pageNumber l))].

Definition output_json (o : OutputJson) : json :=
  JDict [("originalS3Key", JStr (originalS3Key o));
         ("processingJobId", JStr (processingJobId o));
         ("documentMetadata", JDict [("pageCount", JInt (Z.of_nat (pageCount (documentMetadata o))))]);
         ("tables", JList (map output_table_json (tables o)));
         ("keyValuePairs", JList (map pair_json (keyValuePairs o)));
         ("rawLines", JList (map line_json (rawLines o)))].

(** * Vocabulary of the statements *)

(** One write of the span loops, at offset [(r_offset, c_offset)]. *)
Definition write_one (row_idx col_idx : Z) (cell_text : string) (tcm : gmap (Z * Z) string)
    (offset : Z * Z) : gmap (Z * Z) string :=
  let current := ((row_idx + offset.1)%Z, (col_idx + offset.2)%Z) in
  if ((offset.1 =? 0)%Z && (offset.2 =? 0)%Z)
  then <[current := cell_text]> tcm
  else <[current := default "" (tcm !! current)]> tcm.

Definition span_offsets (row_span col_span : Z) : list (Z * Z) :=
  flat_map (fun r_offset => map (fun c_offset => (r_offset, c_offset)) (seqZ 0 col_span))
           (seqZ 0 row_span).

Definition position (row_idx col_idx : Z) (offset : Z * Z) : Z * Z :=
  ((row_idx + offset.1)%Z, (col_idx + offset.2)%Z).

(** What the write at [offset] stores, given the map [tcm0] before the
    cell was processed. *)
Definition written (row_idx col_idx : Z) (cell_text : string) (tcm0 : gmap (Z * Z) string)
    (offset : Z * Z) : string :=
  if ((offset.1 =? 0)%Z && (offset.2 =? 0)%Z) then cell_text
  else default "" (tcm0 !! position row_idx col_idx offset).

(** The texts of a spatial grid, row by row. *)
Definition spatial_texts (st : SpatialTable) : list (list string) :=
  map (fun spatial_row => map sc_text (cells spatial_row)) (rows st).

(** The cell of the grid at row [i], column [j] (1-based). *)
Definition grid_at (grid : list (list string)) (i j : Z) : option string :=
  grid !! Z.to_nat (i - 1) ≫= fun row => row !! Z.to_nat (j - 1).

(** Trimming in the words of its contract.  A string of white-space
    characters only, and the trimmed form [r] of [s]: what is left of [s]
    between white space at both ends, itself neither starting nor ending
    with a white-space character. *)
Inductive spaces : string -> Prop :=
  | spaces_nil : spaces ""
  | spaces_cons (p s : string) : p ∈ whitespace -> spaces s -> spaces (p +:+ s).

Definition trimmed (s r : string) : Prop :=
  exists pre post,
    s = pre +:+ r +:+ post /\ spaces pre /\ spaces post /\
    forall p u, p ∈ whitespace -> r <> p +:+ u /\ r <> u +:+ p.

(** The bytes of a string all continue a character. *)
Fixpoint all_continuation (s : string) : bool :=
  match s with
  | EmptyString => true
  | String c s' => is_continuation c && all_continuation s'
  end.

(** The resolver in the words of its contract: what each child
    contributes, the joined text, and the confidences that count. *)
Definition child_contribution (child : Block) : option (string * Q) :=
  if decide (BlockType child = "WORD") then
    Some (default "" (Text child), default 0%Q (Confidence child))
  else if decide (BlockType child = "SELECTION_ELEMENT") then
    Some (if decide (SelectionStatus child = Some "SELECTED") then "[X]" else "[ ]",
          default 0%Q (Confidence child))
  else None.

Definition child_contributions (blocks_map : gmap string Block) (block : Block)
  : list (string * Q) :=
  omap (fun child_id => blocks_map !! child_id ≫= child_contribution) (child_ids block).

Definition joined_text (blocks_map : gmap string Block) (block : Block) : string :=
  strip (join " " (child_contributions blocks_map block).*1).

(** The own text is used when the children contributed no text. *)
Definition falls_back (blocks_map : gmap string Block) (block : Block) : bool :=
  str_empty (joined_text blocks_map block) && bool_decide (is_Some (Text block)).

Definition resolved_text (blocks_map : gmap string Block) (block : Block) : string :=
  if falls_back blocks_map block then strip (default "" (Text block))
  else joined_text blocks_map block.

Definition contributing_confidences (blocks_map : gmap string Block) (block : Block) : list Q :=
  (child_contributions blocks_map block).*2 ++
  (if falls_back blocks_map block then [default 0%Q (Confidence block)] else []).

Definition is_minimum (c : Q) (l : list Q) : Prop :=
  c ∈ l /\ forall x, x ∈ l -> (c <= x)%Q.

(** The children the resolver reads have the keys it indexes: a WORD has
    its Text, a SELECTION_ELEMENT its SelectionStatus. *)
Definition readable (child : Block) : Prop :=
  (BlockType child = "WORD" -> is_Some (Text child)) /\
  (BlockType child = "SELECTION_ELEMENT" -> is_Some (SelectionStatus child)).

Definition children_readable (blocks_map : gmap string Block) (block : Block) : Prop :=
  forall child_id child,
    child_id ∈ child_ids block -> blocks_map !! child_id = Some child -> readable child.

Definition readableb (child : Block) : bool :=
  (if decide (BlockType child = "WORD") then bool_decide (is_Some (Text child)) else true) &&
  (if decide (BlockType child = "SELECTION_ELEMENT")
   then bool_decide (is_Some (SelectionStatus child)) else true).

Definition children_readableb (blocks_map : gmap string Block) (block : Block) : bool :=
  forallb (fun child_id =>
             match blocks_map !! child_id with
             | Some child => readableb child
             | None => true
             end)
          (child_ids block).

(** The value text before trimming: every resolved text followed by a
    space. *)
Definition spaced_texts (resolved : list (string * Q)) : string :=
  foldr (fun r rest => r.1 +:+ " " +:+ rest) "" resolved.

Definition is_maximum (c : Q) (l : list Q) : Prop :=
  c ∈ l /\ forall x, x ∈ l -> (x <= c)%Q.

(** A number with at most two decimal places. *)
Definition two_decimals (q : Q) : Prop := exists n : Z, (q == n # 100)%Q.

(** The keys of a JSON object, in order. *)
Definition json_keys (j : json) : list string :=
  match j with
  | JDict l => l.*1
  | _ => []
  end.

Definition json_field (name : string) (j : json) : option json :=
  match j with
  | JDict l => dict_get name l
  | _ => None
  end.

(** A well-formed index: every block has the keys the code indexes for its
    type (a WORD its Text, a SELECTION_ELEMENT its SelectionStatus, a CELL
    its RowIndex and ColumnIndex). *)
Definition well_formed_block (b : Block) : Prop :=
  readable b /\
  (BlockType b = "CELL" -> is_Some (RowIndex b) /\ is_Some (ColumnIndex b)).

Definition well_formed (blocks_map : gmap string Block) : Prop :=
  forall id b, blocks_map !! id = Some b -> well_formed_block b.

Definition well_formed_blockb (b : Block) : bool :=
  readableb b &&
  (if decide (BlockType b = "CELL")
   then bool_decide (is_Some (RowIndex b)) && bool_decide (is_Some (ColumnIndex b))
   else true).

(** A cell of the structured record whose confidence is rounded, and a
    table whose cells all are and whose own confidence is the one of its
    TABLE block, as it came. *)
Definition cell_ok (c : CellInfo) : Prop := two_decimals (cell_confidence c).

Definition table_ok (blocks : list Block) (t : TableData) : Prop :=
  (exists table_block, table_block ∈ blocks /\ tableId t = Id table_block /\
                       table_confidence t = Confidence table_block) /\
  Forall (fun row => Forall cell_ok (row_cells row)) (table_rows t).

(** The tabular artifact in the words of its contract.  What one table
    contributes: the rows of its spatial grid, else those of its structural
    grid, or nothing when it is skipped. *)
Definition csv_table_body (blocks_map : gmap string Block) (table : Block)
  : exc (option (list (list string))) :=
  match reconstruct_table_structure_spatially blocks_map table with
  | Some spatial_table => Ok (Some (spatial_texts spatial_table))
  | None => structural_csv_rows blocks_map table
  end.

Definition table_label (table_num : nat) (table : Block) : string :=
  "--- Table " +:+ pretty (table_num + 1)%nat +:+ " (Page " +:+ page_label table +:+ ") ---".

Definition has_rows (body : option (list (list string))) : bool :=
  match body with
  | Some (_ :: _) => true
  | _ => false
  end.

(** Some table before position [i] contributed a row. *)
Definition rows_before (i : nat) (bodies : list (option (list (list string)))) : bool :=
  existsb has_rows (take i bodies).

(** The rows table [i] adds: a blank row and its label when rows were
    emitted before it, then its own rows. *)
Definition table_piece (emitted_before : bool) (i : nat)
    (item : Block * option (list (list string))) : list (list string) :=
  (if emitted_before then [[]; [table_label i item.1]] else []) ++ default [] item.2.

Definition assembled_tables (tables : list Block)
    (bodies : list (option (list (list string)))) : list (list string) :=
  concat (imap (fun i item => table_piece (rows_before i bodies) i item) (zip tables bodies)).

Definition lines_header : list string := ["Detected Lines (No Table Structure Found)"].

Definition assembled_lines (texts : list string) : list (list string) :=
  match texts with
  | [] => []
  | _ :: _ => lines_header :: map (fun text => [text]) texts
  end.

(** The clean 2×2 layout.  The spatial word of a WORD block placed at the
    box [(l, t, w, h)]. *)
Definition spatial_word (id text : string) (conf l t w h : Q) : SpatialWord :=
  {| sw_id := id; sw_text := text; sw_confidence := conf;
     sw_left := l; sw_top := t; sw_width := w; sw_height := h;
     sw_right := l + w; sw_bottom := t + h;
     sw_center_x := l + w / 2; sw_center_y := t + h / 2 |}.

(** [cell_id] names a CELL block of the index whose only child is the WORD
    block [word]. *)
Definition word_in_cell (blocks_map : gmap string Block) (cell_id : string) (word : Block)
  : Prop :=
  exists cell word_id,
    blocks_map !! cell_id = Some cell /\ BlockType cell = "CELL" /\
    child_ids cell = [word_id] /\
    blocks_map !! word_id = Some word /\ BlockType word = "WORD".

Definition word_at (word : Block) (l t w h : Q) : Prop :=
  Geometry word =
  Some {| BoundingBox_ :=
            Some {| Left := Some l; Top := Some t; Width := Some w; Height := Some h |} |}.

Definition word_text (word : Block) : string := default "" (Text word).

(** Consecutive elements are in order. *)
Fixpoint chain {A} (leb : A -> A -> bool) (l : list A) : bool :=
  match l with
  | x :: ((y :: _) as rest) => leb x y && chain leb rest
  | _ => true
  end.

(** Sample inputs. *)

Definition sample_ranges : list ColumnRange :=
  [ {| cr_start := 0.125; cr_end := 0.25; cr_center := 0.1875 |};
    {| cr_start := 0.25; cr_end := 0.5; cr_center := 0.375 |} ].

(** The chat completion of a deployment without an API key, where it is
    never asked. *)
Definition no_chat (analysis_data : list (list string)) : option json := None.

Definition bare_block (id ty : string) : Block :=
  {| Id := id; BlockType := ty; Text := None; Confidence := None; Page := None;
     Geometry := None; Relationships := None; RowIndex := None; ColumnIndex := None;
     RowSpan := None; ColumnSpan := None; EntityTypes := None; SelectionStatus := None |}.

Definition children (ids : list string) : option (list Relationship) :=
  Some [ {| Type_ := "CHILD"; Ids := ids |} ].

Definition box (l t w h : Q) : option Geometry_ :=
  Some {| BoundingBox_ :=
            Some {| Left := Some l; Top := Some t; Width := Some w; Height := Some h |} |}.

(** A WORD block, with or without geometry. *)
Definition word_block (id text : string) (conf : Q) (g : option Geometry_) : Block :=
  {| Id := id; BlockType := "WORD"; Text := Some text; Confidence := Some conf;
     Page := Some 1%Z; Geometry := g; Relationships := None; RowIndex := None;
     ColumnIndex := None; RowSpan := None; ColumnSpan := None; EntityTypes := None;
     SelectionStatus := None |}.

(** A CELL block at [(r, c)] with optional spans. *)
Definition cell_block (id : string) (r c : option Z) (rs cs : option Z) (ids : list string)
  : Block :=
  {| Id := id; BlockType := "CELL"; Text := None; Confidence := Some 90%Q;
     Page := Some 1%Z; Geometry := None; Relationships := children ids; RowIndex := r;
     ColumnIndex := c; RowSpan := rs; ColumnSpan := cs; EntityTypes := None;
     SelectionStatus := None |}.

Definition table_block (id : string) (conf : Q) (ids : list string) : Block :=
  {| Id := id; BlockType := "TABLE"; Text := None; Confidence := Some conf;
     Page := Some 1%Z; Geometry := None; Relationships := children ids; RowIndex := None;
     ColumnIndex := None; RowSpan := None; ColumnSpan := None; EntityTypes := None;
     SelectionStatus := None |}.

Definition line_block (id text : string) (conf : Q) (ids : list string) : Block :=
  {| Id := id; BlockType := "LINE"; Text := Some text; Confidence := Some conf;
     Page := Some 1%Z; Geometry := None; Relationships := children ids; RowIndex := None;
     ColumnIndex := None; RowSpan := None; ColumnSpan := None; EntityTypes := None;
     SelectionStatus := None |}.

(** A table whose first row is one cell spanning two columns and whose
    second row has two cells; the words carry no geometry, so the spatial
    reconstruction has nothing to work with. *)
Definition spanning_blocks : list Block :=
  [ table_block "t" 99 ["a"; "b"; "c"];
    cell_block "a" (Some 1%Z) (Some 1%Z) (Some 1%Z) (Some 2%Z) ["wa"];
    cell_block "b" (Some 2%Z) (Some 1%Z) None None ["wb"];
    cell_block "c" (Some 2%Z) (Some 2%Z) None None ["wc"];
    word_block "wa" "Title" 99 None;
    word_block "wb" "x" 98 None;
    word_block "wc" "y" 97 None ].

(** The texts of the rows of every table of a structured record. *)
Definition table_texts (t : TableData) : list (list string) :=
  map (fun row => map cell_text (row_cells row)) (table_rows t).

(** Four words in a clean 2×2 layout, each in a cell of the table. *)
Definition grid_words : list Block :=
  [ word_block "w11" "A" 99 (box 0.125 0.125 0.125 0.03125);
    word_block "w12" "B" 98 (box 0.5 0.125 0.125 0.03125);
    word_block "w21" "C" 97 (box 0.125 0.25 0.125 0.03125);
    word_block "w22" "D" 96 (box 0.5 0.25 0.125 0.03125) ].

Definition grid_table : Block := table_block "t" 99.123 ["c11"; "c12"; "c21"; "c22"].

Definition grid_blocks : list Block :=
  grid_table ::
  [ cell_block "c11" (Some 1%Z) (Some 1%Z) None None ["w11"];
    cell_block "c12" (Some 1%Z) (Some 2%Z) None None ["w12"];
    cell_block "c21" (Some 2%Z) (Some 1%Z) None None ["w21"];
    cell_block "c22" (Some 2%Z) (Some 2%Z) None None ["w22"] ] ++ grid_words.




(** A form field "Date" with its value, and a field "Name" with no VALUE
    relationship. *)
Definition key_block (id : string) (rels : list Relationship) : Block :=
  {| Id := id; BlockType := "KEY_VALUE_SET"; Text := None; Confidence := Some 50%Q;
     Page := Some 1%Z; Geometry := None; Relationships := Some rels; RowIndex := None;
     ColumnIndex := None; RowSpan := None; ColumnSpan := None; EntityTypes := Some ["KEY"];
     SelectionStatus := None |}.

Definition value_block (id : string) (ids : list string) : Block :=
  {| Id := id; BlockType := "KEY_VALUE_SET"; Text := None; Confidence := Some 50%Q;
     Page := Some 1%Z; Geometry := None; Relationships := children ids; RowIndex := None;
     ColumnIndex := None; RowSpan := None; ColumnSpan := None; EntityTypes := Some ["VALUE"];
     SelectionStatus := None |}.

Definition date_key : Block :=
  key_block "k1" [ {| Type_ := "VALUE"; Ids := ["v1"] |}; {| Type_ := "CHILD"; Ids := ["kw1"] |} ].

Definition name_key : Block :=
  key_block "k2" [ {| Type_ := "CHILD"; Ids := ["kw2"] |} ].

Definition form_blocks : list Block :=
  [ bare_block "p" "PAGE";
    date_key;
    value_block "v1" ["vw1"];
    name_key;
    word_block "kw1" "Date" 98 None;
    word_block "vw1" "01/01/2024" 95 None;
    word_block "kw2" "Name" 97 None ].

Definition pair_summary (p : KeyValuePair) : string * Q * string * Q :=
  (key p, keyConfidence p, value p, valueConfidence p).

(** A blank document: one PAGE block. *)
Definition blank_blocks : list Block := [ bare_block "p" "PAGE" ].

(** Three lines and no table. *)
Definition lines_blocks : list Block :=
  [ bare_block "p" "PAGE";
    line_block "l1" "first line" 99 ["x1"; "x2"];
    line_block "l2" "second" 98 [];
    line_block "l3" "third" 97 [];
    word_block "x1" "first" 99 None;
    word_block "x2" "line" 96 None ].

(** Two tables, the first without cell blocks (it is skipped), and the same
    two in the other order. *)
Definition empty_table : Block := table_block "e" 90 [].

Definition small_table : Block := table_block "s" 90 ["sc"].

Definition small_table_blocks : list Block :=
  [ cell_block "sc" (Some 1%Z) (Some 1%Z) None None ["sw"]; word_block "sw" "x" 98 None ].

(** A table whose cell holds a LINE block that lists itself as a child: the
    word extraction recurses until the interpreter stops it. *)
Definition looping_table : Block := table_block "lt" 90 ["lc"].

Definition looping_blocks : list Block :=
  [ looping_table;
    cell_block "lc" (Some 1%Z) (Some 1%Z) None None ["ll"; "lw"];
    line_block "ll" "again" 90 ["ll"];
    word_block "lw" "again" 90 None ].

(** A table whose cell block lacks its RowIndex, followed by a sound
    table. *)
Definition broken_table : Block := table_block "bt" 90 ["bc"].

Definition broken_blocks : list Block :=
  [ broken_table;
    cell_block "bc" None (Some 1%Z) None None ["bw"];
    word_block "bw" "y" 90 None;
    small_table ] ++ small_table_blocks.

(** A line with a text of its own whose two words are white space only (a
    no-break space and a space); a line "Hello" whose only word is empty;
    a cell without text whose only word is a space. *)
Definition blank_words_blocks : list Block :=
  [ line_block "l" " own text " 80 ["s1"; "s2"];
    word_block "s1" (utf8 160) 70 None;
    word_block "s2" " " 60 None ].

Definition empty_word_blocks : list Block :=
  [ line_block "h" "Hello" 90 ["e"];
    word_block "e" "" 10 None ].

Definition space_word_blocks : list Block :=
  [ cell_block "c" (Some 1%Z) (Some 1%Z) None None ["sp"];
    word_block "sp" " " 50 None ].

(** * Further Python built-ins on strings *)

(** The character of a one-character string literal. *)
Definition char_of (s : string) : Ascii.ascii :=
  match s with
  | String c _ => c
  | EmptyString => Ascii.zero
  end.

(** [s.replace(old, new)] for a one-character [old]. *)
Fixpoint str_replace (old : Ascii.ascii) (new : string) (s : string) : string :=
  match s with
  | EmptyString => EmptyString
  | String c s' =>
      if Ascii.eqb c old then new +:+ str_replace old new s'
      else String c (str_replace old new s')
  end.

(** [s[:n]] and [s[n:]] for [n >= 0]: the first [n] characters, and the
    string without them.  The bytes that continue a character go with
    it. *)
Fixpoint str_take (n : nat) (s : string) : string :=
  match s with
  | EmptyString => EmptyString
  | String c s' =>
      if is_continuation c then String c (str_take n s')
      else match n with
           | O => EmptyString
           | S n' => String c (str_take n' s')
           end
  end.

Fixpoint str_drop (n : nat) (s : string) : string :=
  match s with
  | EmptyString => EmptyString
  | String c s' =>
      if is_continuation c then str_drop n s'
      else match n with
           | O => s
           | S n' => str_drop n' s'
           end
  end.

(** [c in s] for a character [c]. *)
Fixpoint str_contains (c : Ascii.ascii) (s : string) : bool :=
  match s with
  | EmptyString => false
  | String c' s' => Ascii.eqb c' c || str_contains c s'
  end.

(** The truth value of a string that may be absent ([None] and the empty
    string are false). *)
Definition str_truthy (s : option string) : bool :=
  match s with
  | Some s => negb (str_empty s)
  | None => false
  end.

(** * The job starter ([src/textract_lambda.py])

    The handler is called with an event naming an S3 object and starts one
    Textract analysis for it.  The Textract client is a function from the
    request to its reply; the calls made are returned with the response, so
    that what was asked of the service can be stated. *)
Module textract_lambda.

Record Event : Type := {
  bucket : option string;
  key : option string
}.

(** The keyword arguments of [start_document_analysis]. *)
Record StartDocumentAnalysis : Type := {
  DocumentLocation_S3Object_Bucket : string;
  DocumentLocation_S3Object_Name : string;
  FeatureTypes : list string;
  NotificationChannel_SNSTopicArn : string;
  NotificationChannel_RoleArn : string;
  JobTag : string
}.

(** The reply of the service: the response dict, whose [JobId] the handler
    indexes, or an exception with its text ([str(e)]). *)
Inductive reply : Type :=
  | Response (JobId : option string)
  | ClientError (text : string).

Inductive Body : Type :=
  | error_body (error : string)
  | started_body (message jobId bucket key : string).

Record Result : Type := {
  statusCode : Z;
  body : Body
}.

Definition job_tag_of (object_key : string) : string :=
  str_take 64 (str_replace (char_of "/") "--" object_key).

Section Handler.
Variable SNS_TOPIC_ARN TEXTRACT_ROLE_ARN : string.
Variable start_document_analysis : StartDocumentAnalysis -> reply.

Definition lambda_handler (event : Event) : Result * list StartDocumentAnalysis :=
  let bucket_name := bucket event in
  let object_key := key event in
  if negb (str_truthy bucket_name) || negb (str_truthy object_key) then
    ({| statusCode := 400;
        body := error_body "'bucket' and 'key' must be provided in the event." |}, [])
  else
    let bucket_name := default "" bucket_name in
    let object_key := default "" object_key in
    let job_tag := job_tag_of object_key in
    let request :=
      {| DocumentLocation_S3Object_Bucket := bucket_name;
         DocumentLocation_S3Object_Name := object_key;
         FeatureTypes := ["TABLES"; "FORMS"];
         NotificationChannel_SNSTopicArn := SNS_TOPIC_ARN;
         NotificationChannel_RoleArn := TEXTRACT_ROLE_ARN;
         JobTag := job_tag |} in
    match start_document_analysis request with
    | Response (Some job_id) =>
        ({| statusCode := 200;
            body := started_body "Textract job started successfully." job_id
                      bucket_name object_key |}, [request])
    | Response None =>
        ({| statusCode := 500; body := error_body "Error starting Textract job: 'JobId'" |},
         [request])
    | ClientError text =>
        ({| statusCode := 500; body := error_body ("Error starting Textract job: " +:+ text) |},
         [request])
    end.

End Handler.
End textract_lambda.

(** * The result processor's handler ([lambda_handler] of [src/lambda.py])

    The handler talks to three services: Textract (paged results), S3
    (uploads) and the application's webhook.  Every call is recorded in a
    trace, and the reply of a service is a function of the call and of the
    trace before it, so a service may answer the same call differently at
    different times.  Exceptions of the services are [ClientError]s with
    their text; the parsers raise the exceptions [error] above.  The
    chat completion of the restructuring step is a function of the rows it
    is asked about and is not recorded in the trace. *)

(** The keyword arguments of [get_document_analysis]; [NextToken] is passed
    only when there is one. *)
Record GetDocumentAnalysis : Type := {
  kw_JobId : string;
  kw_MaxResults : Z;
  kw_NextToken : option string
}.

(** The response dict, of which the code reads [Blocks] and [NextToken]. *)
Record AnalysisResponse : Type := {
  Blocks : option (list Block);
  NextToken : option string
}.

(** The keyword arguments of [put_object]. *)
Record PutObject : Type := {
  Bucket : string;
  Key : string;
  Body : string;
  ContentType : string
}.

(** [requests.post(url, json=..., headers=..., timeout=10)]; the payload
    sent has string values only. *)
Record Post : Type := {
  url : string;
  post_json : list (string * string);
  headers : list (string * string);
  timeout : Z
}.

Inductive Call : Type :=
  | TextractCall (kwargs : GetDocumentAnalysis)
  | S3Call (kwargs : PutObject)
  | WebhookCall (request : Post).

Inductive exception : Type :=
  | ParserError (e : error)
  | ClientError (text : string)
  | JSONDecodeError (text : string).

Inductive outcome (A : Type) : Type :=
  | Returned (a : A)
  | Raised (e : exception).
Arguments Returned {A} a.
Arguments Raised {A} e.

(** The SNS event, down to the message, which is the JSON text of a
    Textract completion notification, and the notification it encodes. *)
Record DocumentLocation_ : Type := {
  S3ObjectName : option string;
  S3Bucket : option string
}.

Record Message_ : Type := {
  JobId : option string;
  Status : option string;
  StatusMessage : option string;
  DocumentLocation : option DocumentLocation_;
  JobTag : option string
}.

Record Sns_ : Type := {
  Message : option string
}.

(** What [json.loads] makes of the text of a message: the text is no JSON
    (a [JSONDecodeError], with its text), or it is a JSON value, which is
    read as the message when it is an object ([None] otherwise, where
    indexing it raises a [TypeError]).  The values of the keys of a message
    have the types Textract gives them: strings, and an object for
    [DocumentLocation]. *)
Inductive Loaded : Type :=
  | Undecodable (text : string)
  | Decoded (message : option Message_).

Record Record_ : Type := {
  Sns : option Sns_
}.

Record SnsEvent : Type := {
  Records : option (list Record_)
}.

(** The configuration (environment variables and whether [openai] could be
    imported), the services, and the library functions the handler only
    passes values through: [json.loads] of the notification,
    [csv.writer(...).writerows], [json.dumps(..., indent=2)],
    [os.path.splitext(...)[0]] and [str(e)].  [ChatCompletion_create] is the
    chat completion for the prompt built from the rows given, parsed by
    [json.loads]; [None] when the call or the parsing raises. *)
Record Environment : Type := {
  OUTPUT_S3_BUCKET : string;
  OUTPUT_S3_PREFIX : string;
  WEBHOOK_URL : option string;
  WEBHOOK_SECRET : option string;
  AI_AVAILABLE : bool;
  OPENAI_API_KEY : option string;
  ChatCompletion_create : list (list string) -> option json;
  json_loads : string -> Loaded;
  get_document_analysis : list Call -> GetDocumentAnalysis -> outcome AnalysisResponse;
  put_object : list Call -> PutObject -> outcome unit;
  csv_getvalue : list (list string) -> string;
  json_dumps : json -> string;
  splitext_root : string -> string;
  str_exception : exception -> string
}.

(** [webhook_payload]; [errorMessage] is a key the failure paths add. *)
Record WebhookPayload : Type := {
  s3Key : string;
  textractJobId : string;
  status : option string;
  jsonS3Key : option string;
  jsonUrl : option string;
  csvS3Key : option string;
  csvUrl : option string;
  errorMessage : option string
}.

(** What the handler has changed so far: the calls it made and the payload
    it is filling in, which the [except] branch reads as the [try] block
    left it. *)
Record HandlerState : Type := {
  trace : list Call;
  webhook_payload : WebhookPayload
}.

(** A computation of the handler: [None] means that the paging loop was
    still running when the fuel ran out. *)
Definition io (A : Type) : Type := HandlerState -> option (outcome A * HandlerState).

Definition io_ret {A} (a : A) : io A := fun s => Some (Returned a, s).

Definition io_bind {A B} (m : io A) (k : A -> io B) : io B :=
  fun s =>
    match m s with
    | Some (Returned a, s') => k a s'
    | Some (Raised e, s') => Some (Raised e, s')
    | None => None
    end.

Notation "'let*' x ':=' m 'in' k" := (io_bind m (fun x => k))
  (at level 10, x pattern, m at level 100, k at level 200).

(** [try: body except Exception as e: handler] *)
Definition io_try {A} (body : io A) (handler : exception -> io A) : io A :=
  fun s =>
    match body s with
    | Some (Raised e, s') => handler e s'
    | result => result
    end.

(** A call of a service: the reply is determined by the trace so far, and
    the call is recorded. *)
Definition io_call {A} (call : Call) (service : list Call -> outcome A) : io A :=
  fun s =>
    Some (service (trace s),
          {| trace := trace s ++ [call]; webhook_payload := webhook_payload s |}).

(** A result of one of the parsers. *)
Definition io_exc {A} (m : exc A) : io A :=
  fun s =>
    match m with
    | Ok a => Some (Returned a, s)
    | Raise e => Some (Raised (ParserError e), s)
    end.

Definition io_update (f : WebhookPayload -> WebhookPayload) : io unit :=
  fun s =>
    Some (Returned tt, {| trace := trace s; webhook_payload := f (webhook_payload s) |}).

Definition io_payload : io WebhookPayload := fun s => Some (Returned (webhook_payload s), s).

(** A whole run, from the state in which nothing has been called yet: its
    result and the calls it made. *)
Definition io_run {A} (m : io A) (payload : WebhookPayload) : option (outcome A * list Call) :=
  match m {| trace := []; webhook_payload := payload |} with
  | Some (result, s) => Some (result, trace s)
  | None => None
  end.

Inductive ResponseBody : Type :=
  | error_body (error : string)
  | payload_body (payload : WebhookPayload).

Record Response : Type := {
  statusCode : Z;
  body : ResponseBody
}.

(** The payload updates of the handler. *)
Definition set_failed (error_message : string) (p : WebhookPayload) : WebhookPayload :=
  {| s3Key := s3Key p; textractJobId := textractJobId p; status := Some "failed";
     jsonS3Key := jsonS3Key p; jsonUrl := jsonUrl p; csvS3Key := csvS3Key p;
     csvUrl := csvUrl p; errorMessage := Some error_message |}.

Definition set_csv (csv_key csv_url : string) (p : WebhookPayload) : WebhookPayload :=
  {| s3Key := s3Key p; textractJobId := textractJobId p; status := status p;
     jsonS3Key := jsonS3Key p; jsonUrl := jsonUrl p; csvS3Key := Some csv_key;
     csvUrl := Some csv_url; errorMessage := errorMessage p |}.

Definition set_json (json_key json_url : string) (p : WebhookPayload) : WebhookPayload :=
  {| s3Key := s3Key p; textractJobId := textractJobId p; status := status p;
     jsonS3Key := Some json_key; jsonUrl := Some json_url; csvS3Key := csvS3Key p;
     csvUrl := csvUrl p; errorMessage := errorMessage p |}.

Definition set_processed (p : WebhookPayload) : WebhookPayload :=
  {| s3Key := s3Key p; textractJobId := textractJobId p; status := Some "processed";
     jsonS3Key := jsonS3Key p; jsonUrl := jsonUrl p; csvS3Key := csvS3Key p;
     csvUrl := csvUrl p; errorMessage := errorMessage p |}.

(** [{k: v for k, v in payload.items() if v is not None}], in the order of
    the keys of the payload. *)
Definition clean_payload (p : WebhookPayload) : list (string * string) :=
  omap (fun item => pair item.1 <$> item.2)
    [ ("s3Key", Some (s3Key p)); ("textractJobId", Some (textractJobId p));
      ("status", status p); ("jsonS3Key", jsonS3Key p); ("jsonUrl", jsonUrl p);
      ("csvS3Key", csvS3Key p); ("csvUrl", csvUrl p); ("errorMessage", errorMessage p) ].

(** The choice of the source key. *)
Definition original_s3_object_key_of (message : Message_) (job_id : string) : string :=
  let original_s3_object_key :=
    match DocumentLocation message ≫= S3ObjectName with
    | Some name => Some name
    | None => if str_truthy (JobTag message) then JobTag message else None
    end in
  if str_truthy original_s3_object_key then default "" original_s3_object_key
  else "unknown_source_file_for_job_" +:+ job_id.

Section Handler.
Variable env : Environment.

(** [AI_AVAILABLE and OPENAI_API_KEY] *)
Definition ai_enabled : bool := AI_AVAILABLE env && str_truthy (OPENAI_API_KEY env).

(** The first [try] block of the handler: the message, its [JobId] and
    [Status], and the source key.  A [KeyError], an [IndexError] or a
    [TypeError] leads to the 400 response ([None]); the [JSONDecodeError]
    of a message that is no JSON is not caught. *)
Definition parse_event (event : SnsEvent)
  : outcome (option (Message_ * string * string * string)) :=
  match records ← Records event; record ← head records; sns ← Sns record; Message sns with
  | None => Returned None
  | Some text =>
      match json_loads env text with
      | Undecodable e => Raised (JSONDecodeError e)
      | Decoded message =>
          Returned (message ← message;
                    job_id ← JobId message;
                    sns_status ← Status message;
                    Some (message, job_id, sns_status,
                          original_s3_object_key_of message job_id))
      end
  end.

(** [get_textract_results]: the [while True] loop, with the iterations left
    as fuel. *)
Fixpoint get_textract_results_loop (fuel : nat) (job_id : string)
    (next_token : option string) (results_blocks : list Block) : io (list Block) :=
  match fuel with
  | O => fun _ => None
  | S fuel =>
      let kwargs :=
        {| kw_JobId := job_id; kw_MaxResults := 1000;
           kw_NextToken := if str_truthy next_token then next_token else None |} in
      let* response :=
        io_call (TextractCall kwargs) (fun trace => get_document_analysis env trace kwargs) in
      let results_blocks := results_blocks ++ default [] (Blocks response) in
      let next_token := NextToken response in
      if str_truthy next_token
      then get_textract_results_loop fuel job_id next_token results_blocks
      else io_ret results_blocks
  end.

Definition get_textract_results (fuel : nat) (job_id : string) : io (list Block) :=
  get_textract_results_loop fuel job_id None [].

(** [_send_webhook]: whether the request succeeds or raises a
    [RequestException] makes no difference to the caller. *)
Definition _send_webhook (payload : WebhookPayload) : io unit :=
  if negb (str_truthy (WEBHOOK_URL env)) then io_ret tt
  else
    let headers :=
      [("Content-Type", "application/json")] ++
      (if str_truthy (WEBHOOK_SECRET env)
       then [("x-webhook-secret", default "" (WEBHOOK_SECRET env))] else []) in
    io_call (WebhookCall {| url := default "" (WEBHOOK_URL env);
                            post_json := clean_payload payload;
                            headers := headers;
                            timeout := 10 |})
            (fun _ => Returned tt).

(** The [try] block of the handler. *)
Definition process (fuel : nat) (job_id original_s3_object_key : string) : io Response :=
  let* blocks := get_textract_results fuel job_id in
  match blocks with
  | [] =>
      let no_content_msg := "No blocks returned from Textract for job " +:+ job_id in
      let* _ := io_update (set_failed no_content_msg) in
      let* payload := io_payload in
      let* _ := _send_webhook payload in
      io_ret {| statusCode := 200; body := payload_body payload |}
  | _ :: _ =>
      let blocks_map := mk_blocks_map blocks in
      (* [file_name_part] and [base_name] are computed and never used *)
      let clean_s3_key :=
        if String.prefix "uploads/" original_s3_object_key
        then str_drop 8 original_s3_object_key else original_s3_object_key in
      let base_s3_key_without_extension := splitext_root env clean_s3_key in
      let* csv_data_rows := io_exc (parse_tables_to_csv_data blocks_map blocks) in
      let* _ :=
        match csv_data_rows with
        | [] => io_ret tt
        | _ :: _ =>
            let csv_content := csv_getvalue env csv_data_rows in
            let csv_s3_key_val :=
              OUTPUT_S3_PREFIX env +:+ "/" +:+ base_s3_key_without_extension +:+ ".csv" in
            let kwargs :=
              {| Bucket := OUTPUT_S3_BUCKET env; Key := csv_s3_key_val; Body := csv_content;
                 ContentType := "text/csv" |} in
            let* _ := io_call (S3Call kwargs) (fun trace => put_object env trace kwargs) in
            io_update
              (set_csv csv_s3_key_val
                 ("https://" +:+ OUTPUT_S3_BUCKET env +:+ ".s3.amazonaws.com/" +:+
                  csv_s3_key_val))
        end in
      let* structured_json_data :=
        io_exc (parse_blocks_to_structured_json ai_enabled (ChatCompletion_create env)
                  blocks_map blocks original_s3_object_key job_id) in
      let json_content := json_dumps env (output_json structured_json_data) in
      let json_s3_key_val :=
        OUTPUT_S3_PREFIX env +:+ "/" +:+ base_s3_key_without_extension +:+ ".json" in
      let kwargs :=
        {| Bucket := OUTPUT_S3_BUCKET env; Key := json_s3_key_val; Body := json_content;
           ContentType := "application/json" |} in
      let* _ := io_call (S3Call kwargs) (fun trace => put_object env trace kwargs) in
      let* _ :=
        io_update
          (set_json json_s3_key_val
             ("https://" +:+ OUTPUT_S3_BUCKET env +:+ ".s3.amazonaws.com/" +:+
              json_s3_key_val)) in
      let* _ := io_update set_processed in
      let* payload := io_payload in
      let* _ := _send_webhook payload in
      io_ret {| statusCode := 200; body := payload_body payload |}
  end.

(** The [except Exception] branch of the handler. *)
Definition process_failed (job_id : string) (e : exception) : io Response :=
  let processing_error_msg :=
    "Error during Lambda processing for job " +:+ job_id +:+ ": " +:+ str_exception env e in
  let* _ := io_update (set_failed processing_error_msg) in
  let* payload := io_payload in
  let* _ := _send_webhook payload in
  io_ret {| statusCode := 500; body := payload_body payload |}.

(** The handler: its response and the calls it made. *)
Definition lambda_handler (fuel : nat) (event : SnsEvent)
  : option (outcome Response * list Call) :=
  match parse_event event with
  | Raised e => Some (Raised e, [])
  | Returned None =>
      Some (Returned {| statusCode := 400; body := error_body "Invalid SNS message format" |},
            [])
  | Returned (Some (message, job_id, sns_status, original_s3_object_key)) =>
      let webhook_payload :=
        {| s3Key := original_s3_object_key; textractJobId := job_id; status := None;
           jsonS3Key := None; jsonUrl := None; csvS3Key := None; csvUrl := None;
           errorMessage := None |} in
      io_run
        (if negb (String.eqb sns_status "SUCCEEDED") then
           let error_msg_from_sns :=
             default "Textract job failed (reason not specified in SNS)."
                     (StatusMessage message) in
           let* _ := io_update (set_failed error_msg_from_sns) in
           let* payload := io_payload in
           let* _ := _send_webhook payload in
           io_ret {| statusCode := 200; body := payload_body payload |}
         else
           io_try (process fuel job_id original_s3_object_key) (process_failed job_id))
        webhook_payload
  end.

End Handler.

(** * Vocabulary of the further properties *)

(** The words of a row that fall in column [c], in row order, and the text
    and confidence their cell gets. *)
Definition column_group (column_ranges : list ColumnRange) (c : nat)
    (row_words : list SpatialWord) : list SpatialWord :=
  List.filter (fun word => Nat.eqb (get_column_index column_ranges word) c) row_words.

Definition group_text (group : list SpatialWord) : string :=
  match group with
  | [] => ""
  | _ :: _ => strip (join " " (map sw_text (sort_key sw_left group)))
  end.

Definition group_confidence (group : list SpatialWord) : Q :=
  match group with
  | [] => 0%Q
  | _ :: _ =>
      round2 (Qsum (map sw_confidence (sort_key sw_left group)) / Qlen (sort_key sw_left group))
  end.

(** [column_words] after the words [seen]: one entry per column met, holding
    the words of that column in the order met. *)
Definition grouped (column_ranges : list ColumnRange)
    (column_words : list (nat * list SpatialWord)) (seen : list SpatialWord) : Prop :=
  NoDup column_words.*1 /\
  forall c, dict_get c column_words =
            match column_group column_ranges c seen with
            | [] => None
            | (_ :: _) as group => Some group
            end.

(** The position of the first row that [rows[start:]] keeps, for a list of
    [row_count] rows: a negative [start] counts from the end and stops at
    the first row. *)
Definition first_data_row (start : Z) (row_count : nat) : nat :=
  Z.to_nat (if (start <? 0)%Z then Z.of_nat row_count + start else start).

Definition table_id_of (table : TableData + RestructuredTable) : string :=
  match table with
  | inl table_data => tableId table_data
  | inr restructured_table => r_tableId restructured_table
  end.

Definition table_confidence_of (table : TableData + RestructuredTable) : option Q :=
  match table with
  | inl table_data => table_confidence table_data
  | inr restructured_table => r_table_confidence restructured_table
  end.

(** The confidences of the cells of a table of the record. *)
Definition cell_confidences_of (table : TableData + RestructuredTable) : list Q :=
  match table with
  | inl table_data => map cell_confidence (flat_map row_cells (table_rows table_data))
  | inr restructured_table =>
      map r_confidence (flat_map r_cells (r_rows restructured_table))
  end.

(** A table of the record, restructured or not, whose cells all have a
    rounded confidence and whose own confidence is the one of its TABLE
    block, as it came. *)
Definition record_table_ok (blocks : list Block) (table : TableData + RestructuredTable)
  : Prop :=
  (exists table_block, table_block ∈ blocks /\ table_id_of table = Id table_block /\
                       table_confidence_of table = Confidence table_block) /\
  Forall two_decimals (cell_confidences_of table).

(** What one table contributes to the structured record: its spatial
    grid, else its structural grid, or nothing when it is skipped. *)
Definition json_table_body (blocks_map : gmap string Block) (table : Block)
  : exc (option TableData) :=
  match reconstruct_table_structure_spatially blocks_map table with
  | Some spatial_table => Ok (Some (spatial_table_data table spatial_table))
  | None => structural_table_data blocks_map table
  end.

(** The text of the last of [cells] declared at row [i], column [j]; empty
    when no cell is declared there. *)
Definition text_declared_at (blocks_map : gmap string Block) (cells : list Block) (i j : Z)
  : string :=
  fold_left
    (fun text cell =>
       if decide (RowIndex cell = Some i /\ ColumnIndex cell = Some j)
       then resolved_text blocks_map cell else text)
    cells "".

(** The record of the last of [cells] declared at row [r], column [c], as
    the structural builder of the JSON path makes it. *)
Definition cell_declared_at (blocks_map : gmap string Block) (cells : list Block) (r c : Z)
  : option CellInfo :=
  fold_left
    (fun found cell =>
       if decide (RowIndex cell = Some r /\ ColumnIndex cell = Some c)
       then Some {| cellId := Id cell;
                    cell_rowIndex := r;
                    columnIndex := c;
                    rowSpan := default 1%Z (RowSpan cell);
                    columnSpan := default 1%Z (ColumnSpan cell);
                    cell_text := resolved_text blocks_map cell;
                    cell_confidence :=
                      round2 (default 0%Q
                                (py_min (contributing_confidences blocks_map cell)));
                    cell_geometry := Geometry cell;
                    cell_spatiallyReconstructed := false |}
       else found)
    cells None.

(** The structural builder in the words of its contract.  What the
    resolver makes of a block, the last row and column a cell covers, the
    greatest of these over the cells of a table (0 with no cell), the last
    of the cells declared at a position and the last of them whose span is
    not empty, and the record of a cell in the structured output. *)
Definition resolved (blocks_map : gmap string Block) (block : Block) : string * Q :=
  match get_text_and_confidence_from_block blocks_map block with
  | Ok result => result
  | Raise _ => ("", 0%Q)
  end.

Definition last_row (cell : Block) : Z :=
  (default 0 (RowIndex cell) + default 1 (RowSpan cell) - 1)%Z.

Definition last_column (cell : Block) : Z :=
  (default 0 (ColumnIndex cell) + default 1 (ColumnSpan cell) - 1)%Z.

Definition greatest (extent : Block -> Z) (cells : list Block) : Z :=
  foldr Z.max 0%Z (map extent cells).

Definition declared_at (r c : Z) (cell : Block) : bool :=
  bool_decide (RowIndex cell = Some r /\ ColumnIndex cell = Some c).

Definition span_not_empty (cell : Block) : bool :=
  (0 <? default 1 (RowSpan cell))%Z && (0 <? default 1 (ColumnSpan cell))%Z.

Definition last_declared (cells : list Block) (r c : Z) : option Block :=
  last (List.filter (declared_at r c) cells).

Definition last_written (cells : list Block) (r c : Z) : option Block :=
  last (List.filter (fun cell => declared_at r c cell && span_not_empty cell) cells).

Definition cell_record (blocks_map : gmap string Block) (cell : Block) : CellInfo :=
  {| cellId := Id cell;
     cell_rowIndex := default 0%Z (RowIndex cell);
     columnIndex := default 0%Z (ColumnIndex cell);
     rowSpan := default 1%Z (RowSpan cell);
     columnSpan := default 1%Z (ColumnSpan cell);
     cell_text := (resolved blocks_map cell).1;
     cell_confidence := round2 (resolved blocks_map cell).2;
     cell_geometry := Geometry cell;
     cell_spatiallyReconstructed := false |}.

(** The cells a table record lists, row by row. *)
Definition listed_cells (table_data : TableData) : list CellInfo :=
  flat_map row_cells (table_rows table_data).

(** ** Vocabulary of the handler's properties *)

(** The text of the message of the first record of an event, when it has
    one. *)
Definition message_text (event : SnsEvent) : option string :=
  records ← Records event; record ← head records; sns ← Sns record; Message sns.

Definition page_request (job_id : string) (next_token : option string) : GetDocumentAnalysis :=
  {| kw_JobId := job_id; kw_MaxResults := 1000; kw_NextToken := next_token |}.

(** After [trace], Textract answers the paging requests for [job_id] that
    start at [next_token] with [pages] in turn, each of which announces a
    further page by a non-empty token, and then with [last]. *)
Fixpoint replies (env : Environment) (job_id : string) (trace : list Call)
    (next_token : option string) (pages : list AnalysisResponse)
    (last : outcome AnalysisResponse) : Prop :=
  match pages with
  | [] => get_document_analysis env trace (page_request job_id next_token) = last
  | page :: rest =>
      get_document_analysis env trace (page_request job_id next_token) = Returned page /\
      str_truthy (NextToken page) = true /\
      replies env job_id (trace ++ [TextractCall (page_request job_id next_token)])
        (NextToken page) rest last
  end.

(** The requests that fetch [pages] and one more page. *)
Fixpoint page_requests (job_id : string) (next_token : option string)
    (pages : list AnalysisResponse) : list Call :=
  TextractCall (page_request job_id next_token) ::
  match pages with
  | [] => []
  | page :: rest => page_requests job_id (NextToken page) rest
  end.

Definition blocks_of (page : AnalysisResponse) : list Block := default [] (Blocks page).

(** The request that reports [payload], when a webhook is configured. *)
Definition webhook_calls (env : Environment) (payload : WebhookPayload) : list Call :=
  if str_truthy (WEBHOOK_URL env) then
    [WebhookCall
       {| url := default "" (WEBHOOK_URL env);
          post_json := clean_payload payload;
          headers :=
            [("Content-Type", "application/json")] ++
            (if str_truthy (WEBHOOK_SECRET env)
             then [("x-webhook-secret", default "" (WEBHOOK_SECRET env))] else []);
          timeout := 10 |}]
  else [].

Definition is_webhook_call (call : Call) : bool :=
  match call with
  | WebhookCall _ => true
  | _ => false
  end.

Definition is_textract_call (call : Call) : bool :=
  match call with
  | TextractCall _ => true
  | _ => false
  end.

(** Among [calls] there is a [put_object] with these arguments, and it
    succeeded. *)
Definition uploaded (env : Environment) (calls : list Call) (kwargs : PutObject) : Prop :=
  exists before after,
    calls = before ++ S3Call kwargs :: after /\ put_object env before kwargs = Returned tt.

Definition object_url (env : Environment) (object_key : string) : string :=
  "https://" +:+ OUTPUT_S3_BUCKET env +:+ ".s3.amazonaws.com/" +:+ object_key.

(** The payload the handler starts from. *)
Definition initial_payload (original_s3_object_key job_id : string) : WebhookPayload :=
  {| s3Key := original_s3_object_key; textractJobId := job_id; status := None;
     jsonS3Key := None; jsonUrl := None; csvS3Key := None; csvUrl := None;
     errorMessage := None |}.

(** What holds of every response the handler gives for a notification it
    could read, and of the calls it made: the response carries the payload,
    the payload was reported last and once, it is either processed or
    failed, and the objects it names were uploaded. *)
Definition handler_invariant (env : Environment) (original_s3_object_key job_id : string)
    (response : Response) (calls : list Call) : Prop :=
  exists payload service_calls,
    body response = payload_body payload /\
    calls = service_calls ++ webhook_calls env payload /\
    Forall (fun call => is_webhook_call call = false) service_calls /\
    s3Key payload = original_s3_object_key /\ textractJobId payload = job_id /\
    (statusCode response = 200%Z /\ status payload = Some "processed" /\
     errorMessage payload = None /\ is_Some (jsonS3Key payload) \/
     (statusCode response = 200%Z \/ statusCode response = 500%Z) /\
     status payload = Some "failed" /\ is_Some (errorMessage payload) /\
     jsonS3Key payload = None) /\
    (forall csv_key, csvS3Key payload = Some csv_key ->
       csvUrl payload = Some (object_url env csv_key) /\
       exists content,
         uploaded env calls {| Bucket := OUTPUT_S3_BUCKET env; Key := csv_key; Body := content;
                               ContentType := "text/csv" |}) /\
    (forall json_key, jsonS3Key payload = Some json_key ->
       jsonUrl payload = Some (object_url env json_key) /\
       exists content,
         uploaded env calls {| Bucket := OUTPUT_S3_BUCKET env; Key := json_key; Body := content;
                               ContentType := "application/json" |}).

(** The object keys and uploads of the handler, in terms of the source key. *)
Definition output_base (env : Environment) (original_s3_object_key : string) : string :=
  splitext_root env
    (if String.prefix "uploads/" original_s3_object_key
     then str_drop 8 original_s3_object_key else original_s3_object_key).

Definition csv_upload (env : Environment) (original_s3_object_key : string)
    (csv_data_rows : list (list string)) : PutObject :=
  {| Bucket := OUTPUT_S3_BUCKET env;
     Key := OUTPUT_S3_PREFIX env +:+ "/" +:+ output_base env original_s3_object_key +:+ ".csv";
     Body := csv_getvalue env csv_data_rows;
     ContentType := "text/csv" |}.

Definition json_upload (env : Environment) (original_s3_object_key : string)
    (structured_json_data : OutputJson) : PutObject :=
  {| Bucket := OUTPUT_S3_BUCKET env;
     Key := OUTPUT_S3_PREFIX env +:+ "/" +:+ output_base env original_s3_object_key +:+ ".json";
     Body := json_dumps env (output_json structured_json_data);
     ContentType := "application/json" |}.

(** The payload after the CSV step: the CSV object is named when there were
    rows to write. *)
Definition payload_after_csv (env : Environment) (original_s3_object_key job_id : string)
    (csv_data_rows : list (list string)) : WebhookPayload :=
  match csv_data_rows with
  | [] => initial_payload original_s3_object_key job_id
  | _ :: _ =>
      set_csv (Key (csv_upload env original_s3_object_key csv_data_rows))
        (object_url env (Key (csv_upload env original_s3_object_key csv_data_rows)))
        (initial_payload original_s3_object_key job_id)
  end.

Definition csv_calls (env : Environment) (original_s3_object_key : string)
    (csv_data_rows : list (list string)) : list Call :=
  match csv_data_rows with
  | [] => []
  | _ :: _ => [S3Call (csv_upload env original_s3_object_key csv_data_rows)]
  end.

Definition processing_error (env : Environment) (job_id : string) (e : exception) : string :=
  "Error during Lambda processing for job " +:+ job_id +:+ ": " +:+ str_exception env e.

(** * Further sample inputs *)

(** A document with the 2×2 table, the two form fields and a line, and a
    chat completion that names four columns, one more than the grid has,
    and lets the data start at the second row. *)
Definition record_blocks : list Block :=
  grid_blocks ++ form_blocks ++
  [ line_block "l1" "first line" 99 ["x1"; "x2"];
    word_block "x1" "first" 99 None;
    word_block "x2" "line" 96 None ].

Definition grid_chat (analysis_data : list (list string)) : option json :=
  Some (JDict [ ("consolidated_headers",
                 JList [JStr "Item"; JStr ""; JStr "Price"; JStr "Note"]);
                ("data_start_row", JInt 1) ]).

(** A table of one cell holding one word an eighth of the page wide. *)
Definition one_word_blocks : list Block :=
  [ cell_block "sc" (Some 1%Z) (Some 1%Z) None None ["sw"];
    word_block "sw" " Total " 98 (box 0.25 0.25 0.125 0.03125) ].

(** A merged heading over two columns, declared before the cells it covers. *)
Definition heading_blocks : list Block :=
  [ table_block "ht" 90 ["h0"; "h1"; "h2"];
    cell_block "h0" (Some 1%Z) (Some 1%Z) (Some 2%Z) (Some 2%Z) ["hw0"];
    cell_block "h1" (Some 1%Z) (Some 2%Z) None None ["hw1"];
    cell_block "h2" (Some 2%Z) (Some 1%Z) None None ["hw2"];
    word_block "hw0" "Totals" 99 None;
    word_block "hw1" "2024" 98 None;
    word_block "hw2" "net" 97 None ].

(** A table of the structured output with a two-row header and two data
    rows, the second of which lacks its last cell; and an analysis of it. *)
Definition out_cell (id : string) (r c : Z) (text : string) (confidence : Q) : CellInfo :=
  {| cellId := id; cell_rowIndex := r; columnIndex := c; rowSpan := 1; columnSpan := 1;
     cell_text := text; cell_confidence := confidence; cell_geometry := None;
     cell_spatiallyReconstructed := false |}.

Definition ledger_table : TableData :=
  {| tableId := "ledger"; pageNumber := Some 1%Z; table_confidence := Some 97.5%Q;
     rowCount := 4; columnCount := 3; spatiallyReconstructed := false;
     table_rows :=
       [ {| rowIndex := 1;
            row_cells := [out_cell "a1" 1 1 "Posting" 99; out_cell "a2" 1 2 "Amount" 99] |};
         {| rowIndex := 2;
            row_cells := [out_cell "b1" 2 1 "date" 98; out_cell "b2" 2 2 "(net)" 98;
                          out_cell "b3" 2 3 "Note" 98] |};
         {| rowIndex := 3;
            row_cells := [out_cell "c1" 3 1 "01/02" 96; out_cell "c2" 3 2 "12.50" 95;
                          out_cell "c3" 3 3 "paid" 94] |};
         {| rowIndex := 4;
            row_cells := [out_cell "d1" 4 1 "01/03" 93; out_cell "d2" 4 2 "7.25" 92] |} ] |}.

Definition ledger_analysis : list (string * json) :=
  [ ("header_row_indices", JList [JInt 0; JInt 1]);
    ("consolidated_headers", JList [JStr "Posting date"; JStr "Amount (net)"; JStr "Note"]);
    ("data_start_row", JInt 2) ].

Definition ledger_chat (analysis_data : list (list string)) : option json :=
  Some (JDict ledger_analysis).

Definition sample_message (sns_status : string) : Message_ :=
  {| JobId := Some "job-1"; Status := Some sns_status; StatusMessage := None;
     DocumentLocation :=
       Some {| S3ObjectName := Some "uploads/docs/a.pdf"; S3Bucket := Some "incoming" |};
     JobTag := Some "uploads--docs--a.pdf" |}.

(** Sample services: a Textract that serves [lines_blocks] in two pages or,
    when [endless], keeps announcing a further page; an S3 that accepts
    every object or, when [strict], refuses JSON objects.  The library
    functions are stand-ins. *)
Definition sample_env (endless strict : bool) : Environment :=
  {| OUTPUT_S3_BUCKET := "results";
     OUTPUT_S3_PREFIX := "processed";
     WEBHOOK_URL := Some "https://app.example/hook";
     WEBHOOK_SECRET := Some "s3cret";
     AI_AVAILABLE := true;
     OPENAI_API_KEY := None;
     ChatCompletion_create := fun _ => None;
     json_loads := fun text =>
       if String.prefix "{" text then Decoded (Some (sample_message (str_drop 1 text)))
       else Undecodable "Expecting value: line 1 column 1 (char 0)";
     get_document_analysis := fun _ kwargs =>
       match kw_NextToken kwargs with
       | None => Returned {| Blocks := Some (take 3 lines_blocks); NextToken := Some "page-2" |}
       | Some _ =>
           Returned {| Blocks := Some (drop 3 lines_blocks);
                       NextToken := if endless then Some "page-2" else None |}
       end;
     put_object := fun _ kwargs =>
       if strict && String.eqb (ContentType kwargs) "application/json"
       then Raised (ClientError "AccessDenied") else Returned tt;
     csv_getvalue := fun rows => join ";" (map (join ",") rows);
     json_dumps := fun _ => "{}";
     splitext_root := fun path => str_take (str_len path - 4) path;
     str_exception := fun e =>
       match e with
       | ClientError text => text
       | ParserError _ => "parser error"
       | JSONDecodeError text => text
       end |}.

Definition sample_event (sns_status : string) : SnsEvent :=
  {| Records := Some [ {| Sns := Some {| Message := Some ("{" +:+ sns_status) |} |} ] |}.

(** A notification whose message is no JSON. *)
Definition garbled_event : SnsEvent :=
  {| Records := Some [ {| Sns := Some {| Message := Some "not json" |} |} ] |}.

(** * Properties *)

(** ** The error monad and loops *)

Lemma bind_Ok {A B} (f : A -> exc B) (a : A) : (Ok a ≫= f) = f a.
Proof. reflexivity. Qed.

Lemma bind_Raise {A B} (f : A -> exc B) (e : error) : (Raise e ≫= f) = Raise e.
Proof. reflexivity. Qed.

Lemma bind_Ok_inv {A B} (f : A -> exc B) (m : exc A) (b : B) :
  (m ≫= f) = Ok b -> exists a, m = Ok a /\ f a = Ok b.
Proof. destruct m as [a|e]; simpl; [eauto | discriminate]. Qed.

Lemma for_each_cons {A S} (body : S -> A -> exc S) (x : A) (l : list A) (s : S) :
  for_each body (x :: l) s = (body s x ≫= for_each body l).
Proof. reflexivity. Qed.

Lemma for_each_app {A S} (body : S -> A -> exc S) (l1 l2 : list A) (s : S) :
  for_each body (l1 ++ l2) s = (for_each body l1 s ≫= for_each body l2).
Proof.
  revert s; induction l1 as [|x l1 IH]; intros s; simpl; [reflexivity|].
  destruct (body s x) as [s'|e]; simpl; [apply IH | reflexivity].
Qed.

(** A loop invariant for [for_each]: what holds before the loop and is kept
    by every iteration that returns holds when the loop returns. *)
Lemma for_each_invariant {A S} (Inv : S -> Prop) (body : S -> A -> exc S) (l : list A) :
  (forall s x s', x ∈ l -> Inv s -> body s x = Ok s' -> Inv s') ->
  forall s s', Inv s -> for_each body l s = Ok s' -> Inv s'.
Proof.
  induction l as [|x l IH]; intros Hbody s s' Hs Hrun; simpl in Hrun.
  - congruence.
  - apply bind_Ok_inv in Hrun as (s1 & H1 & H2).
    eapply IH; [| |exact H2].
    + intros; eapply Hbody; eauto; by right.
    + eapply Hbody; eauto; by left.
Qed.

(** A loop whose iterations all return returns. *)
Lemma for_each_total {A S} (Inv : S -> Prop) (body : S -> A -> exc S) (l : list A) :
  (forall s x, x ∈ l -> Inv s -> exists s', body s x = Ok s' /\ Inv s') ->
  forall s, Inv s -> exists s', for_each body l s = Ok s' /\ Inv s'.
Proof.
  induction l as [|x l IH]; intros Hbody s Hs; simpl.
  - eauto.
  - destruct (Hbody s x) as (s1 & -> & Hs1); [by left | done |]. simpl.
    apply IH; [|done]. intros; apply Hbody; [by right | done].
Qed.

Lemma fold_left_invariant {A S} (Inv : S -> Prop) (f : S -> A -> S) (l : list A) :
  (forall s x, x ∈ l -> Inv s -> Inv (f s x)) ->
  forall s, Inv s -> Inv (fold_left f l s).
Proof.
  induction l as [|x l IH]; intros Hf s Hs; simpl; [done|].
  apply IH; [|apply Hf; [by left | done]].
  intros; apply Hf; [by right | done].
Qed.

(** ** Column assignment stays inside the column ranges *)

Section ColumnIndexFacts.
Variable column_ranges : list ColumnRange.

Lemma containing_range_bound (c : Q) (ranges : list ColumnRange) (i j : nat) :
  containing_range c ranges i = Some j -> i <= j < i + length ranges.
Proof.
  revert i; induction ranges as [|r ranges IH]; intros i; simpl; [discriminate|].
  destruct (Qleb (cr_start r) c && Qleb c (cr_end r)).
  - intros [= <-]; lia.
  - intros H%IH; lia.
Qed.

Lemma closest_step_bound (c : Q) (n : nat) (st : nat * option Q) (ir : nat * ColumnRange) :
  st.1 < n -> ir.1 < n -> (closest_step c st ir).1 < n.
Proof.
  destruct st as [k d], ir as [i r]; simpl; intros Hk Hi.
  destruct d as [d|]; [destruct (Qltb _ d)|]; simpl; lia.
Qed.

Lemma closest_fold_bound (c : Q) (st : nat * option Q) :
  st.1 < length column_ranges ->
  (fold_left (closest_step c) (imap pair column_ranges) st).1 < length column_ranges.
Proof.
  intros Hst. apply (fold_left_invariant (fun st => st.1 < length column_ranges)); [|done].
  intros s [i r] Hin Hs. apply closest_step_bound; [done|]. simpl.
  apply elem_of_lookup_imap in Hin as (i' & r' & [= -> ->] & Hlook).
  by apply lookup_lt_Some in Hlook.
Qed.

Lemma get_column_index_bound (word : SpatialWord) :
  column_ranges <> [] -> get_column_index column_ranges word < length column_ranges.
Proof.
  intros Hne. unfold get_column_index.
  destruct (containing_range _ _ 0) as [i|] eqn:Hc.
  - apply containing_range_bound in Hc; lia.
  - apply closest_fold_bound; simpl. destruct column_ranges; [done | simpl; lia].
Qed.

(** The keys of [column_words] are the column indices of the words grouped
    so far, and every such word sits in the group of its column. *)
Lemma dict_get_set {V} (k k' : nat) (v : V) (d : list (nat * V)) :
  is_Some (dict_get k d) ->
  dict_get k' (dict_set k v d) = if decide (k' = k) then Some v else dict_get k' d.
Proof.
  induction d as [|[k0 v0] d IH]; simpl; intros Hk; [by destruct Hk|].
  destruct (decide (k = k0)) as [->|Hne]; simpl.
  - destruct (decide (k' = k0)); done.
  - destruct (decide (k' = k0)) as [->|]; [by rewrite decide_False|]. by apply IH.
Qed.

Lemma dict_get_app_new {V} (k k' : nat) (v : V) (d : list (nat * V)) :
  dict_get k d = None ->
  dict_get k' (d ++ [(k, v)]) = if decide (k' = k) then Some v else dict_get k' d.
Proof.
  induction d as [|[k0 v0] d IH]; simpl; intros Hk.
  - destruct (decide (k' = k)); done.
  - destruct (decide (k = k0)) as [->|Hne]; [done|].
    destruct (decide (k' = k0)) as [->|]; [by rewrite decide_False|]. by apply IH.
Qed.

Lemma dict_set_keys {V} (k : nat) (v : V) (d : list (nat * V)) :
  is_Some (dict_get k d) -> (dict_set k v d).*1 = d.*1.
Proof.
  induction d as [|[k0 v0] d IH]; cbn [dict_get dict_set]; intros Hk; [by destruct Hk|].
  destruct (decide (k = k0)) as [->|Hne]; [done|].
  rewrite !fmap_cons. f_equal. by apply IH.
Qed.

Lemma group_step_keys (column_words : list (nat * list SpatialWord)) (word : SpatialWord) :
  Forall (fun k => k < length column_ranges) column_words.*1 ->
  column_ranges <> [] ->
  Forall (fun k => k < length column_ranges) (group_step column_ranges column_words word).*1.
Proof.
  intros Hall Hne. unfold group_step.
  destruct (dict_get _ column_words) as [ws|] eqn:Hget.
  - by rewrite dict_set_keys.
  - rewrite fmap_app. apply Forall_app; split; [done|].
    repeat constructor. by apply get_column_index_bound.
Qed.



End ColumnIndexFacts.




(** ** Every row of a reconstructed grid has the same number of cells *)

Lemma combine_step_lengths (column_ranges : list ColumnRange) (n : nat)
    (st : list string * list Q) (entry : nat * list SpatialWord) :
  length st.1 = n /\ length st.2 = n ->
  length (combine_step st entry).1 = n /\ length (combine_step st entry).2 = n.
Proof.
  destruct st as [row_cells row_confidences], entry as [col_idx words]; simpl.
  intros [H1 H2]. destruct (col_idx <? length row_cells)%nat; simpl.
  - by rewrite !length_insert.
  - done.
Qed.

Lemma build_row_length (column_ranges : list ColumnRange) (row_idx : nat)
    (row_words : list SpatialWord) :
  length (cells (build_row column_ranges row_idx row_words)) = length column_ranges.
Proof.
  unfold build_row.
  pose proof (fold_left_invariant
    (fun st : list string * list Q =>
       length st.1 = length column_ranges /\ length st.2 = length column_ranges)
    combine_step (fold_left (group_step column_ranges) row_words [])) as Hinv.
  specialize (Hinv (fun s x _ Hs => combine_step_lengths column_ranges _ s x Hs)
                   (replicate (length column_ranges) "", replicate (length column_ranges) 0%Q)).
  destruct (fold_left combine_step _ _) as [row_cells row_confidences]; simpl in *.
  rewrite length_imap. apply Hinv. by rewrite !length_replicate.
Qed.

Lemma build_row_index (column_ranges : list ColumnRange) (row_idx : nat)
    (row_words : list SpatialWord) :
  row_index (build_row column_ranges row_idx row_words) = (Z.of_nat row_idx + 1)%Z.
Proof.
  unfold build_row. by destruct (fold_left combine_step _ _).
Qed.

Lemma mk_column_ranges_length (column_boundaries : list Q) :
  length (mk_column_ranges column_boundaries) = length column_boundaries - 1.
Proof.
  induction column_boundaries as [|b [|b' rest] IH]; simpl in *; [done | done |].
  rewrite IH. lia.
Qed.

(** The shape of every grid the spatial reconstruction returns. *)
Lemma reconstruct_from_spatial_words_shape (table_block : Block)
    (spatial_words : list SpatialWord) (st : SpatialTable) :
  reconstruct_from_spatial_words table_block spatial_words = Some st ->
  1 <= row_count st /\ 1 <= column_count st /\
  length (rows st) = row_count st /\
  Forall (fun row => length (cells row) = column_count st) (rows st) /\
  (forall i row, rows st !! i = Some row -> row_index row = (Z.of_nat i + 1)%Z).
Proof.
  unfold reconstruct_from_spatial_words.
  destruct (length (cluster_rows _ _) <? 1)%nat eqn:Hrows; [discriminate|].
  destruct (length (sort_key id _) <? 2)%nat eqn:Hcols; [discriminate|].
  intros [= <-]; simpl.
  apply Nat.ltb_ge in Hrows, Hcols.
  rewrite length_imap, length_map, mk_column_ranges_length.
  repeat split; [lia | lia | |].
  - apply Forall_forall. intros row Hin.
    apply elem_of_lookup_imap in Hin as (i & ws & -> & _).
    by rewrite build_row_length, mk_column_ranges_length.
  - intros i row Hlook. rewrite list_lookup_imap in Hlook.
    destruct (_ !! i) as [ws|]; [|discriminate]. injection Hlook as <-.
    apply build_row_index.
Qed.

Lemma reconstruct_spatially_shape (blocks_map : gmap string Block) (table_block : Block)
    (st : SpatialTable) :
  reconstruct_table_structure_spatially blocks_map table_block = Some st ->
  1 <= row_count st /\ 1 <= column_count st /\
  length (rows st) = row_count st /\
  Forall (fun row => length (cells row) = column_count st) (rows st) /\
  (forall i row, rows st !! i = Some row -> row_index row = (Z.of_nat i + 1)%Z).
Proof.
  unfold reconstruct_table_structure_spatially, spatial_body.
  destruct (table_word_blocks _ _) as [word_blocks|e]; simpl; [|discriminate].
  unfold reconstruct_from_words.
  destruct word_blocks; [discriminate|].
  destruct (omap _ _) eqn:Hw; [discriminate|].
  apply reconstruct_from_spatial_words_shape.
Qed.

(** ** The structural builder: what one cell writes *)


Lemma fold_left_nested {A B S} (f : S -> A * B -> S) (la : list A) (lb : list B) (s : S) :
  fold_left (fun s a => fold_left (fun s b => f s (a, b)) lb s) la s =
  fold_left f (flat_map (fun a => map (fun b => (a, b)) lb) la) s.
Proof.
  revert s; induction la as [|a la IH]; intros s; simpl; [done|].
  rewrite fold_left_app, IH. f_equal.
  clear IH. revert s. induction lb as [|b lb IHb]; intros s; simpl; [done | apply IHb].
Qed.

Lemma write_span_offsets (row_idx col_idx row_span col_span : Z) (cell_text : string)
    (tcm : gmap (Z * Z) string) :
  write_span row_idx col_idx row_span col_span cell_text tcm =
  fold_left (write_one row_idx col_idx cell_text) (span_offsets row_span col_span) tcm.
Proof.
  unfold write_span, span_offsets.
  by rewrite <- (fold_left_nested (write_one row_idx col_idx cell_text)).
Qed.

Lemma elem_of_span_offsets (row_span col_span : Z) (p : Z * Z) :
  p ∈ span_offsets row_span col_span <->
  (0 <= p.1 < row_span)%Z /\ (0 <= p.2 < col_span)%Z.
Proof.
  unfold span_offsets. rewrite list_elem_of_In, in_flat_map. split.
  - intros (a & Ha & Hp). apply in_map_iff in Hp as (b & <- & Hb).
    apply list_elem_of_In, elem_of_seqZ in Ha, Hb. simpl. lia.
  - intros [H1 H2]. exists p.1. split.
    + apply list_elem_of_In, elem_of_seqZ. lia.
    + apply in_map_iff. exists p.2. split; [by destruct p|].
      apply list_elem_of_In, elem_of_seqZ. lia.
Qed.

Lemma NoDup_span_offsets (row_span col_span : Z) : NoDup (span_offsets row_span col_span).
Proof.
  unfold span_offsets.
  generalize (NoDup_seqZ 0 row_span).
  generalize (seqZ 0 row_span) as rs. induction rs as [|a rs IH]; intros Hnd; simpl.
  - constructor.
  - apply NoDup_cons in Hnd as [Ha Hrs]. apply NoDup_app. split; [|split].
    + apply NoDup_fmap_2; [|apply NoDup_seqZ]. intros x y [=]; done.
    + intros p Hp Hp'. apply list_elem_of_fmap in Hp as (b & -> & _).
      apply list_elem_of_In, in_flat_map in Hp' as (a' & Ha' & Hp').
      apply in_map_iff in Hp' as (b' & [= <- _] & _).
      by apply list_elem_of_In in Ha'.
    + by apply IH.
Qed.

Section WriteSpan.
Variables (row_idx col_idx : Z) (cell_text : string).
Local Abbreviation pos := (position row_idx col_idx).
Local Abbreviation wr := (written row_idx col_idx cell_text).

Lemma position_inj (p q : Z * Z) : pos p = pos q -> p = q.
Proof. destruct p, q; unfold position; simpl; intros [=]; f_equal; lia. Qed.

Lemma write_one_lookup (tcm : gmap (Z * Z) string) (offset : Z * Z) (k : Z * Z) :
  write_one row_idx col_idx cell_text tcm offset !! k =
  if decide (k = pos offset) then Some (wr tcm offset) else tcm !! k.
Proof.
  unfold write_one, written, position.
  destruct ((offset.1 =? 0)%Z && (offset.2 =? 0)%Z); rewrite lookup_insert;
    repeat case_decide; congruence.
Qed.

Lemma write_offsets_lookup (offsets : list (Z * Z)) (tcm0 : gmap (Z * Z) string) :
  NoDup offsets ->
  forall tcm, (forall p, p ∈ offsets -> tcm !! pos p = tcm0 !! pos p) ->
  let result := fold_left (write_one row_idx col_idx cell_text) offsets tcm in
  (forall p, p ∈ offsets -> result !! pos p = Some (wr tcm0 p)) /\
  (forall k, (forall p, p ∈ offsets -> pos p <> k) -> result !! k = tcm !! k).
Proof.
  induction offsets as [|p offsets IH]; intros Hnd tcm Hsame; simpl.
  - split; [intros p Hp; by apply elem_of_nil in Hp | done].
  - apply NoDup_cons in Hnd as [Hp Hnd].
    destruct (IH Hnd (write_one row_idx col_idx cell_text tcm p)) as [IH1 IH2].
    { intros q Hq. rewrite write_one_lookup, decide_False.
      - apply Hsame. by right.
      - intros Heq%position_inj. congruence. }
    split.
    + intros q Hq. apply elem_of_cons in Hq as [->|Hq]; [|by apply IH1].
      rewrite IH2.
      * rewrite write_one_lookup, decide_True by done.
        unfold written. by rewrite Hsame by (by left).
      * intros q Hq Heq%position_inj. congruence.
    + intros k Hk. rewrite IH2.
      * rewrite write_one_lookup, decide_False; [done|].
        intros ->. eapply Hk; [by left | done].
      * intros q Hq. apply Hk. by right.
Qed.

(** What the span loops leave at every position of [table_cells_map]. *)
Lemma write_span_lookup (row_span col_span : Z) (tcm : gmap (Z * Z) string) (i j : Z) :
  write_span row_idx col_idx row_span col_span cell_text tcm !! (i, j) =
  if decide ((row_idx <= i < row_idx + row_span)%Z /\ (col_idx <= j < col_idx + col_span)%Z)
  then Some (if decide (i = row_idx /\ j = col_idx) then cell_text
             else default "" (tcm !! (i, j)))
  else tcm !! (i, j).
Proof.
  rewrite write_span_offsets.
  destruct (write_offsets_lookup (span_offsets row_span col_span) tcm
              (NoDup_span_offsets _ _) tcm) as [H1 H2]; [done|].
  case_decide as Hcov.
  - specialize (H1 ((i - row_idx)%Z, (j - col_idx)%Z)).
    unfold written, position in H1; simpl in H1.
    replace (row_idx + (i - row_idx))%Z with i in H1 by lia.
    replace (col_idx + (j - col_idx))%Z with j in H1 by lia.
    rewrite H1 by (apply elem_of_span_offsets; simpl; lia).
    f_equal. case_decide as Hor.
    + destruct Hor as [-> ->]. by rewrite !Z.sub_diag.
    + destruct (Z.eqb_spec (i - row_idx) 0), (Z.eqb_spec (j - col_idx) 0); simpl; try done.
      exfalso; apply Hor; lia.
  - apply H2. intros [a b] Hin%elem_of_span_offsets [= <- <-]. simpl in *. lia.
Qed.

End WriteSpan.

Lemma grid_rows_length (tcm : gmap (Z * Z) string) (max_row max_col : Z) :
  length (grid_rows tcm max_row max_col) = Z.to_nat max_row /\
  Forall (fun row => length row = Z.to_nat max_col) (grid_rows tcm max_row max_col).
Proof.
  unfold grid_rows. split.
  - by rewrite length_map, length_seqZ.
  - apply Forall_forall. intros row Hin%list_elem_of_fmap.
    destruct Hin as (r & -> & _). by rewrite length_map, length_seqZ.
Qed.


Lemma grid_rows_at (tcm : gmap (Z * Z) string) (max_row max_col i j : Z) :
  (1 <= i <= max_row)%Z -> (1 <= j <= max_col)%Z ->
  grid_at (grid_rows tcm max_row max_col) i j = Some (default "" (tcm !! (i, j))).
Proof.
  intros Hi Hj. unfold grid_at, grid_rows.
  rewrite list_lookup_fmap, (lookup_seqZ_lt 1 max_row) by lia. simpl.
  rewrite list_lookup_fmap, (lookup_seqZ_lt 1 max_col) by lia. simpl.
  replace (1 + Z.of_nat (Z.to_nat (i - 1)))%Z with i by lia.
  by replace (1 + Z.of_nat (Z.to_nat (j - 1)))%Z with j by lia.
Qed.

Lemma span_offsets_length (row_span col_span : Z) :
  length (span_offsets row_span col_span) = (Z.to_nat row_span * Z.to_nat col_span)%nat.
Proof.
  unfold span_offsets. rewrite <- (length_seqZ 0 row_span).
  induction (seqZ 0 row_span) as [|a l IH]; simpl; [done|].
  by rewrite length_app, length_map, length_seqZ, IH.
Qed.

Lemma json_cell_step_ok (blocks_map : gmap string Block) (cell : Block) (r c : Z)
    (text : string) (conf : Q) (parsed_cells_map : list ((Z * Z) * CellInfo)) (max_r max_c : Z) :
  RowIndex cell = Some r -> ColumnIndex cell = Some c ->
  get_text_and_confidence_from_block blocks_map cell = Ok (text, conf) ->
  json_cell_step blocks_map (parsed_cells_map, max_r, max_c) cell =
  Ok (dict_set (r, c)
        {| cellId := Id cell; cell_rowIndex := r; columnIndex := c;
           rowSpan := default 1%Z (RowSpan cell); columnSpan := default 1%Z (ColumnSpan cell);
           cell_text := text; cell_confidence := round2 conf;
           cell_geometry := Geometry cell; cell_spatiallyReconstructed := false |}
        parsed_cells_map,
      Z.max max_r (r + default 1%Z (RowSpan cell) - 1),
      Z.max max_c (c + default 1%Z (ColumnSpan cell) - 1)).
Proof.
  intros Hr Hc Hres. unfold json_cell_step. rewrite Hres, Hr, Hc. reflexivity.
Qed.

Lemma csv_cell_step_ok (blocks_map : gmap string Block) (cell : Block) (r c : Z)
    (text : string) (conf : Q) (tcm : gmap (Z * Z) string) (max_row max_col : Z) :
  RowIndex cell = Some r -> ColumnIndex cell = Some c ->
  get_text_and_confidence_from_block blocks_map cell = Ok (text, conf) ->
  csv_cell_step blocks_map (tcm, max_row, max_col) cell =
  Ok (write_span r c (default 1%Z (RowSpan cell)) (default 1%Z (ColumnSpan cell)) text tcm,
      Z.max max_row (r + default 1%Z (RowSpan cell) - 1),
      Z.max max_col (c + default 1%Z (ColumnSpan cell) - 1)).
Proof.
  intros Hr Hc Hres. unfold csv_cell_step. rewrite Hres, Hr, Hc. reflexivity.
Qed.

(** C2, as stated, fails in the structured-record path: the cell "Title"
    spans the two columns of row 1, the table reports 2 rows and 2 columns,
    and row 1 of the record holds that one cell only (no cell, empty or
    not, stands at row 1, column 2). *)
Lemma structural_span_counterexample :
  exists out table_data,
    parse_blocks_to_structured_json false no_chat (mk_blocks_map spanning_blocks)
      spanning_blocks "k" "j" = Ok out /\
    tables out = [inl table_data] /\
    (rowCount table_data, columnCount table_data, table_texts table_data) =
      (2%Z, 2%Z, [["Title"]; ["x"; "y"]]).
Proof. do 2 eexists. split; [vm_compute; reflexivity|]. split; reflexivity. Qed.

(** ** Rows of one table have one length *)

Lemma structural_csv_rows_uniform (blocks_map : gmap string Block) (table : Block)
    (grid : list (list string)) :
  structural_csv_rows blocks_map table = Ok (Some grid) ->
  exists max_row max_col,
    length grid = Z.to_nat max_row /\ Forall (fun row => length row = Z.to_nat max_col) grid.
Proof.
  unfold structural_csv_rows. destruct (cell_blocks_in_table _ _) as [|cell cells]; [discriminate|].
  intros Hrun. apply bind_Ok_inv in Hrun as ([[tcm max_row] max_col] & _ & Hgrid).
  destruct (decide (tcm = ∅)); [discriminate|]. injection Hgrid as <-.
  exists max_row, max_col. apply grid_rows_length.
Qed.

(** C4 (amended). Every grid the spatial reconstruction returns has
    [row_count] rows of exactly [column_count] cells, and so have its rows
    in the tabular artifact and in the structured record; every grid the
    structural builder adds to the tabular artifact has rows of one length
    (the largest column reached).  Nothing is claimed for the rows of a
    structurally built table in the structured record, which list the
    declared cells only. *)
Theorem table_rows_uniform (blocks_map : gmap string Block) (table : Block) :
  (forall st,
     reconstruct_table_structure_spatially blocks_map table = Some st ->
     length (rows st) = row_count st /\
     Forall (fun row => length (cells row) = column_count st) (rows st) /\
     Forall (fun csv_row => length csv_row = column_count st) (spatial_texts st) /\
     Forall (fun row => Z.of_nat (length (row_cells row)) = columnCount (spatial_table_data table st))
            (table_rows (spatial_table_data table st))) /\
  (forall grid,
     structural_csv_rows blocks_map table = Ok (Some grid) ->
     exists n, Forall (fun csv_row => length csv_row = n) grid).
Proof.
  split.
  - intros st Hst. apply reconstruct_spatially_shape in Hst as (_ & _ & Hrows & Hcells & _).
    repeat split; [done | done | |].
    + unfold spatial_texts. apply Forall_fmap. eapply Forall_impl; [exact Hcells|].
      intros row Hrow; simpl. by rewrite length_map.
    + simpl. apply Forall_fmap. eapply Forall_impl; [exact Hcells|].
      intros row Hrow; simpl. by rewrite length_map, Hrow.
  - intros grid Hgrid. apply structural_csv_rows_uniform in Hgrid as (_ & max_col & _ & H).
    by exists (Z.to_nat max_col).
Qed.

Lemma table_rows_uniform_witness :
  exists st,
    reconstruct_table_structure_spatially (mk_blocks_map grid_blocks) grid_table = Some st /\
    length (rows st) = row_count st /\
    Forall (fun row => length (cells row) = column_count st) (rows st) /\
    Forall (fun csv_row => length csv_row = column_count st) (spatial_texts st) /\
    Forall (fun row => Z.of_nat (length (row_cells row)) =
                       columnCount (spatial_table_data grid_table st))
           (table_rows (spatial_table_data grid_table st)).
Proof.
  destruct (reconstruct_table_structure_spatially (mk_blocks_map grid_blocks) grid_table)
    as [st|] eqn:Hst; [|vm_compute in Hst; discriminate].
  exists st. split; [reflexivity|].
  exact (proj1 (table_rows_uniform (mk_blocks_map grid_blocks) grid_table) st Hst).
Defined.

(** C4, as stated, fails for a structurally built table of the structured
    record: in the table of [spanning_blocks] row 1 has one cell and row 2
    has two. *)
Lemma structured_rows_counterexample :
  exists out table_data,
    parse_blocks_to_structured_json false no_chat (mk_blocks_map spanning_blocks)
      spanning_blocks "k" "j" = Ok out /\
    tables out = [inl table_data] /\
    map (fun row => length (row_cells row)) (table_rows table_data) = [1; 2].
Proof. do 2 eexists. split; [vm_compute; reflexivity|]. split; reflexivity. Qed.

(** ** Strings: what [strip] removes *)

Lemma app_String (a : Ascii.ascii) (s t : string) : String a s +:+ t = String a (s +:+ t).
Proof. reflexivity. Qed.

Lemma app_empty_l (t : string) : "" +:+ t = t.
Proof. reflexivity. Qed.

Lemma string_app_assoc (s1 s2 s3 : string) : (s1 +:+ s2) +:+ s3 = s1 +:+ (s2 +:+ s3).
Proof. induction s1 as [|a s1 IH]; [done|]. by rewrite !app_String, IH. Qed.

Lemma app_empty_r (s : string) : s +:+ "" = s.
Proof. induction s as [|a s IH]; [done|]. by rewrite app_String, IH. Qed.

Lemma string_app_length (s t : string) :
  String.length (s +:+ t) = (String.length s + String.length t)%nat.
Proof. induction s as [|a s IH]; [done|]. rewrite app_String. simpl. by rewrite IH. Qed.

Lemma drop_prefix_Some (p s r : string) : drop_prefix p s = Some r <-> s = p +:+ r.
Proof.
  revert s. induction p as [|a p IH]; intros s; simpl.
  - rewrite app_empty_l. split; congruence.
  - destruct s as [|b s]; [split; discriminate|].
    rewrite app_String. destruct (Ascii.eqb_spec a b) as [->|Hne].
    + rewrite IH. split; congruence.
    + split; [discriminate | congruence].
Qed.

Lemma head_omap_Some {A B} (f : A -> option B) (l : list A) (b : B) :
  head (omap f l) = Some b -> exists a, a ∈ l /\ f a = Some b.
Proof.
  induction l as [|a l IH]; simpl; [discriminate|].
  destruct (f a) as [b'|] eqn:Hfa; simpl.
  - intros [= ->]. exists a. split; [by left | done].
  - intros (a' & Hin & Ha')%IH. exists a'. split; [by right | done].
Qed.

Lemma head_omap_None {A B} (f : A -> option B) (l : list A) :
  head (omap f l) = None <-> forall a, a ∈ l -> f a = None.
Proof.
  induction l as [|a l IH]; simpl.
  - split; [intros _ a Ha; by apply elem_of_nil in Ha | done].
  - destruct (f a) as [b'|] eqn:Hfa; simpl.
    + split; [discriminate|]. intros Hall. rewrite Hall in Hfa by (by left). discriminate.
    + rewrite IH. split.
      * intros Hall a' [->|Hin]%elem_of_cons; [done | by apply Hall].
      * intros Hall a' Hin. apply Hall. by right.
Qed.

Lemma drop_space_Some (s r : string) :
  drop_space s = Some r -> exists p, p ∈ whitespace /\ s = p +:+ r.
Proof.
  unfold drop_space. intros Hhead.
  apply head_omap_Some in Hhead as (p & Hin & Hp).
  exists p. split; [exact Hin|]. apply drop_prefix_Some, Hp.
Qed.

Lemma drop_space_None (s : string) :
  drop_space s = None <-> forall p u, p ∈ whitespace -> s <> p +:+ u.
Proof.
  unfold drop_space. rewrite head_omap_None. split.
  - intros Hall p u Hin Heq. apply drop_prefix_Some in Heq. rewrite Hall in Heq by done.
    discriminate.
  - intros Hall p Hin. destruct (drop_prefix p s) as [r|] eqn:Hp; [|done].
    apply drop_prefix_Some in Hp. by destruct (Hall p r Hin).
Qed.

(** No white-space character is empty or starts another one, so the
    character a string starts with is the one [drop_space] removes. *)
Lemma drop_space_app (p t : string) : p ∈ whitespace -> drop_space (p +:+ t) = Some t.
Proof.
  intros Hin. apply list_elem_of_In in Hin. vm_compute in Hin.
  repeat (destruct Hin as [<-|Hin]; [reflexivity|]). destruct Hin.
Qed.

Lemma whitespace_nonempty (p : string) : p ∈ whitespace -> (0 < String.length p)%nat.
Proof.
  intros Hin. apply list_elem_of_In in Hin. vm_compute in Hin.
  repeat (destruct Hin as [<-|Hin]; [simpl; lia|]). destruct Hin.
Qed.

Lemma drop_space_shorter (s r : string) :
  drop_space s = Some r -> (String.length r < String.length s)%nat.
Proof.
  intros (p & Hin & ->)%drop_space_Some. rewrite string_app_length.
  apply whitespace_nonempty in Hin. lia.
Qed.

Lemma lstrip_rounds_spec (n : nat) (s : string) :
  (String.length s <= n)%nat ->
  exists pre, s = pre +:+ lstrip_rounds n s /\ spaces pre /\
              drop_space (lstrip_rounds n s) = None.
Proof.
  revert s. induction n as [|n IH]; intros s Hlen; simpl.
  - destruct s; [|simpl in Hlen; lia]. exists "". split; [done|]. split; [constructor | done].
  - destruct (drop_space s) as [r|] eqn:Hdrop.
    + pose proof (drop_space_shorter _ _ Hdrop) as Hshort.
      apply drop_space_Some in Hdrop as (p & Hin & ->).
      destruct (IH r) as (pre & Hpre & Hsp & Hnone); [lia|].
      exists (p +:+ pre). rewrite string_app_assoc, <- Hpre.
      split; [done|]. split; [by constructor | done].
    + exists "". split; [done|]. split; [constructor | done].
Qed.

Lemma lstrip_spec (s : string) :
  exists pre, s = pre +:+ lstrip s /\ spaces pre /\ drop_space (lstrip s) = None.
Proof. by apply lstrip_rounds_spec. Qed.

Lemma lstrip_rounds_enough (n m : nat) (s : string) :
  (String.length s <= n)%nat -> (String.length s <= m)%nat ->
  lstrip_rounds n s = lstrip_rounds m s.
Proof.
  revert m s. induction n as [|n IH]; intros m s Hn Hm.
  - destruct s; [|simpl in Hn; lia]. by destruct m.
  - destruct m as [|m].
    + destruct s; [|simpl in Hm; lia]. done.
    + simpl. destruct (drop_space s) as [r|] eqn:Hdrop; [|done].
      apply drop_space_shorter in Hdrop. apply IH; lia.
Qed.

Lemma lstrip_fixed (s : string) : drop_space s = None -> lstrip s = s.
Proof. unfold lstrip. intros Hnone. destruct (String.length s); simpl; [done | by rewrite Hnone]. Qed.

Lemma lstrip_space (p t : string) : p ∈ whitespace -> lstrip (p +:+ t) = lstrip t.
Proof.
  intros Hin. unfold lstrip. rewrite string_app_length.
  pose proof (whitespace_nonempty p Hin).
  destruct (String.length p + String.length t)%nat as [|n] eqn:Hn; [lia|].
  simpl. rewrite drop_space_app by done. apply lstrip_rounds_enough; lia.
Qed.

Lemma lstrip_idemp (s : string) : lstrip (lstrip s) = lstrip s.
Proof. destruct (lstrip_spec s) as (pre & _ & _ & Hnone). by apply lstrip_fixed. Qed.

Lemma spaces_app (s t : string) : spaces s -> spaces t -> spaces (s +:+ t).
Proof.
  induction 1 as [|p s Hin Hs IH]; intros Ht; [done|].
  rewrite string_app_assoc. constructor; [done | by apply IH].
Qed.

Lemma blank_spaces (s : string) : blank s = true <-> spaces s.
Proof.
  unfold blank. split.
  - destruct (lstrip_spec s) as (pre & Heq & Hsp & _).
    destruct (lstrip s); [|discriminate]. intros _. rewrite Heq, app_empty_r. exact Hsp.
  - induction 1 as [|p s Hin Hs IH]; [done|]. by rewrite lstrip_space.
Qed.

Lemma rstrip_spec (s : string) :
  exists post, s = rstrip s +:+ post /\ spaces post.
Proof.
  induction s as [|c s (post & Heq & Hsp)].
  - exists "". split; [done | constructor].
  - cbn [rstrip]. destruct (blank (String c s)) eqn:Hblank.
    + exists (String c s). split; [done | by apply blank_spaces].
    + exists post. rewrite app_String, <- Heq. done.
Qed.

Lemma rstrip_blank_suffix (u t : string) :
  spaces t -> (String.length (rstrip (u +:+ t)) <= String.length u)%nat.
Proof.
  intros Ht. induction u as [|c u IH].
  - rewrite app_empty_l. destruct t as [|c t]; [simpl; lia|].
    cbn [rstrip]. apply blank_spaces in Ht. rewrite Ht. simpl; lia.
  - rewrite app_String. cbn [rstrip]. destruct (blank _); simpl; lia.
Qed.

Lemma rstrip_no_trailing (s p u : string) : p ∈ whitespace -> rstrip s <> u +:+ p.
Proof.
  intros Hin Heq. destruct (rstrip_spec s) as (post & Hs & Hsp).
  pose proof (rstrip_blank_suffix u (p +:+ post) (spaces_cons p post Hin Hsp)) as Hlen.
  rewrite <- string_app_assoc, <- Heq, <- Hs, Heq, string_app_length in Hlen.
  apply whitespace_nonempty in Hin. lia.
Qed.

Lemma rstrip_idemp (s : string) : rstrip (rstrip s) = rstrip s.
Proof.
  induction s as [|c s IH]; [done|]. cbn [rstrip].
  destruct (blank (String c s)) eqn:Hblank; [done|]. cbn [rstrip].
  destruct (blank (String c (rstrip s))) eqn:Hblank'; [|by rewrite IH].
  exfalso. apply blank_spaces in Hblank'.
  destruct (rstrip_spec s) as (post & Hs & Hsp).
  assert (blank (String c s) = true); [|congruence].
  apply blank_spaces. rewrite Hs, <- app_String. by apply spaces_app.
Qed.

Lemma rstrip_no_leading (s : string) : drop_space s = None -> drop_space (rstrip s) = None.
Proof.
  intros Hnone. apply drop_space_None. intros p u Hin Heq.
  destruct (rstrip_spec s) as (post & Hs & _).
  rewrite Heq, string_app_assoc in Hs.
  by eapply drop_space_None in Hnone.
Qed.

Lemma strip_idemp (s : string) : strip (strip s) = strip s.
Proof.
  unfold strip. destruct (lstrip_spec s) as (pre & _ & _ & Hnone).
  rewrite (lstrip_fixed (rstrip (lstrip s))) by (by apply rstrip_no_leading).
  apply rstrip_idemp.
Qed.

(** [strip] removes white space at both ends and nothing else. *)
Lemma strip_trimmed (s : string) : trimmed s (strip s).
Proof.
  unfold strip. destruct (lstrip_spec s) as (pre & Hs & Hpre & Hnone).
  destruct (rstrip_spec (lstrip s)) as (post & Hl & Hpost).
  exists pre, post. split; [by rewrite <- Hl|]. split; [done|]. split; [done|].
  intros p u Hin. split.
  - apply rstrip_no_leading in Hnone. by eapply drop_space_None in Hnone.
  - by apply rstrip_no_trailing.
Qed.

Lemma strip_blank (s : string) : strip s = "" <-> spaces s.
Proof.
  split.
  - intros Heq. destruct (strip_trimmed s) as (pre & post & Hs & Hpre & Hpost & _).
    rewrite Heq in Hs. rewrite Hs. by apply spaces_app.
  - intros Hs. unfold strip. apply blank_spaces in Hs. unfold blank in Hs.
    by destruct (lstrip s).
Qed.

Lemma lstrip_spaces_app (pre t : string) : spaces pre -> lstrip (pre +:+ t) = lstrip t.
Proof.
  induction 1 as [|p s Hin Hs IH]; [done|]. by rewrite string_app_assoc, lstrip_space.
Qed.

(** Two ways of cutting one string: one first part starts the other. *)
Lemma string_app_eq_app (a b c d : string) :
  a +:+ b = c +:+ d ->
  (exists u, a = c +:+ u /\ d = u +:+ b) \/ (exists q, q <> "" /\ c = a +:+ q /\ b = q +:+ d).
Proof.
  revert c. induction a as [|x a IH]; intros c.
  - rewrite app_empty_l. intros ->. destruct c as [|y c].
    + left. by exists "".
    + right. by exists (String y c).
  - destruct c as [|y c].
    + rewrite app_empty_l. intros <-. left. by exists (String x a).
    + rewrite !app_String. intros [= -> Heq].
      destruct (IH c Heq) as [(u & -> & ->)|(q & Hq & -> & ->)].
      * left. by exists u.
      * right. by exists q.
Qed.

(** A white-space character is a byte that begins a character and bytes
    that continue it. *)
Lemma whitespace_shape (p : string) :
  p ∈ whitespace ->
  exists c k, p = String c k /\ is_continuation c = false /\ all_continuation k = true.
Proof.
  intros Hin. apply list_elem_of_In in Hin. vm_compute in Hin.
  repeat (destruct Hin as [<-|Hin]; [do 2 eexists; split; [reflexivity|]; by vm_compute|]).
  destruct Hin.
Qed.

Lemma spaces_start (s : string) :
  spaces s -> s <> "" -> continues s = false.
Proof.
  destruct 1 as [|p s Hin Hs]; [done|]. intros _.
  apply whitespace_shape in Hin as (c & k & -> & Hc & _). exact Hc.
Qed.

(** No string of white space starts inside a white-space character. *)
Lemma whitespace_cut (p r q t : string) :
  p ∈ whitespace -> p = r +:+ q -> r <> "" -> q <> "" -> spaces (q +:+ t) -> False.
Proof.
  intros Hin Hp Hr Hq Hsp.
  apply whitespace_shape in Hin as (c & k & -> & _ & Hk).
  destruct r as [|c' r]; [done|]. rewrite app_String in Hp. injection Hp as <- ->.
  assert (continues (q +:+ t) = true) as Hcont.
  { clear Hsp. induction r as [|x r IH].
    - rewrite app_empty_l in Hk. destruct q as [|y q]; [done|].
      rewrite app_String. cbn [continues]. cbn [all_continuation] in Hk.
      by apply andb_prop in Hk as [Hy _].
    - rewrite app_String in Hk. cbn in Hk. apply andb_prop in Hk as [_ Hk]. by apply IH. }
  rewrite spaces_start in Hcont; [done | done |].
  destruct q; [done | discriminate].
Qed.

Lemma no_leading_app (r post : string) :
  r <> "" -> (forall p u, p ∈ whitespace -> r <> p +:+ u) -> spaces post ->
  drop_space (r +:+ post) = None.
Proof.
  intros Hr Hstart Hpost. apply drop_space_None. intros p u Hin Heq.
  apply string_app_eq_app in Heq as [(v & -> & _)|(q & Hq & -> & ->)].
  - by eapply Hstart.
  - by eapply (whitespace_cut (r +:+ q) r q u).
Qed.

Lemma spaces_app_inv (b post : string) :
  spaces (b +:+ post) -> spaces post -> spaces b.
Proof.
  remember (String.length b) as n eqn:Hn. revert b Hn.
  induction n as [n IH] using lt_wf_ind. intros b -> Hall Hpost.
  destruct (decide (b = "")) as [->|Hb]; [constructor|].
  inversion Hall as [Hnil|p rest Hin Hrest Heq].
  { destruct b; [done | discriminate]. }
  symmetry in Heq. apply string_app_eq_app in Heq as [(u & Hbu & Hrest')|(q & Hq & Hp & Hpost')].
  - subst b rest. constructor; [done|].
    eapply (IH (String.length u)); [|done|done|done].
    rewrite string_app_length. apply whitespace_nonempty in Hin. lia.
  - exfalso. subst post. by eapply (whitespace_cut p b q rest).
Qed.

Lemma spaces_end (s : string) :
  spaces s -> s <> "" -> exists u p, p ∈ whitespace /\ s = u +:+ p.
Proof.
  induction 1 as [|p s Hin Hs IH]; [done|]. intros _.
  destruct s as [|c s].
  - exists "", p. by rewrite app_empty_r.
  - destruct IH as (u & p' & Hin' & ->); [done|].
    exists (p +:+ u), p'. by rewrite string_app_assoc.
Qed.

Lemma rstrip_blank (s : string) : spaces s -> rstrip s = "".
Proof. intros Hs%blank_spaces. destruct s; [done|]. cbn [rstrip]. by rewrite Hs. Qed.

Lemma rstrip_app (r post : string) :
  (forall p u, p ∈ whitespace -> r <> u +:+ p) -> spaces post -> rstrip (r +:+ post) = r.
Proof.
  intros Hend Hpost. induction r as [|c r IH].
  - rewrite app_empty_l. by apply rstrip_blank.
  - rewrite app_String. cbn [rstrip].
    destruct (blank (String c (r +:+ post))) eqn:Hblank.
    + exfalso. apply blank_spaces in Hblank.
      apply (spaces_app_inv (String c r) post) in Hblank; [|done].
      apply spaces_end in Hblank as (u & p & Hin & Heq); [|done]. by eapply Hend.
    + rewrite IH; [done|]. intros p u Hin ->. by eapply (Hend p (String c u)).
Qed.

(** The trimmed form of a string is what [strip] returns, and nothing
    else. *)
Lemma trimmed_strip (s r : string) : trimmed s r <-> r = strip s.
Proof.
  split; [|intros ->; apply strip_trimmed].
  intros (pre & post & -> & Hpre & Hpost & Hr). unfold strip.
  rewrite lstrip_spaces_app by done.
  destruct r as [|c r].
  - rewrite app_empty_l. apply blank_spaces in Hpost. unfold blank in Hpost.
    by destruct (lstrip post).
  - rewrite lstrip_fixed.
    + symmetry. apply rstrip_app; [|done]. intros p u Hin. exact (proj2 (Hr p u Hin)).
    + apply no_leading_app; [done | | done]. intros p u Hin. exact (proj1 (Hr p u Hin)).
Qed.

(** ** Numbers: comparisons and [min] *)

Lemma Qltb_lt (x y : Q) : Qltb x y = true <-> (x < y)%Q.
Proof.
  unfold Qltb. rewrite Qlt_alt. destruct (x ?= y)%Q; split; congruence.
Qed.

Lemma Qltb_ge (x y : Q) : Qltb x y = false <-> (y <= x)%Q.
Proof.
  rewrite <- not_true_iff_false, Qltb_lt. split; [apply Qnot_lt_le | apply Qle_not_lt].
Qed.

Lemma Qleb_le (x y : Q) : Qleb x y = true <-> (x <= y)%Q.
Proof. apply Qle_bool_iff. Qed.

Lemma Qleb_gt (x y : Q) : Qleb x y = false <-> (y < x)%Q.
Proof.
  rewrite <- not_true_iff_false, Qleb_le. split; [apply Qnot_le_lt | apply Qlt_not_le].
Qed.

Lemma min_fold_spec (l : list Q) (x : Q) :
  is_minimum (fold_left (fun m y => if Qltb y m then y else m) l x) (x :: l).
Proof.
  revert x. induction l as [|y l IH]; intros x; simpl.
  - split; [by left|]. intros z ->%list_elem_of_singleton. apply Qle_refl.
  - destruct (IH (if Qltb y x then y else x)) as [Hin Hle]. split.
    + apply elem_of_cons in Hin as [->|Hin].
      * destruct (Qltb y x); [right; left | left].
      * by do 2 right.
    + intros z Hz.
      assert ((if Qltb y x then y else x) <= x /\ (if Qltb y x then y else x) <= y)%Q as [Hx Hy].
      { destruct (Qltb y x) eqn:Hlt.
        - apply Qltb_lt in Hlt. split; [by apply Qlt_le_weak | apply Qle_refl].
        - apply Qltb_ge in Hlt. split; [apply Qle_refl | done]. }
      apply elem_of_cons in Hz as [->|Hz]; [|apply elem_of_cons in Hz as [->|Hz]].
      * eapply Qle_trans; [|exact Hx]. apply Hle; by left.
      * eapply Qle_trans; [|exact Hy]. apply Hle; by left.
      * apply Hle. by right.
Qed.

Lemma py_min_spec (l : list Q) (m : Q) : py_min l = Some m -> is_minimum m l.
Proof. destruct l as [|x l]; simpl; [discriminate|]. intros [= <-]. apply min_fold_spec. Qed.

Lemma py_min_None (l : list Q) : py_min l = None <-> l = [].
Proof. destruct l; simpl; split; congruence. Qed.

(** ** The text/confidence resolver *)

Lemma resolve_child_spec (blocks_map : gmap string Block) (acc : list string * list Q)
    (child_id : string) :
  (forall child, blocks_map !! child_id = Some child -> readable child) ->
  resolve_child blocks_map acc child_id =
  Ok match blocks_map !! child_id ≫= child_contribution with
     | Some (t, c) => (acc.1 ++ [t], acc.2 ++ [c])
     | None => acc
     end.
Proof.
  intros Hread. unfold resolve_child. destruct acc as [text_parts confidences].
  destruct (blocks_map !! child_id) as [child|]; simpl; [|done].
  destruct (Hread child eq_refl) as [Hword Hsel].
  unfold child_contribution.
  destruct (decide (BlockType child = "WORD")) as [Hw|Hw].
  - destruct (Hword Hw) as [t ->]. done.
  - destruct (decide (BlockType child = "SELECTION_ELEMENT")) as [Hs|Hs]; [|done].
    destruct (Hsel Hs) as [st ->]. simpl.
    destruct (decide (st = "SELECTED")) as [->|Hne].
    + by rewrite decide_True.
    + rewrite decide_False; [done | congruence].
Qed.

Lemma resolve_children_spec (blocks_map : gmap string Block) (ids : list string)
    (acc : list string * list Q) :
  (forall child_id child, child_id ∈ ids -> blocks_map !! child_id = Some child -> readable child) ->
  let contributions := omap (fun child_id => blocks_map !! child_id ≫= child_contribution) ids in
  for_each (resolve_child blocks_map) ids acc =
  Ok (acc.1 ++ contributions.*1, acc.2 ++ contributions.*2).
Proof.
  revert acc. induction ids as [|child_id ids IH]; intros acc Hread; simpl.
  - rewrite !app_nil_r. by destruct acc.
  - rewrite resolve_child_spec by (intros child; apply Hread; by left). simpl.
    rewrite IH by (intros id child Hin; apply Hread; by right).
    destruct (blocks_map !! child_id ≫= child_contribution) as [[t c]|]; simpl; [|done].
    by rewrite <- !app_assoc.
Qed.

Lemma readableb_spec (child : Block) : readableb child = true -> readable child.
Proof.
  unfold readableb, readable. intros [H1 H2]%andb_prop. split; intros Hty.
  - rewrite decide_True in H1 by done. by apply bool_decide_eq_true in H1.
  - rewrite decide_True in H2 by done. by apply bool_decide_eq_true in H2.
Qed.

Lemma children_readableb_spec (blocks_map : gmap string Block) (block : Block) :
  children_readableb blocks_map block = true -> children_readable blocks_map block.
Proof.
  unfold children_readableb, children_readable. rewrite forallb_forall.
  intros Hall child_id child Hin%list_elem_of_In Hlook.
  specialize (Hall child_id Hin). rewrite Hlook in Hall. by apply readableb_spec.
Qed.

(** What the resolver returns when the children are readable. *)
Lemma resolver_result (blocks_map : gmap string Block) (block : Block) :
  children_readable blocks_map block ->
  get_text_and_confidence_from_block blocks_map block =
  Ok (resolved_text blocks_map block,
      default 0%Q (py_min (contributing_confidences blocks_map block))).
Proof.
  intros Hread. unfold get_text_and_confidence_from_block.
  rewrite resolve_children_spec by exact Hread. simpl.
  fold (child_contributions blocks_map block). fold (joined_text blocks_map block).
  unfold resolved_text, contributing_confidences, falls_back.
  destruct (str_empty (joined_text blocks_map block)) eqn:Hempty; simpl.
  - destruct (Text block) as [t|] eqn:Htext; simpl; [done|].
    rewrite app_nil_r. by destruct (joined_text blocks_map block).
  - rewrite app_nil_r. unfold joined_text. by rewrite strip_idemp.
Qed.

(** The loop over the children ends in an exception only at a child that
    lacks the key it is read by, and completes only when every child is
    readable. *)
Lemma resolve_children_raise (blocks_map : gmap string Block) (ids : list string)
    (acc : list string * list Q) (e : error) :
  for_each (resolve_child blocks_map) ids acc = Raise e ->
  exists child_id child,
    child_id ∈ ids /\ blocks_map !! child_id = Some child /\
    ((BlockType child = "WORD" /\ Text child = None /\ e = KeyError "Text") \/
     (BlockType child = "SELECTION_ELEMENT" /\ SelectionStatus child = None /\
      e = KeyError "SelectionStatus")).
Proof.
  revert acc. induction ids as [|child_id ids IH]; intros acc; simpl; [discriminate|].
  destruct (resolve_child blocks_map acc child_id) as [acc'|e'] eqn:Hstep; simpl.
  - intros (id & child & Hin & Hrest)%IH. exists id, child. split; [by right | done].
  - intros [= ->]. unfold resolve_child in Hstep. destruct acc as [text_parts confidences].
    destruct (blocks_map !! child_id) as [child|] eqn:Hlook; [|discriminate].
    exists child_id, child. split; [by left|]. split; [done|].
    destruct (decide (BlockType child = "WORD")) as [Hw|Hw].
    + left. destruct (Text child); [discriminate|]. simpl in Hstep. by injection Hstep as <-.
    + destruct (decide (BlockType child = "SELECTION_ELEMENT")) as [Hs|Hs]; [|discriminate].
      right. destruct (SelectionStatus child); [discriminate|]. simpl in Hstep.
      by injection Hstep as <-.
Qed.

Lemma resolve_children_ok (blocks_map : gmap string Block) (ids : list string)
    (acc acc' : list string * list Q) :
  for_each (resolve_child blocks_map) ids acc = Ok acc' ->
  forall child_id child,
    child_id ∈ ids -> blocks_map !! child_id = Some child -> readable child.
Proof.
  revert acc. induction ids as [|id ids IH]; intros acc; simpl.
  - intros _ child_id child Hin. by apply elem_of_nil in Hin.
  - destruct (resolve_child blocks_map acc id) as [acc1|e] eqn:Hstep; simpl; [|discriminate].
    intros Hrest child_id child [->|Hin]%elem_of_cons Hlook; [|by eapply IH].
    unfold resolve_child in Hstep. destruct acc as [text_parts confidences].
    rewrite Hlook in Hstep. split; intros Hty.
    + rewrite decide_True in Hstep by done. by destruct (Text child).
    + destruct (decide (BlockType child = "WORD")) as [Hw|Hw]; [congruence|].
      rewrite decide_True in Hstep by done. by destruct (SelectionStatus child).
Qed.

(** C3 (amended). For every block the resolver either raises a KeyError, at
    a WORD child without Text or a SELECTION_ELEMENT child without
    SelectionStatus, or returns as follows.  The texts of the CHILD WORD
    blocks ("[X]" or "[ ]" for a SELECTION_ELEMENT child) are joined with
    single spaces and trimmed; a string has exactly one trimmed form.  When
    the result is not empty, or the block has no text of its own, it is the
    text returned, and the confidence is the minimum of the children's
    confidences, 0 when no child contributed.  When it is empty and the
    block has a text of its own, the text returned is the own text,
    trimmed, and the confidence is the minimum of the children's
    confidences and the own confidence together.  The result is a function
    of the block and the index alone. *)
Theorem resolver_correct (blocks_map : gmap string Block) (block : Block) :
  let contributions := child_contributions blocks_map block in
  match get_text_and_confidence_from_block blocks_map block with
  | Raise e =>
      exists child_id child,
        child_id ∈ child_ids block /\ blocks_map !! child_id = Some child /\
        ((BlockType child = "WORD" /\ Text child = None /\ e = KeyError "Text") \/
         (BlockType child = "SELECTION_ELEMENT" /\ SelectionStatus child = None /\
          e = KeyError "SelectionStatus"))
  | Ok (text, confidence) =>
      children_readable blocks_map block /\
      exists joined,
        (forall r, trimmed (join " " contributions.*1) r <-> r = joined) /\
        (joined <> "" \/ Text block = None ->
         text = joined /\
         (contributions <> [] -> is_minimum confidence contributions.*2) /\
         (contributions = [] -> confidence = 0%Q)) /\
        (forall own, joined = "" -> Text block = Some own ->
         (forall r, trimmed own r <-> r = text) /\
         is_minimum confidence (contributions.*2 ++ [default 0%Q (Confidence block)]))
  end.
Proof.
  intros contributions.
  destruct (for_each (resolve_child blocks_map) (child_ids block) ([], [])) as [acc|e] eqn:Hloop.
  - assert (children_readable blocks_map block) as Hread
      by (intros child_id child; by eapply resolve_children_ok).
    rewrite resolver_result by exact Hread. split; [exact Hread|].
    exists (joined_text blocks_map block). split; [intros r; apply trimmed_strip|].
    unfold resolved_text, contributing_confidences, falls_back.
    fold contributions. split.
    + intros Hcase.
      assert (str_empty (joined_text blocks_map block) &&
              bool_decide (is_Some (Text block)) = false) as ->.
      { destruct Hcase as [Hne| ->].
        - by destruct (joined_text blocks_map block).
        - rewrite bool_decide_eq_false_2; [apply andb_false_r | by intros [? ?]]. }
      rewrite app_nil_r. split; [done|]. split.
      * intros Hne. destruct (py_min contributions.*2) as [m|] eqn:Hm; simpl.
        -- by apply py_min_spec.
        -- apply py_min_None in Hm. by destruct contributions.
      * by intros ->.
    + intros own Hempty Hown. rewrite Hempty, Hown. simpl.
      split; [intros r; apply trimmed_strip|].
      destruct (py_min _) as [m|] eqn:Hm; simpl.
      * by apply py_min_spec.
      * apply py_min_None in Hm. by destruct (contributions.*2).
  - unfold get_text_and_confidence_from_block. rewrite Hloop. simpl.
    by apply (resolve_children_raise blocks_map _ ([], [])).
Qed.

Lemma resolver_correct_witness :
  let blocks_map := mk_blocks_map blank_words_blocks in
  let block := line_block "l" " own text " 80 ["s1"; "s2"] in
  get_text_and_confidence_from_block blocks_map block = Ok ("own text", 60%Q) /\
  children_readable blocks_map block /\
  child_contributions blocks_map block = [(utf8 160, 70%Q); (" ", 60%Q)] /\
  (forall r, trimmed (join " " [utf8 160; " "]) r <-> r = "") /\
  (forall r, trimmed " own text " r <-> r = "own text") /\
  is_minimum 60%Q [70%Q; 60%Q; 80%Q].
Proof.
  intros blocks_map block.
  pose proof (resolver_correct blocks_map block) as Hspec.
  assert (get_text_and_confidence_from_block blocks_map block = Ok ("own text", 60%Q)) as Hrun
    by (vm_compute; reflexivity).
  rewrite Hrun in Hspec. cbv zeta in Hspec.
  assert (child_contributions blocks_map block = [(utf8 160, 70%Q); (" ", 60%Q)]) as Hchildren
    by (vm_compute; reflexivity).
  rewrite Hchildren in Hspec. cbn [fmap list_fmap fst snd app] in Hspec.
  destruct Hspec as (Hread & joined & Hjoined & _ & Hfallback).
  assert (joined = "") as ->.
  { symmetry. apply Hjoined. apply (strip_trimmed (join " " [utf8 160; " "])). }
  destruct (Hfallback " own text " eq_refl eq_refl) as [Hown Hmin].
  split; [exact Hrun|]. split; [exact Hread|]. split; [exact Hchildren|].
  split; [exact Hjoined|]. split; [exact Hown | exact Hmin].
Defined.

(** C3, as stated, fails in two ways.  A line "Hello" of confidence 90
    whose only word is empty, with confidence 10, falls back to its own
    text but not to its own confidence: it resolves to ("Hello", 10).  A
    cell without text whose only word is a space of confidence 50 has an
    empty text, yet its confidence is 50, not 0. *)
Lemma resolver_fallback_counterexample :
  get_text_and_confidence_from_block (mk_blocks_map empty_word_blocks)
    (line_block "h" "Hello" 90 ["e"]) = Ok ("Hello", 10%Q) /\
  Confidence (line_block "h" "Hello" 90 ["e"]) = Some 90%Q /\
  get_text_and_confidence_from_block (mk_blocks_map space_word_blocks)
    (cell_block "c" (Some 1%Z) (Some 1%Z) None None ["sp"]) = Ok ("", 50%Q) /\
  Text (cell_block "c" (Some 1%Z) (Some 1%Z) None None ["sp"]) = None.
Proof. repeat split; vm_compute; reflexivity. Qed.

(** ** Key/value extraction *)

Lemma mapM_Ok {A B} (f : A -> exc B) (l : list A) (l' : list B) :
  mapM f l = Ok l' <-> Forall2 (fun x y => f x = Ok y) l l'.
Proof.
  revert l'. induction l as [|x l IH]; intros l'; simpl.
  - split; [intros [= <-]; constructor | by intros ->%Forall2_nil_inv_l].
  - split.
    + intros (y & Hy & Hrest)%bind_Ok_inv.
      apply bind_Ok_inv in Hrest as (k & Hk & [= <-]).
      constructor; [done | by apply IH].
    + intros (y & k & Hy & Hk & ->)%Forall2_cons_inv_l.
      apply IH in Hk. rewrite Hy; simpl. rewrite Hk. reflexivity.
Qed.

Lemma first_value_ids_None (rels : list Relationship) :
  first_value_ids rels = None <-> Forall (fun rel => Type_ rel <> "VALUE") rels.
Proof.
  induction rels as [|rel rels IH]; simpl; [by split; [constructor|]|].
  destruct (decide (Type_ rel = "VALUE")) as [Hv|Hv].
  - split; [discriminate | by intros [? _]%Forall_cons].
  - rewrite IH. split; [by constructor | by intros [_ ?]%Forall_cons].
Qed.

(** The first VALUE relationship is the one consulted, whatever follows. *)
Lemma first_value_ids_first (before after : list Relationship) (rel : Relationship) :
  Forall (fun r => Type_ r <> "VALUE") before -> Type_ rel = "VALUE" ->
  first_value_ids (before ++ rel :: after) = Some (Ids rel).
Proof.
  intros Hbefore Hrel. induction Hbefore as [|r before Hr _ IH]; simpl.
  - by rewrite decide_True.
  - by rewrite decide_False.
Qed.

Lemma value_loop_spec (blocks_map : gmap string Block) (ids : list string)
    (resolved : list (string * Q)) (value_text : string) (value_confidence : Q) :
  Forall2 (fun value_id r =>
             exists value_block, blocks_map !! value_id = Some value_block /\
               get_text_and_confidence_from_block blocks_map value_block = Ok r)
          ids resolved ->
  for_each (value_step blocks_map) ids (value_text, value_confidence) =
  Ok (value_text +:+ spaced_texts resolved, fold_left Qmax resolved.*2 value_confidence).
Proof.
  intros Hall. revert value_text value_confidence.
  induction Hall as [|value_id [v_text v_conf] ids resolved (vb & Hvb & Hres) _ IH];
    intros value_text value_confidence; simpl.
  - unfold spaced_texts. simpl. by rewrite app_empty_r.
  - rewrite Hvb, Hres; simpl. rewrite IH. by rewrite !string_app_assoc.
Qed.

Lemma Qmax_cases (x y : Q) : Qmax x y = x \/ Qmax x y = y.
Proof. unfold Qmax, GenericMinMax.gmax. destruct (x ?= y)%Q; auto. Qed.

Lemma Qmin_cases (x y : Q) : Qmin x y = x \/ Qmin x y = y.
Proof. unfold Qmin, GenericMinMax.gmin. destruct (x ?= y)%Q; auto. Qed.

Lemma max_fold_spec (l : list Q) (x : Q) : is_maximum (fold_left Qmax l x) (x :: l).
Proof.
  revert x. induction l as [|y l IH]; intros x; simpl.
  - split; [by left|]. intros z ->%list_elem_of_singleton. apply Qle_refl.
  - destruct (IH (Qmax x y)) as [Hin Hle]. split.
    + apply elem_of_cons in Hin as [->|Hin]; [|by do 2 right].
      destruct (Qmax_cases x y) as [->| ->]; [left | right; left].
    + intros z Hz.
      apply elem_of_cons in Hz as [->|Hz]; [|apply elem_of_cons in Hz as [->|Hz]].
      * eapply Qle_trans; [apply Q.le_max_l | apply Hle; by left].
      * eapply Qle_trans; [apply Q.le_max_r | apply Hle; by left].
      * apply Hle. by right.
Qed.

(** C7 (amended). For a key whose first VALUE relationship lists value
    blocks that all resolve, the pair carries the trimmed key text, the key
    confidence rounded to 2 places, the value texts each followed by a space
    and the whole trimmed (so no trailing space remains), and as value
    confidence the rounded maximum of 0 and the value blocks' confidences;
    relationships after the first VALUE one are not consulted.  With key
    "Date"/98 and one value "01/01/2024"/95 the pair is
    ("Date", 98, "01/01/2024", 95). *)
Theorem key_value_pair_spec (blocks_map : gmap string Block) (key_block : Block)
    (key_text : string) (key_confidence : Q) (before after : list Relationship)
    (rel : Relationship) (resolved : list (string * Q)) :
  get_text_and_confidence_from_block blocks_map key_block = Ok (key_text, key_confidence) ->
  relationships key_block = before ++ rel :: after ->
  Forall (fun r => Type_ r <> "VALUE") before -> Type_ rel = "VALUE" ->
  Forall2 (fun value_id r =>
             exists value_block, blocks_map !! value_id = Some value_block /\
               get_text_and_confidence_from_block blocks_map value_block = Ok r)
          (Ids rel) resolved ->
  exists value_confidence,
    is_maximum value_confidence (0%Q :: resolved.*2) /\
    key_value_pair blocks_map key_block =
      Ok {| key := strip key_text;
            keyConfidence := round2 key_confidence;
            value := strip (spaced_texts resolved);
            valueConfidence := round2 value_confidence;
            keyGeometry := Geometry key_block;
            kv_pageNumber := Page key_block |}.
Proof.
  intros Hkey Hrels Hbefore Hrel Hvalues.
  exists (fold_left Qmax resolved.*2 0%Q). split; [apply max_fold_spec|].
  unfold key_value_pair. rewrite Hkey; simpl.
  rewrite Hrels, (first_value_ids_first before after rel Hbefore Hrel).
  rewrite (value_loop_spec blocks_map (Ids rel) resolved) by exact Hvalues. simpl.
  by rewrite app_empty_l.
Qed.

Lemma key_value_pair_spec_witness :
  exists value_confidence,
    is_maximum value_confidence (0%Q :: [95%Q]) /\
    key_value_pair (mk_blocks_map form_blocks) date_key =
      Ok {| key := "Date";
            keyConfidence := 98;
            value := "01/01/2024";
            valueConfidence := round2 value_confidence;
            keyGeometry := None;
            kv_pageNumber := Some 1%Z |}.
Proof.
  refine (key_value_pair_spec (mk_blocks_map form_blocks) date_key "Date" 98 []
            [ {| Type_ := "CHILD"; Ids := ["kw1"] |} ] {| Type_ := "VALUE"; Ids := ["v1"] |}
            [("01/01/2024", 95%Q)] eq_refl eq_refl _ eq_refl _).
  - constructor.
  - repeat constructor. exists (value_block "v1" ["vw1"]). split; reflexivity.
Defined.

(** C7, as stated, fails on the value text: in the scenario the pair's value
    is "01/01/2024", without the trailing space. *)
Lemma date_pair_counterexample :
  (exists out,
     parse_blocks_to_structured_json false no_chat (mk_blocks_map form_blocks) [date_key]
       "k" "j" = Ok out /\
     map pair_summary (keyValuePairs out) = [("Date", 98%Q, "01/01/2024", 95%Q)]) /\
  "01/01/2024" <> "01/01/2024 ".
Proof. split; [eexists; split; [vm_compute; reflexivity | reflexivity] | discriminate]. Qed.

Lemma parse_json_inv (ai_enabled : bool) (chat_completion : list (list string) -> option json)
    (blocks_map : gmap string Block) (blocks : list Block)
    (original_s3_key job_id : string) (out : OutputJson) :
  parse_blocks_to_structured_json ai_enabled chat_completion blocks_map blocks
    original_s3_key job_id = Ok out ->
  originalS3Key out = original_s3_key /\
  processingJobId out = job_id /\
  pageCount (documentMetadata out) = length (List.filter (is_type "PAGE") blocks) /\
  (exists out_tables,
     for_each (json_table_step blocks_map) (List.filter (is_type "TABLE") blocks) [] =
       Ok out_tables /\
     tables out = restructure_tables ai_enabled chat_completion out_tables) /\
  Forall2 (fun key_block p => key_value_pair blocks_map key_block = Ok p)
          (List.filter is_key (List.filter (is_type "KEY_VALUE_SET") blocks)) (keyValuePairs out) /\
  Forall2 (fun line_block l => raw_line blocks_map line_block = Ok l)
          (List.filter (is_type "LINE") blocks) (rawLines out).
Proof.
  unfold parse_blocks_to_structured_json. intros Hrun.
  apply bind_Ok_inv in Hrun as (out_tables & Htables & Hrun).
  apply bind_Ok_inv in Hrun as (pairs & Hpairs & Hrun).
  apply bind_Ok_inv in Hrun as (lines & Hlines & [= <-]). simpl.
  apply mapM_Ok in Hpairs, Hlines. do 3 (split; [done|]). split; [by eexists|]. done.
Qed.

(** ** On a well-formed index nothing raises *)

Lemma well_formed_blockb_spec (b : Block) : well_formed_blockb b = true -> well_formed_block b.
Proof.
  unfold well_formed_blockb, well_formed_block. intros [H1 H2]%andb_prop.
  split; [by apply readableb_spec|]. intros Hcell.
  rewrite decide_True in H2 by done. apply andb_prop in H2 as [Hr Hc].
  by apply bool_decide_eq_true in Hr, Hc.
Qed.

(** An index built from well-formed blocks is well formed. *)
Lemma mk_blocks_map_well_formed (blocks : list Block) :
  forallb well_formed_blockb blocks = true -> well_formed (mk_blocks_map blocks).
Proof.
  intros Hall. unfold mk_blocks_map.
  apply (fold_left_invariant well_formed); [|intros id b; by rewrite lookup_empty].
  intros m b Hin Hm id b' Hlook.
  destruct (decide (Id b = id)) as [<-|Hne].
  - rewrite lookup_insert_eq in Hlook. injection Hlook as <-.
    apply well_formed_blockb_spec. rewrite forallb_forall in Hall.
    apply Hall. by apply list_elem_of_In.
  - rewrite lookup_insert_ne in Hlook by done. by eapply Hm.
Qed.

Section Total.
Variable blocks_map : gmap string Block.
Hypothesis Hwf : well_formed blocks_map.

Lemma resolver_total (block : Block) :
  exists text confidence,
    get_text_and_confidence_from_block blocks_map block = Ok (text, confidence).
Proof.
  do 2 eexists. apply resolver_result.
  intros child_id child _ Hlook. by apply (Hwf child_id child).
Qed.

Lemma cell_blocks_in_table_cells (table cell : Block) :
  cell ∈ cell_blocks_in_table blocks_map table ->
  BlockType cell = "CELL" /\ exists id, blocks_map !! id = Some cell.
Proof.
  unfold cell_blocks_in_table. rewrite list_elem_of_In, in_flat_map.
  intros (G_id & _ & Hin).
  destruct (blocks_map !! G_id) as [G_block|] eqn:HG; [|done].
  destruct (decide (BlockType G_block = "CELL")) as [Hc|Hc].
  - destruct Hin as [<-|[]]. eauto.
  - destruct (decide (BlockType G_block = "MERGED_CELL")); [|done].
    apply in_flat_map in Hin as (m_cell_id & _ & Hin).
    destruct (blocks_map !! m_cell_id) as [m_cell|] eqn:Hm; [|done].
    destruct (decide (BlockType m_cell = "CELL")); [|done].
    destruct Hin as [<-|[]]. eauto.
Qed.

Lemma cell_indices (table cell : Block) :
  cell ∈ cell_blocks_in_table blocks_map table ->
  exists r c, RowIndex cell = Some r /\ ColumnIndex cell = Some c.
Proof.
  intros (Hty & id & Hlook)%cell_blocks_in_table_cells.
  destruct (Hwf id cell Hlook) as [_ Hcell].
  destruct (Hcell Hty) as [[r Hr] [c Hc]]. eauto.
Qed.

Lemma structural_csv_rows_total (table : Block) :
  exists result, structural_csv_rows blocks_map table = Ok result.
Proof.
  unfold structural_csv_rows.
  destruct (cell_blocks_in_table blocks_map table) as [|cell cells] eqn:Hcells; [eauto|].
  destruct (for_each_total (fun _ => True) (csv_cell_step blocks_map) (cell :: cells))
    with (s := (∅ : gmap (Z * Z) string, 0%Z, 0%Z)) as (s' & -> & _); [|done|].
  - intros [[tcm max_row] max_col] x Hx _.
    rewrite <- Hcells in Hx. destruct (cell_indices table x Hx) as (r & c & Hr & Hc).
    destruct (resolver_total x) as (text & conf & Hres).
    erewrite csv_cell_step_ok by eauto. eauto.
  - simpl. destruct s' as [[tcm max_row] max_col]. destruct (decide (tcm = ∅)); eauto.
Qed.

Lemma structural_table_data_total (table : Block) :
  exists result, structural_table_data blocks_map table = Ok result.
Proof.
  unfold structural_table_data.
  destruct (cell_blocks_in_table blocks_map table) as [|cell cells] eqn:Hcells; [eauto|].
  destruct (for_each_total (fun _ => True) (json_cell_step blocks_map) (cell :: cells))
    with (s := ([] : list ((Z * Z) * CellInfo), 0%Z, 0%Z)) as (s' & -> & _); [|done|].
  - intros [[pcm max_r] max_c] x Hx _.
    rewrite <- Hcells in Hx. destruct (cell_indices table x Hx) as (r & c & Hr & Hc).
    destruct (resolver_total x) as (text & conf & Hres).
    erewrite json_cell_step_ok by eauto. eauto.
  - simpl. destruct s' as [[pcm max_r] max_c]. eauto.
Qed.

Lemma mapM_total {A B} (f : A -> exc B) (l : list A) :
  (forall x, x ∈ l -> exists y, f x = Ok y) -> exists l', mapM f l = Ok l'.
Proof.
  induction l as [|x l IH]; intros Hf; simpl; [eauto|].
  destruct (Hf x) as (y & ->); [by left|]. simpl.
  destruct IH as (l' & ->); [intros; apply Hf; by right|]. simpl. eauto.
Qed.

Lemma key_value_pair_total (key_block : Block) :
  exists p, key_value_pair blocks_map key_block = Ok p.
Proof.
  unfold key_value_pair.
  destruct (resolver_total key_block) as (kt & kc & ->). simpl.
  destruct (first_value_ids (relationships key_block)) as [ids|]; simpl; [|eauto].
  destruct (for_each_total (fun _ => True) (value_step blocks_map) ids)
    with (s := ("", 0%Q)) as ([vt vc] & -> & _); [|done|simpl; eauto].
  intros [vt vc] value_id _ _. unfold value_step.
  destruct (blocks_map !! value_id) as [vb|]; [|eauto].
  destruct (resolver_total vb) as (t & c & ->). simpl. eauto.
Qed.

Lemma raw_line_total (line : Block) : exists l, raw_line blocks_map line = Ok l.
Proof.
  unfold raw_line. destruct (resolver_total line) as (t & c & ->). simpl. eauto.
Qed.

Lemma json_tables_total (table_blocks : list Block) :
  exists out_tables, for_each (json_table_step blocks_map) table_blocks [] = Ok out_tables.
Proof.
  destruct (for_each_total (fun _ => True) (json_table_step blocks_map) table_blocks)
    with (s := ([] : list TableData)) as (s' & -> & _); [|done|eauto].
  intros out_tables table _ _. unfold json_table_step.
  destruct (reconstruct_table_structure_spatially blocks_map table); [eauto|].
  destruct (structural_table_data_total table) as ([td|] & ->); simpl; eauto.
Qed.

Lemma parse_json_total (ai_enabled : bool)
    (chat_completion : list (list string) -> option json) (blocks : list Block)
    (original_s3_key job_id : string) :
  exists out,
    parse_blocks_to_structured_json ai_enabled chat_completion blocks_map blocks
      original_s3_key job_id = Ok out.
Proof.
  unfold parse_blocks_to_structured_json.
  destruct (json_tables_total (List.filter (is_type "TABLE") blocks)) as (out_tables & ->). simpl.
  destruct (mapM_total (key_value_pair blocks_map)
              (List.filter is_key (List.filter (is_type "KEY_VALUE_SET") blocks)))
    as (pairs & ->); [intros; apply key_value_pair_total|]. simpl.
  destruct (mapM_total (raw_line blocks_map) (List.filter (is_type "LINE") blocks))
    as (lines & ->); [intros; apply raw_line_total|]. simpl. eauto.
Qed.

Lemma csv_table_step_total (all_csv_rows : list (list string)) (numbered : nat * Block) :
  exists all_csv_rows', csv_table_step blocks_map all_csv_rows numbered = Ok all_csv_rows'.
Proof.
  destruct numbered as [table_num table]. unfold csv_table_step.
  destruct (reconstruct_table_structure_spatially blocks_map table); [eauto|].
  destruct (structural_csv_rows_total table) as ([grid|] & ->); simpl; eauto.
Qed.

Lemma parse_csv_total (blocks : list Block) :
  exists all_csv_rows, parse_tables_to_csv_data blocks_map blocks = Ok all_csv_rows.
Proof.
  unfold parse_tables_to_csv_data.
  destruct (List.filter (is_type "TABLE") blocks) as [|table tables].
  - destruct (List.filter (is_type "LINE") blocks) as [|line lines]; [eauto|].
    destruct (for_each_total (fun _ => True)
                (fun all_csv_rows line_block =>
                   '(text, _) ← get_text_and_confidence_from_block blocks_map line_block;
                   Ok (all_csv_rows ++ [[text]])) (line :: lines))
      with (s := [["Detected Lines (No Table Structure Found)"]]) as (s' & -> & _);
      [|done|eauto].
    intros s x _ _. destruct (resolver_total x) as (t & c & ->). simpl. eauto.
  - destruct (for_each_total (fun _ => True) (csv_table_step blocks_map)
                (imap pair (table :: tables)))
      with (s := ([] : list (list string))) as (s' & -> & _); [|done|eauto].
    intros s x _ _. destruct (csv_table_step_total s x) as (s' & ->). eauto.
Qed.

End Total.

(** C6 (amended). On a well-formed index the extractor emits one pair for
    every KEY-tagged KEY_VALUE_SET block, in document order; a key that has
    no relationship of type VALUE is not omitted: its pair has the empty
    value text and value confidence 0. *)
Theorem key_without_value_kept (ai_enabled : bool)
    (chat_completion : list (list string) -> option json)
    (blocks_map : gmap string Block) (blocks : list Block)
    (original_s3_key job_id : string) :
  well_formed blocks_map ->
  exists out,
    parse_blocks_to_structured_json ai_enabled chat_completion blocks_map blocks
      original_s3_key job_id = Ok out /\
    Forall2 (fun key_block p =>
               key_value_pair blocks_map key_block = Ok p /\
               kv_pageNumber p = Page key_block /\
               (Forall (fun rel => Type_ rel <> "VALUE") (relationships key_block) ->
                value p = "" /\ valueConfidence p = 0%Q))
            (List.filter is_key (List.filter (is_type "KEY_VALUE_SET") blocks))
            (keyValuePairs out).
Proof.
  intros Hwf.
  destruct (parse_json_total blocks_map Hwf ai_enabled chat_completion blocks
              original_s3_key job_id) as (out & Hrun).
  exists out. split; [exact Hrun|].
  apply parse_json_inv in Hrun as (_ & _ & _ & _ & Hpairs & _).
  eapply Forall2_impl; [exact Hpairs|]. intros key_block p Hp. simpl in Hp.
  split; [done|]. unfold key_value_pair in Hp.
  apply bind_Ok_inv in Hp as ([key_text key_confidence] & _ & Hp).
  destruct (first_value_ids (relationships key_block)) as [ids|] eqn:Hids.
  - apply bind_Ok_inv in Hp as ([value_text value_confidence] & _ & [= <-]). simpl.
    split; [done|]. intros Hnone%first_value_ids_None. congruence.
  - simpl in Hp. injection Hp as <-. simpl. done.
Qed.

Lemma key_without_value_kept_witness :
  well_formed (mk_blocks_map form_blocks) /\
  exists out,
    parse_blocks_to_structured_json false no_chat (mk_blocks_map form_blocks) form_blocks
      "k" "j" = Ok out /\
    Forall2 (fun key_block p =>
               key_value_pair (mk_blocks_map form_blocks) key_block = Ok p /\
               kv_pageNumber p = Page key_block /\
               (Forall (fun rel => Type_ rel <> "VALUE") (relationships key_block) ->
                value p = "" /\ valueConfidence p = 0%Q))
            (List.filter is_key (List.filter (is_type "KEY_VALUE_SET") form_blocks))
            (keyValuePairs out).
Proof.
  assert (well_formed (mk_blocks_map form_blocks)) as Hwf.
  { apply mk_blocks_map_well_formed. vm_compute. reflexivity. }
  split; [exact Hwf|].
  exact (key_without_value_kept false no_chat (mk_blocks_map form_blocks) form_blocks
           "k" "j" Hwf).
Defined.

(** C6, as stated, fails: the key "Name" has no VALUE relationship and its
    pair is in the output, with an empty value. *)
Lemma key_without_value_counterexample :
  exists out,
    parse_blocks_to_structured_json false no_chat (mk_blocks_map form_blocks) form_blocks
      "k" "j" = Ok out /\
    map pair_summary (keyValuePairs out) =
      [("Date", 98%Q, "01/01/2024", 95%Q); ("Name", 97%Q, "", 0%Q)] /\
    Forall (fun rel => Type_ rel <> "VALUE") (relationships name_key).
Proof.
  eexists. split; [vm_compute; reflexivity|]. split; [reflexivity|].
  repeat constructor. discriminate.
Qed.

(** ** Confidences of the structured record *)

Lemma round2_two_decimals (q : Q) : two_decimals (round2 q).
Proof. exists (round_half_even (q * 100)). unfold round2. apply Qred_correct. Qed.

Lemma zero_two_decimals : two_decimals 0%Q.
Proof. by exists 0%Z. Qed.

Lemma dict_get_elem_of {K V} `{EqDecision K} (k : K) (v : V) (d : list (K * V)) :
  dict_get k d = Some v -> (k, v) ∈ d.
Proof.
  induction d as [|[k' v'] d IH]; simpl; [discriminate|].
  destruct (decide (k = k')) as [->|_].
  - intros [= ->]. by left.
  - intros Hget. right. by apply IH.
Qed.

Lemma dict_set_Forall {K V} `{EqDecision K} (R : K * V -> Prop) (k : K) (v : V)
    (d : list (K * V)) :
  Forall R d -> R (k, v) -> Forall R (dict_set k v d).
Proof.
  intros Hd Hkv. induction Hd as [|[k' v'] d Hx Hd IH]; simpl.
  - by repeat constructor.
  - destruct (decide (k = k')); by constructor.
Qed.

Lemma insert_sorted_Forall {A} (P : A -> Prop) (leb : A -> A -> bool) (x : A) (l : list A) :
  P x -> Forall P l -> Forall P (insert_sorted leb x l).
Proof.
  intros Hx Hl. induction Hl as [|y l Hy Hl IH]; simpl.
  - by repeat constructor.
  - destruct (leb x y); repeat constructor; done.
Qed.

Lemma sort_by_Forall {A} (P : A -> Prop) (leb : A -> A -> bool) (l : list A) :
  Forall P l -> Forall P (sort_by leb l).
Proof.
  unfold sort_by. induction 1 as [|x l Hx Hl IH]; simpl; [constructor|].
  by apply insert_sorted_Forall.
Qed.

Lemma insert_sorted_length {A} (leb : A -> A -> bool) (x : A) (l : list A) :
  length (insert_sorted leb x l) = S (length l).
Proof. induction l as [|y l IH]; simpl; [done|]. destruct (leb x y); simpl; by rewrite ?IH. Qed.

Lemma sort_by_length {A} (leb : A -> A -> bool) (l : list A) :
  length (sort_by leb l) = length l.
Proof.
  unfold sort_by. induction l as [|x l IH]; simpl; [done|].
  by rewrite insert_sorted_length, IH.
Qed.

Section Confidences.
Variable blocks_map : gmap string Block.

Lemma build_row_confidences (column_ranges : list ColumnRange) (row_idx : nat)
    (row_words : list SpatialWord) :
  Forall (fun c => two_decimals (sc_confidence c))
         (cells (build_row column_ranges row_idx row_words)).
Proof.
  unfold build_row.
  pose proof (fold_left_invariant
    (fun st : list string * list Q => Forall two_decimals st.2)
    combine_step (fold_left (group_step column_ranges) row_words [])) as Hinv.
  specialize (Hinv (fun s x _ Hs =>
    ltac:(destruct s as [rc rf], x as [i ws]; simpl in *;
          destruct (i <? length rc)%nat; simpl;
          [apply Forall_insert; [exact Hs | apply round2_two_decimals] | exact Hs]))
    (replicate (length column_ranges) "", replicate (length column_ranges) 0%Q)).
  destruct (fold_left combine_step _ _) as [row_cells row_confidences]; simpl in *.
  assert (Forall two_decimals row_confidences) as Hconf.
  { apply Hinv. apply Forall_replicate, zero_two_decimals. }
  apply Forall_forall. intros c Hc.
  apply elem_of_lookup_imap in Hc as (i & t & -> & _). simpl.
  destruct (row_confidences !! i) as [q|] eqn:Hq; simpl.
  - eapply Forall_lookup_1; eauto.
  - apply zero_two_decimals.
Qed.

Lemma spatial_table_confidences (table : Block) (st : SpatialTable) :
  reconstruct_table_structure_spatially blocks_map table = Some st ->
  Forall (fun row => Forall cell_ok (row_cells row)) (table_rows (spatial_table_data table st)).
Proof.
  unfold reconstruct_table_structure_spatially, spatial_body.
  destruct (table_word_blocks _ _) as [word_blocks|e]; simpl; [|discriminate].
  unfold reconstruct_from_words. destruct word_blocks; [discriminate|].
  destruct (omap _ _); [discriminate|]. unfold reconstruct_from_spatial_words.
  destruct (_ <? 1)%nat; [discriminate|]. destruct (_ <? 2)%nat; [discriminate|].
  intros [= <-]. simpl. apply Forall_fmap, Forall_forall. intros row Hrow. simpl.
  apply elem_of_lookup_imap in Hrow as (i & ws & -> & _).
  apply Forall_fmap. unfold cell_ok. simpl.
  apply build_row_confidences.
Qed.

Lemma temp_rows_step_Forall (d : list (Z * list CellInfo)) (item : (Z * Z) * CellInfo) :
  Forall (fun kv => Forall cell_ok kv.2) d -> cell_ok item.2 ->
  Forall (fun kv => Forall cell_ok kv.2) (temp_rows_step d item).
Proof.
  intros Hd Hitem. destruct item as [[r c] cell]. unfold temp_rows_step.
  destruct (dict_get r d) as [row|] eqn:Hget.
  - apply dict_set_Forall; [done|]. simpl. apply Forall_app. split; [|by repeat constructor].
    apply dict_get_elem_of in Hget. rewrite Forall_forall in Hd. by apply (Hd (r, row)).
  - apply Forall_app. split; [done|]. by repeat constructor.
Qed.

Lemma structural_rows_confidences (parsed_cells_map : list ((Z * Z) * CellInfo)) :
  Forall (fun kv => cell_ok kv.2) parsed_cells_map ->
  Forall (fun row => Forall cell_ok (row_cells row)) (structural_rows parsed_cells_map).
Proof.
  intros Hpcm. unfold structural_rows.
  assert (Forall (fun kv : Z * list CellInfo => Forall cell_ok kv.2)
            (fold_left temp_rows_step (sort_by key_leb parsed_cells_map) [])) as Hrows.
  { apply (sort_by_Forall _ key_leb) in Hpcm. revert Hpcm.
    generalize (sort_by key_leb parsed_cells_map) as items. intros items Hitems.
    assert (Forall (fun kv : Z * list CellInfo => Forall cell_ok kv.2) []) as Hnil by constructor.
    revert Hnil. generalize ([] : list (Z * list CellInfo)) as d.
    induction Hitems as [|item items Hitem _ IH]; intros d Hd; simpl; [done|].
    apply IH. by apply temp_rows_step_Forall. }
  apply Forall_fmap, Forall_forall. intros r _. simpl.
  apply sort_by_Forall.
  destruct (dict_get r _) as [row|] eqn:Hget; simpl; [|constructor].
  apply dict_get_elem_of in Hget. rewrite Forall_forall in Hrows. by apply (Hrows (r, row)).
Qed.

Lemma structural_table_confidences (table : Block) (td : TableData) :
  structural_table_data blocks_map table = Ok (Some td) ->
  tableId td = Id table /\ table_confidence td = Confidence table /\
  Forall (fun row => Forall cell_ok (row_cells row)) (table_rows td).
Proof.
  unfold structural_table_data.
  destruct (cell_blocks_in_table blocks_map table) as [|cell cells]; [discriminate|].
  intros Hrun. apply bind_Ok_inv in Hrun as ([[pcm max_r] max_c] & Hloop & [= <-]). simpl.
  split; [done|]. split; [done|]. apply structural_rows_confidences.
  apply (for_each_invariant
           (fun st : list ((Z * Z) * CellInfo) * Z * Z => Forall (fun kv => cell_ok kv.2) st.1.1)
           (json_cell_step blocks_map) (cell :: cells)) in Hloop; [done| |constructor].
  intros [[pcm0 r0] c0] x [[pcm1 r1] c1] _ Hinv Hstep. simpl in *.
  unfold json_cell_step in Hstep.
  apply bind_Ok_inv in Hstep as ([text conf] & _ & Hstep).
  apply bind_Ok_inv in Hstep as (r & _ & Hstep).
  apply bind_Ok_inv in Hstep as (c & _ & [= <- _ _]).
  apply dict_set_Forall; [done|]. apply round2_two_decimals.
Qed.

Lemma json_tables_confidences (table_blocks : list Block) (out_tables : list TableData) :
  for_each (json_table_step blocks_map) table_blocks [] = Ok out_tables ->
  Forall (table_ok table_blocks) out_tables.
Proof.
  apply (for_each_invariant (Forall (table_ok table_blocks))); [|constructor].
  intros acc table acc' Hin Hacc. unfold json_table_step.
  destruct (reconstruct_table_structure_spatially blocks_map table) as [st|] eqn:Hst.
  - intros [= <-]. apply Forall_app. split; [done|]. repeat constructor.
    + by exists table.
    + by apply spatial_table_confidences.
  - intros Hrun. apply bind_Ok_inv in Hrun as ([td|] & Htd & [= <-]); [|done].
    apply structural_table_confidences in Htd as (Hid & Hconf & Hcells).
    apply Forall_app. split; [done|]. repeat constructor; [by exists table | done].
Qed.

End Confidences.

Lemma key_value_pair_confidences (blocks_map : gmap string Block) (key_block : Block)
    (p : KeyValuePair) :
  key_value_pair blocks_map key_block = Ok p ->
  two_decimals (keyConfidence p) /\ two_decimals (valueConfidence p).
Proof.
  unfold key_value_pair. intros Hrun.
  apply bind_Ok_inv in Hrun as ([kt kc] & _ & Hrun).
  apply bind_Ok_inv in Hrun as ([vt vc] & _ & [= <-]). simpl.
  split; apply round2_two_decimals.
Qed.

Lemma raw_line_confidence (blocks_map : gmap string Block) (line : Block) (l : RawLine) :
  raw_line blocks_map line = Ok l -> two_decimals (line_confidence l).
Proof.
  unfold raw_line. intros Hrun.
  apply bind_Ok_inv in Hrun as ([t c] & _ & [= <-]). simpl. apply round2_two_decimals.
Qed.

(** ** Assembly of the tabular artifact *)

Lemma csv_table_step_body (blocks_map : gmap string Block) (all_csv_rows : list (list string))
    (table_num : nat) (table : Block) (body : option (list (list string))) :
  csv_table_body blocks_map table = Ok body ->
  csv_table_step blocks_map all_csv_rows (table_num, table) =
  Ok (all_csv_rows ++
      table_piece (negb (bool_decide (all_csv_rows = []))) table_num (table, body)).
Proof.
  unfold csv_table_body, csv_table_step, table_piece, table_label. intros Hbody.
  destruct all_csv_rows as [|row all_csv_rows]; simpl.
  - destruct (reconstruct_table_structure_spatially blocks_map table) as [st|].
    + by injection Hbody as <-.
    + rewrite Hbody. simpl. destruct body; simpl; by rewrite ?app_nil_r.
  - destruct (reconstruct_table_structure_spatially blocks_map table) as [st|].
    + injection Hbody as <-. simpl. by rewrite <- !app_assoc.
    + rewrite Hbody. simpl. destruct body; simpl; by rewrite <- ?app_assoc.
Qed.

Lemma table_piece_nonempty (emitted : bool) (i : nat)
    (item : Block * option (list (list string))) (acc : list (list string)) :
  emitted = negb (bool_decide (acc = [])) ->
  negb (bool_decide (acc ++ table_piece emitted i item = [])) = emitted || has_rows item.2.
Proof.
  intros ->. unfold table_piece. destruct acc as [|row acc]; simpl.
  - destruct item as [t [[|r rs]|]]; simpl; done.
  - done.
Qed.

Lemma csv_tables_loop (blocks_map : gmap string Block) (tables : list Block)
    (bodies : list (option (list (list string)))) (k : nat) (acc : list (list string)) :
  Forall2 (fun table body => csv_table_body blocks_map table = Ok body) tables bodies ->
  for_each (csv_table_step blocks_map) (imap (fun i table => ((k + i)%nat, table)) tables) acc =
  Ok (acc ++ concat (imap (fun i item =>
                             table_piece (negb (bool_decide (acc = [])) || rows_before i bodies)
                                         (k + i) item)
                          (zip tables bodies))).
Proof.
  intros Hall. revert k acc.
  induction Hall as [|table body tables bodies Hbody _ IH]; intros k acc.
  - simpl. by rewrite app_nil_r.
  - rewrite imap_cons, for_each_cons, Nat.add_0_r.
    rewrite (csv_table_step_body _ _ _ _ body Hbody), bind_Ok.
    rewrite (imap_ext _ (fun i table => ((S k + i)%nat, table)))
      by (intros; simpl; f_equal; lia).
    rewrite IH. rewrite <- app_assoc. do 2 f_equal.
    cbn [zip zip_with]. rewrite imap_cons. cbn [concat]. f_equal.
    + unfold rows_before. simpl. by rewrite orb_false_r, Nat.add_0_r.
    + f_equal. apply imap_ext. intros i item _. simpl.
      rewrite table_piece_nonempty by done. simpl.
      unfold rows_before. simpl. rewrite orb_assoc. f_equal. lia.
Qed.

Lemma lines_loop (blocks_map : gmap string Block) (lines : list Block) (texts : list string)
    (acc : list (list string)) :
  Forall2 (fun line text =>
             exists confidence,
               get_text_and_confidence_from_block blocks_map line = Ok (text, confidence))
          lines texts ->
  for_each (fun all_csv_rows line_block =>
              '(text, _) ← get_text_and_confidence_from_block blocks_map line_block;
              Ok (all_csv_rows ++ [[text]]))
           lines acc =
  Ok (acc ++ map (fun text => [text]) texts).
Proof.
  intros Hall. revert acc.
  induction Hall as [|line text lines texts (c & Hres) _ IH]; intros acc; simpl.
  - by rewrite app_nil_r.
  - rewrite Hres. simpl. rewrite IH. by rewrite <- app_assoc.
Qed.

(** C8 (amended). With no TABLE block, the tabular artifact is empty when
    there is no LINE block either, and otherwise one header row followed by
    one single-cell row per LINE block holding its resolved text.  With
    TABLE blocks, it is the concatenation, in document order, of what each
    table adds: its rows (none for a skipped table), preceded by a blank
    row and the one-cell label row "--- Table N (Page P) ---" exactly when
    some earlier table has contributed a row. *)
Theorem csv_assembly (blocks_map : gmap string Block) (blocks : list Block) :
  (forall texts,
     List.filter (is_type "TABLE") blocks = [] ->
     Forall2 (fun line text =>
                exists confidence,
                  get_text_and_confidence_from_block blocks_map line = Ok (text, confidence))
             (List.filter (is_type "LINE") blocks) texts ->
     parse_tables_to_csv_data blocks_map blocks = Ok (assembled_lines texts)) /\
  (forall bodies,
     List.filter (is_type "TABLE") blocks <> [] ->
     Forall2 (fun table body => csv_table_body blocks_map table = Ok body)
             (List.filter (is_type "TABLE") blocks) bodies ->
     parse_tables_to_csv_data blocks_map blocks =
       Ok (assembled_tables (List.filter (is_type "TABLE") blocks) bodies)).
Proof.
  split.
  - intros texts Htables Hlines. unfold parse_tables_to_csv_data. rewrite Htables.
    destruct Hlines as [|line text lines texts Hline Hlines]; [done|].
    rewrite (lines_loop blocks_map (line :: lines) (text :: texts)) by by constructor.
    reflexivity.
  - intros bodies Htables Hbodies. unfold parse_tables_to_csv_data.
    destruct (List.filter (is_type "TABLE") blocks) as [|table tables] eqn:Heq; [done|].
    exact (csv_tables_loop blocks_map (table :: tables) bodies 0 [] Hbodies).
Qed.

Lemma csv_assembly_witness :
  parse_tables_to_csv_data (mk_blocks_map lines_blocks) lines_blocks =
    Ok [ ["Detected Lines (No Table Structure Found)"]; ["first line"]; ["second"]; ["third"] ] /\
  parse_tables_to_csv_data (mk_blocks_map (grid_blocks ++ small_table_blocks))
    [grid_table; empty_table; small_table] =
    Ok [ ["A"; ""; "B"]; ["C"; ""; "D"];
         []; ["--- Table 2 (Page 1) ---"];
         []; ["--- Table 3 (Page 1) ---"]; ["x"] ].
Proof.
  split.
  - refine (proj1 (csv_assembly (mk_blocks_map lines_blocks) lines_blocks)
              ["first line"; "second"; "third"] eq_refl _).
    repeat constructor; eexists; vm_compute; reflexivity.
  - refine (proj2 (csv_assembly (mk_blocks_map (grid_blocks ++ small_table_blocks))
                     [grid_table; empty_table; small_table])
              [Some [["A"; ""; "B"]; ["C"; ""; "D"]]; None; Some [["x"]]] _ _).
    + discriminate.
    + repeat constructor; vm_compute; reflexivity.
Defined.

(** C8, as stated, fails on a blank document: with no TABLE block and no
    LINE block the artifact is empty, the header row is not written. *)
Lemma blank_document_counterexample :
  parse_tables_to_csv_data (mk_blocks_map blank_blocks) blank_blocks = Ok [] /\
  assembled_lines [] <> [lines_header].
Proof. split; [reflexivity | discriminate]. Qed.

(** The label rule also departs from "before every table except the
    first": the second table gets no separator and no label when the first
    one is skipped. *)
Lemma skipped_first_table_no_label :
  parse_tables_to_csv_data (mk_blocks_map small_table_blocks) [empty_table; small_table] =
    Ok [ ["x"] ].
Proof. reflexivity. Qed.

(** ** Failures of one table *)

Lemma spatial_exception_caught (blocks_map : gmap string Block) (table : Block) (e : error) :
  spatial_body blocks_map table = Raise e ->
  reconstruct_table_structure_spatially blocks_map table = None.
Proof. unfold reconstruct_table_structure_spatially. by intros ->. Qed.

Lemma csv_table_step_fallback (blocks_map : gmap string Block) (table : Block)
    (all_csv_rows : list (list string)) (table_num : nat) :
  reconstruct_table_structure_spatially blocks_map table = None ->
  csv_table_step blocks_map all_csv_rows (table_num, table) =
  (structural_csv_rows blocks_map table ≫= fun body =>
     Ok (all_csv_rows ++
         table_piece (negb (bool_decide (all_csv_rows = []))) table_num (table, body))).
Proof.
  intros Hnone. unfold csv_table_step, table_piece, table_label. rewrite Hnone.
  destruct (structural_csv_rows blocks_map table) as [body|e]; simpl.
  - destruct all_csv_rows, body; simpl; by rewrite <- ?app_assoc, ?app_nil_r.
  - by destruct all_csv_rows.
Qed.

Lemma json_table_step_fallback (blocks_map : gmap string Block) (table : Block)
    (out_tables : list TableData) :
  reconstruct_table_structure_spatially blocks_map table = None ->
  json_table_step blocks_map out_tables table =
  (structural_table_data blocks_map table ≫= fun table_data =>
     Ok (out_tables ++ option_list table_data)).
Proof.
  intros Hnone. unfold json_table_step. rewrite Hnone.
  destruct (structural_table_data blocks_map table) as [[td|]|e]; simpl;
    by rewrite ?app_nil_r.
Qed.

(** C5 (amended). An exception raised inside the spatial reconstruction of
    a table is caught there and counts as a spatial failure.  After a
    spatial failure both assemblers run the structural fallback for that
    table.  When the fallback finds no cell block the table is skipped and
    the loop goes on with the remaining tables (the tabular artifact still
    gets the table's separator and label rows when rows were emitted
    before).  An exception raised by the structural fallback is not caught
    at the table boundary: it ends the loop over the tables and is the
    outcome of the whole assembly. *)
Theorem table_failure_handling (blocks_map : gmap string Block) (table : Block) :
  (forall e, spatial_body blocks_map table = Raise e ->
     reconstruct_table_structure_spatially blocks_map table = None) /\
  (reconstruct_table_structure_spatially blocks_map table = None ->
   (forall all_csv_rows table_num,
      csv_table_step blocks_map all_csv_rows (table_num, table) =
      (structural_csv_rows blocks_map table ≫= fun body =>
         Ok (all_csv_rows ++
             table_piece (negb (bool_decide (all_csv_rows = []))) table_num (table, body)))) /\
   (forall out_tables,
      json_table_step blocks_map out_tables table =
      (structural_table_data blocks_map table ≫= fun table_data =>
         Ok (out_tables ++ option_list table_data))) /\
   (cell_blocks_in_table blocks_map table = [] ->
    (forall all_csv_rows table_num rest,
       for_each (csv_table_step blocks_map) ((table_num, table) :: rest) all_csv_rows =
       for_each (csv_table_step blocks_map) rest
         (all_csv_rows ++
          table_piece (negb (bool_decide (all_csv_rows = []))) table_num (table, None))) /\
    (forall out_tables rest,
       for_each (json_table_step blocks_map) (table :: rest) out_tables =
       for_each (json_table_step blocks_map) rest out_tables)) /\
   (forall e all_csv_rows table_num rest,
      structural_csv_rows blocks_map table = Raise e ->
      for_each (csv_table_step blocks_map) ((table_num, table) :: rest) all_csv_rows = Raise e) /\
   (forall e out_tables rest,
      structural_table_data blocks_map table = Raise e ->
      for_each (json_table_step blocks_map) (table :: rest) out_tables = Raise e)).
Proof.
  split; [intros e; apply spatial_exception_caught|].
  intros Hnone.
  split; [intros; by apply csv_table_step_fallback|].
  split; [intros; by apply json_table_step_fallback|].
  split; [|split].
  - intros Hcells. split.
    + intros acc n rest. rewrite for_each_cons, csv_table_step_fallback by done.
      unfold structural_csv_rows. by rewrite Hcells.
    + intros out rest. rewrite for_each_cons, json_table_step_fallback by done.
      unfold structural_table_data. rewrite Hcells. simpl. by rewrite app_nil_r.
  - intros e acc n rest He.
    by rewrite for_each_cons, csv_table_step_fallback, He.
  - intros e out rest He.
    by rewrite for_each_cons, json_table_step_fallback, He.
Qed.

Lemma table_failure_handling_witness :
  spatial_body (mk_blocks_map looping_blocks) looping_table = Raise RecursionError /\
  reconstruct_table_structure_spatially (mk_blocks_map looping_blocks) looping_table = None /\
  parse_tables_to_csv_data (mk_blocks_map (looping_blocks ++ small_table_blocks))
    [looping_table; empty_table; small_table] =
    Ok [ ["again"]; []; ["--- Table 2 (Page 1) ---"]; []; ["--- Table 3 (Page 1) ---"]; ["x"] ].
Proof.
  assert (spatial_body (mk_blocks_map looping_blocks) looping_table = Raise RecursionError)
    as Hraise by (vm_compute; reflexivity).
  split; [exact Hraise|]. split.
  - exact (proj1 (table_failure_handling (mk_blocks_map looping_blocks) looping_table)
             RecursionError Hraise).
  - vm_compute. reflexivity.
Defined.

(** C5, as stated, fails for the structural fallback: the cell of the first
    table has no RowIndex, the [KeyError] leaves the loop over the tables,
    and neither artifact is produced (the sound second table is never
    reached). *)
Lemma structural_exception_counterexample :
  reconstruct_table_structure_spatially (mk_blocks_map broken_blocks) broken_table = None /\
  parse_tables_to_csv_data (mk_blocks_map broken_blocks) broken_blocks =
    Raise (KeyError "RowIndex") /\
  parse_blocks_to_structured_json false no_chat (mk_blocks_map broken_blocks) broken_blocks
    "k" "j" = Raise (KeyError "RowIndex").
Proof. repeat split; vm_compute; reflexivity. Qed.

(** ** The clean 2×2 grid *)

(** Divisions by constants become multiplications, which [lra] reads. *)
Ltac qnorm :=
  unfold Qdiv, Qlen in *; cbn [length] in *;
  repeat match goal with
         | |- context [Qinv ?c] =>
             let v := eval vm_compute in (Qinv c) in
             progress change (Qinv c) with v
         | H : context [Qinv ?c] |- _ =>
             let v := eval vm_compute in (Qinv c) in
             progress change (Qinv c) with v in H
         end.

Lemma sort_by_chain {A} (leb : A -> A -> bool) (l : list A) :
  chain leb l = true -> sort_by leb l = l.
Proof.
  unfold sort_by. induction l as [|x l IH]; simpl; [done|].
  destruct l as [|y l]; [done|].
  intros [Hxy Hrest]%andb_prop. rewrite IH by done. simpl. by rewrite Hxy.
Qed.

Lemma Qleb_abs_true (x tol : Q) : (- tol <= x)%Q -> (x <= tol)%Q -> Qleb (Qabs x) tol = true.
Proof. intros H1 H2. apply Qleb_le, Qabs_Qle_condition. by split. Qed.

Lemma Qleb_abs_false (x tol : Q) : (tol < x)%Q -> Qleb (Qabs x) tol = false.
Proof. intros H. apply Qleb_gt. eapply Qlt_le_trans; [exact H | apply Qle_Qabs]. Qed.


Lemma Qeq_bool_true (x y : Q) : (x == y)%Q -> Qeq_bool x y = true.
Proof. apply Qeq_bool_iff. Qed.

Lemma Qeq_bool_false (x y : Q) : ~ (x == y)%Q -> Qeq_bool x y = false.
Proof. intros H. apply not_true_iff_false. by rewrite Qeq_bool_iff. Qed.

Ltac q_test :=
  match goal with
  | |- context [Qeq_bool ?a ?b] =>
      first [ rewrite (Qeq_bool_true a b) by (qnorm; lra)
            | rewrite (Qeq_bool_false a b) by (intros ?; qnorm; lra) ]
  | |- context [Qleb (Qabs ?a) ?b] =>
      first [ rewrite (Qleb_abs_true a b) by (qnorm; lra)
            | rewrite (Qleb_abs_false a b) by (qnorm; lra) ]
  | |- context [Qleb ?a ?b] =>
      first [ rewrite (proj2 (Qleb_le a b)) by (qnorm; lra)
            | rewrite (proj2 (Qleb_gt a b)) by (qnorm; lra) ]
  | |- context [Qltb ?a ?b] =>
      first [ rewrite (proj2 (Qltb_lt a b)) by (qnorm; lra)
            | rewrite (proj2 (Qltb_ge a b)) by (qnorm; lra) ]
  end.














Lemma extract_single_word (blocks_map : gmap string Block) (depth : nat) (cell : Block)
    (word_id : string) (word : Block) :
  child_ids cell = [word_id] -> blocks_map !! word_id = Some word -> BlockType word = "WORD" ->
  extract_words_from_cell blocks_map (S depth) cell = Ok [word].
Proof.
  intros Hids Hlook Hty. cbn [extract_words_from_cell]. rewrite Hids. cbn [for_each].
  rewrite Hlook, decide_True by done. reflexivity.
Qed.

Lemma cell_step_word (blocks_map : gmap string Block) (cell_id : string) (word : Block)
    (word_blocks : list Block) (rest : list string) :
  word_in_cell blocks_map cell_id word ->
  for_each
    (fun word_blocks cell_id =>
       match blocks_map !! cell_id with
       | Some cell_block =>
           if decide (BlockType cell_block = "CELL") then
             cell_words ← extract_words_from_cell blocks_map recursion_limit cell_block;
             Ok (word_blocks ++ cell_words)
           else Ok word_blocks
       | None => Ok word_blocks
       end)
    (cell_id :: rest) word_blocks =
  for_each
    (fun word_blocks cell_id =>
       match blocks_map !! cell_id with
       | Some cell_block =>
           if decide (BlockType cell_block = "CELL") then
             cell_words ← extract_words_from_cell blocks_map recursion_limit cell_block;
             Ok (word_blocks ++ cell_words)
           else Ok word_blocks
       | None => Ok word_blocks
       end)
    rest (word_blocks ++ [word]).
Proof.
  intros (cell & word_id & Hcell & Hty & Hids & Hword & Hwty).
  rewrite for_each_cons, Hcell, decide_True by done.
  change recursion_limit with (S (pred recursion_limit)).
  by rewrite (extract_single_word blocks_map _ cell word_id word).
Qed.

Lemma spatial_word_of_at (word : Block) (l t w h : Q) :
  word_at word l t w h ->
  spatial_word_of word =
  Some (spatial_word (Id word) (word_text word) (default 0%Q (Confidence word)) l t w h).
Proof. unfold word_at, spatial_word_of. by intros ->. Qed.




(** * Further properties *)

(** ** The block index *)

Lemma mk_blocks_map_snoc (blocks : list Block) (b : Block) :
  mk_blocks_map (blocks ++ [b]) = <[Id b := b]> (mk_blocks_map blocks).
Proof. unfold mk_blocks_map. by rewrite fold_left_app. Qed.

(** X1. The index built from the block list holds, under every identifier,
    a block of the list with that identifier, and holds one for every block
    of the list; when several blocks carry the same identifier, the last
    one in the list is the one kept. *)
Theorem blocks_map_lookup (blocks : list Block) :
  (forall id b, mk_blocks_map blocks !! id = Some b -> b ∈ blocks /\ Id b = id) /\
  (forall b, b ∈ blocks -> exists b', mk_blocks_map blocks !! Id b = Some b' /\ Id b' = Id b) /\
  (forall before b after,
     blocks = before ++ b :: after -> (forall b', b' ∈ after -> Id b' <> Id b) ->
     mk_blocks_map blocks !! Id b = Some b).
Proof.
  split; [|split].
  - induction blocks as [|x blocks IH] using rev_ind.
    + intros id b. unfold mk_blocks_map; simpl. by rewrite lookup_empty.
    + intros id b. rewrite mk_blocks_map_snoc. destruct (decide (Id x = id)) as [<-|Hne].
      * rewrite lookup_insert_eq. intros [= <-]. split; [|done].
        apply elem_of_app. right. by left.
      * rewrite lookup_insert_ne by done. intros [Hin Hid]%IH. split; [|done].
        apply elem_of_app. by left.
  - induction blocks as [|x blocks IH] using rev_ind.
    + intros b Hin. by apply elem_of_nil in Hin.
    + intros b Hin. rewrite mk_blocks_map_snoc. destruct (decide (Id x = Id b)) as [Heq|Hne].
      * rewrite Heq, lookup_insert_eq. eauto.
      * rewrite lookup_insert_ne by done. apply IH.
        apply elem_of_app in Hin as [Hin|Hin]; [done|].
        apply list_elem_of_singleton in Hin. congruence.
  - intros before b after -> Hafter.
    induction after as [|x after IH] using rev_ind.
    + rewrite mk_blocks_map_snoc. apply lookup_insert_eq.
    + replace (before ++ b :: after ++ [x]) with ((before ++ b :: after) ++ [x])
        by (by rewrite <- app_assoc).
      rewrite mk_blocks_map_snoc, lookup_insert_ne.
      * apply IH. intros b' Hb'. apply Hafter. set_solver.
      * apply Hafter. set_solver.
Qed.

(** ** Row clustering *)

Lemma cluster_step_invariant (row_tolerance : Q) (done_ : list SpatialWord)
    (st : list (list SpatialWord) * list SpatialWord) (word : SpatialWord) :
  concat st.1 ++ st.2 = done_ /\ Forall (fun row => row <> []) st.1 ->
  concat (cluster_step row_tolerance st word).1 ++ (cluster_step row_tolerance st word).2 =
    done_ ++ [word] /\
  Forall (fun row => row <> []) (cluster_step row_tolerance st word).1 /\
  (cluster_step row_tolerance st word).2 <> [].
Proof.
  destruct st as [rows current_row]. simpl. intros [Hdone Hrows].
  destruct current_row as [|w current_row]; simpl.
  - rewrite app_nil_r in Hdone. by rewrite Hdone.
  - destruct (Qleb _ _); simpl.
    + rewrite <- Hdone. split; [by rewrite <- !app_assoc|]. split; [done|].
      by destruct current_row.
    + rewrite concat_app. simpl. rewrite app_nil_r, <- Hdone. split; [done|].
      split; [|done]. apply Forall_app. split; [done|]. by repeat constructor.
Qed.

Lemma cluster_fold_invariant (row_tolerance : Q) (words done_ : list SpatialWord)
    (st : list (list SpatialWord) * list SpatialWord) :
  concat st.1 ++ st.2 = done_ -> Forall (fun row => row <> []) st.1 ->
  let st' := fold_left (cluster_step row_tolerance) words st in
  concat st'.1 ++ st'.2 = done_ ++ words /\ Forall (fun row => row <> []) st'.1.
Proof.
  revert done_ st. induction words as [|word words IH]; intros done_ st Hdone Hrows; simpl.
  - by rewrite app_nil_r.
  - destruct (cluster_step_invariant row_tolerance done_ st word) as (H1 & H2 & _); [done|].
    destruct (IH (done_ ++ [word]) (cluster_step row_tolerance st word) H1 H2) as [H3 H4].
    split; [|done]. by rewrite H3, <- app_assoc.
Qed.

Lemma cluster_rows_concat (row_tolerance : Q) (spatial_words : list SpatialWord) :
  concat (cluster_rows row_tolerance spatial_words) = spatial_words /\
  Forall (fun row => row <> []) (cluster_rows row_tolerance spatial_words).
Proof.
  unfold cluster_rows.
  destruct (cluster_fold_invariant row_tolerance spatial_words [] ([], [])) as [Hcat Hrows];
    [done | constructor |].
  simpl in Hcat. destruct (fold_left _ _ _) as [rows current_row]; simpl in *.
  destruct current_row as [|w current_row].
  - by rewrite app_nil_r in Hcat.
  - split.
    + rewrite concat_app. simpl. by rewrite app_nil_r.
    + apply Forall_app. split; [done|]. by repeat constructor.
Qed.

Lemma nonempty_rows_length {A} (rows : list (list A)) :
  Forall (fun row => row <> []) rows -> length rows <= length (concat rows).
Proof.
  induction 1 as [|r rs Hr _ IH]; simpl; [lia|].
  rewrite length_app. destruct r; [done | simpl; lia].
Qed.

(** X2. Row clustering is a partition of the sorted words into consecutive
    runs: concatenating the rows gives back the words in their order, and
    no row is empty; so no word is lost, repeated or moved across rows, and
    there are at most as many rows as words. *)
Theorem cluster_rows_partition (row_tolerance : Q) (spatial_words : list SpatialWord) :
  concat (cluster_rows row_tolerance spatial_words) = spatial_words /\
  Forall (fun row => row <> []) (cluster_rows row_tolerance spatial_words) /\
  length (cluster_rows row_tolerance spatial_words) <= length spatial_words /\
  (spatial_words <> [] -> cluster_rows row_tolerance spatial_words <> []).
Proof.
  destruct (cluster_rows_concat row_tolerance spatial_words) as [Hcat Hrows].
  split; [done|]. split; [done|]. split.
  - rewrite <- Hcat at 2. by apply nonempty_rows_length.
  - intros Hne Hnil. rewrite Hnil in Hcat. simpl in Hcat. congruence.
Qed.

(** ** Tolerances and sizes of a reconstructed grid *)

Lemma row_tolerance_of_bounds (avg_word_height : Q) :
  (0.005 <= row_tolerance_of avg_word_height <= 0.02)%Q.
Proof.
  unfold row_tolerance_of. split; [apply Q.le_max_l|].
  apply Q.max_lub; [done | apply Q.le_min_l].
Qed.

Lemma boundary_tolerance_of_bounds (doc_width : Q) :
  (0.01 <= boundary_tolerance_of doc_width <= 0.03)%Q.
Proof.
  unfold boundary_tolerance_of. split; [apply Q.le_max_l|].
  apply Q.max_lub; [done | apply Q.le_min_l].
Qed.

Lemma merge_boundary_length (tol x : Q) (bs merged : list Q) :
  merge_boundary tol x bs = Some merged -> length merged = length bs.
Proof.
  revert merged. induction bs as [|b bs IH]; intros merged; simpl; [discriminate|].
  destruct (Qleb _ _); [by intros [= <-]|].
  destruct (merge_boundary tol x bs) as [m|]; simpl; [|discriminate].
  intros [= <-]. simpl. by rewrite (IH m).
Qed.

Lemma boundary_fold_length (tol : Q) (xs bs : list Q) :
  length (fold_left (boundary_step tol) xs bs) <= length bs + length xs.
Proof.
  revert bs. induction xs as [|x xs IH]; intros bs; simpl; [lia|].
  etrans; [apply IH|]. unfold boundary_step.
  destruct (merge_boundary tol x bs) as [m|] eqn:Hm.
  - apply merge_boundary_length in Hm. lia.
  - rewrite length_app. simpl. lia.
Qed.

Lemma dedup_Q_length (l : list Q) : length (dedup_Q l) <= length l.
Proof.
  induction l as [|x l IH]; simpl; [lia|].
  assert (forall (f : Q -> bool) (k : list Q), length (List.filter f k) <= length k) as Hf.
  { intros f k. induction k as [|y k IHk]; simpl; [lia|]. destruct (f y); simpl; lia. }
  specialize (Hf (fun y => negb (Qeq_bool x y)) (dedup_Q l)). lia.
Qed.

Lemma reconstruct_spatially_words (blocks_map : gmap string Block) (table : Block)
    (st : SpatialTable) :
  reconstruct_table_structure_spatially blocks_map table = Some st ->
  exists spatial_words,
    spatial_words <> [] /\ reconstruct_from_spatial_words table spatial_words = Some st.
Proof.
  unfold reconstruct_table_structure_spatially, spatial_body.
  destruct (table_word_blocks _ _) as [word_blocks|e]; simpl; [|discriminate].
  unfold reconstruct_from_words. destruct word_blocks; [discriminate|].
  destruct (omap _ _) as [|sw sws] eqn:Hw; [discriminate|].
  intros Hst. by exists (sw :: sws).
Qed.

(** X3. Whatever the words, the tolerances a reconstructed table reports
    stay inside their clamps: the row tolerance is between 0.005 and 0.02
    and the boundary tolerance between 0.01 and 0.03. *)
Theorem reconstructed_tolerances (blocks_map : gmap string Block) (table : Block)
    (st : SpatialTable) :
  reconstruct_table_structure_spatially blocks_map table = Some st ->
  (0.005 <= row_tolerance (reconstruction_metadata st) <= 0.02)%Q /\
  (0.01 <= boundary_tolerance (reconstruction_metadata st) <= 0.03)%Q.
Proof.
  intros (sws & _ & Hst)%reconstruct_spatially_words. revert Hst.
  unfold reconstruct_from_spatial_words.
  destruct (_ <? 1)%nat; [discriminate|]. destruct (_ <? 2)%nat; [discriminate|].
  intros [= <-]. simpl. split; [apply row_tolerance_of_bounds | apply boundary_tolerance_of_bounds].
Qed.

Lemma reconstructed_tolerances_witness :
  exists st,
    reconstruct_table_structure_spatially (mk_blocks_map grid_blocks) grid_table = Some st /\
    (0.005 <= row_tolerance (reconstruction_metadata st) <= 0.02)%Q /\
    (0.01 <= boundary_tolerance (reconstruction_metadata st) <= 0.03)%Q.
Proof.
  destruct (reconstruct_table_structure_spatially (mk_blocks_map grid_blocks) grid_table)
    as [st|] eqn:Hst; [|vm_compute in Hst; discriminate].
  exists st. split; [reflexivity|].
  exact (reconstructed_tolerances (mk_blocks_map grid_blocks) grid_table st Hst).
Defined.

(** X4. A reconstructed table is never larger than its words allow: it has
    at least one row and at most as many rows as words with a valid
    bounding box, and at least one column and fewer columns than twice that
    number of words (every word brings two edges, and n boundaries make
    n - 1 columns). *)
Theorem reconstructed_size (blocks_map : gmap string Block) (table : Block)
    (st : SpatialTable) :
  reconstruct_table_structure_spatially blocks_map table = Some st ->
  1 <= row_count st <= word_count (reconstruction_metadata st) /\
  1 <= column_count st < 2 * word_count (reconstruction_metadata st).
Proof.
  intros (sws & _ & Hst)%reconstruct_spatially_words. revert Hst.
  unfold reconstruct_from_spatial_words. cbv zeta.
  set (words := sort_key sw_top sws).
  set (tol := row_tolerance_of _).
  set (rows := cluster_rows tol words).
  set (edges := flat_map _ (map (sort_key sw_left) rows)).
  set (xs := sort_key id (dedup_Q edges)).
  set (btol := boundary_tolerance_of _).
  set (bs := fold_left (boundary_step btol) xs []).
  destruct (length rows <? 1)%nat eqn:Hrows; [discriminate|].
  destruct (length (sort_key id bs) <? 2)%nat eqn:Hcols; [discriminate|].
  intros [= <-]. cbn [row_count column_count reconstruction_metadata word_count].
  apply Nat.ltb_ge in Hrows, Hcols.
  rewrite length_map, mk_column_ranges_length.
  unfold sort_key in Hcols |- *. rewrite sort_by_length in Hcols. rewrite sort_by_length.
  destruct (cluster_rows_concat tol words) as (Hcat & Hlen%nonempty_rows_length).
  rewrite Hcat in Hlen. fold rows in Hcat, Hlen.
  pose proof (boundary_fold_length btol xs []) as Hfold. fold bs in Hfold.
  assert (length xs <= length edges) as Hxs.
  { subst xs. unfold sort_key. rewrite sort_by_length. apply dedup_Q_length. }
  assert (length edges = 2 * length words) as Hedges.
  { subst edges. rewrite <- Hcat. clear. induction rows as [|r rows IH]; simpl; [done|].
    rewrite !length_app, IH. unfold sort_key at 1.
    assert (forall ws : list SpatialWord,
              length (flat_map (fun word => [sw_left word; sw_right word]) ws) = 2 * length ws)
      as Hrow.
    { induction ws as [|w ws IHw]; simpl; [done|]. rewrite IHw. lia. }
    rewrite Hrow, sort_by_length. lia. }
  simpl in Hfold. clearbody bs xs edges rows words. lia.
Qed.

Lemma reconstructed_size_witness :
  exists st,
    reconstruct_table_structure_spatially (mk_blocks_map grid_blocks) grid_table = Some st /\
    1 <= row_count st <= word_count (reconstruction_metadata st) /\
    1 <= column_count st < 2 * word_count (reconstruction_metadata st).
Proof.
  destruct (reconstruct_table_structure_spatially (mk_blocks_map grid_blocks) grid_table)
    as [st|] eqn:Hst; [|vm_compute in Hst; discriminate].
  exists st. split; [reflexivity|].
  exact (reconstructed_size (mk_blocks_map grid_blocks) grid_table st Hst).
Defined.

(** ** The cells of a reconstructed row *)

Lemma dict_get_None {V} (k : nat) (d : list (nat * V)) : dict_get k d = None <-> k ∉ d.*1.
Proof.
  induction d as [|[k' v] d IH]; simpl.
  - split; [intros _; apply not_elem_of_nil | done].
  - destruct (decide (k = k')) as [->|Hne].
    + split; [discriminate | intros Hk; exfalso; apply Hk; by left].
    + rewrite IH. split; [intros Hk Hin | intros Hk Hin; apply Hk; by right].
      apply elem_of_cons in Hin as [?|?]; done.
Qed.

Section RowCells.
Variable column_ranges : list ColumnRange.

Lemma column_group_snoc (c : nat) (seen : list SpatialWord) (word : SpatialWord) :
  column_group column_ranges c (seen ++ [word]) =
  column_group column_ranges c seen ++
  (if decide (c = get_column_index column_ranges word) then [word] else []).
Proof.
  unfold column_group. rewrite List.filter_app. simpl.
  destruct (Nat.eqb_spec (get_column_index column_ranges word) c) as [Heq|Hne].
  - by rewrite decide_True.
  - by rewrite decide_False by congruence.
Qed.

Lemma group_step_grouped (column_words : list (nat * list SpatialWord))
    (seen : list SpatialWord) (word : SpatialWord) :
  grouped column_ranges column_words seen ->
  grouped column_ranges (group_step column_ranges column_words word) (seen ++ [word]).
Proof.
  intros [Hnd Hget]. unfold group_step.
  destruct (dict_get (get_column_index column_ranges word) column_words) as [ws|] eqn:Hcol.
  - split; [by rewrite dict_set_keys by eauto|].
    intros c. rewrite dict_get_set by eauto. rewrite column_group_snoc.
    case_decide as Hc.
    + subst c. rewrite Hget in Hcol.
      destruct (column_group column_ranges _ seen) as [|w0 group]; [discriminate|].
      by injection Hcol as <-.
    + rewrite app_nil_r. apply Hget.
  - split.
    + rewrite fmap_app. apply NoDup_app. split; [done|]. split.
      * intros k Hk ->%list_elem_of_singleton. by apply dict_get_None in Hcol.
      * apply NoDup_singleton.
    + intros c. rewrite dict_get_app_new by done. rewrite column_group_snoc.
      case_decide as Hc.
      * subst c. rewrite Hget in Hcol.
        by destruct (column_group column_ranges _ seen).
      * rewrite app_nil_r. apply Hget.
Qed.

Lemma group_fold_grouped (row_words seen : list SpatialWord)
    (column_words : list (nat * list SpatialWord)) :
  grouped column_ranges column_words seen ->
  grouped column_ranges (fold_left (group_step column_ranges) row_words column_words)
    (seen ++ row_words).
Proof.
  revert seen column_words. induction row_words as [|word row_words IH];
    intros seen column_words Hg; simpl.
  - by rewrite app_nil_r.
  - replace (seen ++ word :: row_words) with ((seen ++ [word]) ++ row_words)
      by (by rewrite <- app_assoc).
    apply IH. by apply group_step_grouped.
Qed.

(** The second loop: every entry overwrites the cell of its column. *)
Lemma combine_fold_lookup (entries : list (nat * list SpatialWord)) (st : list string * list Q)
    (c : nat) :
  NoDup entries.*1 -> Forall (fun k => k < length st.1) entries.*1 ->
  length st.2 = length st.1 ->
  let st' := fold_left combine_step entries st in
  st'.1 !! c =
    match dict_get c entries with
    | Some words =>
        if decide (c < length st.1)
        then Some (strip (join " " (map sw_text (sort_key sw_left words))))
        else None
    | None => st.1 !! c
    end /\
  st'.2 !! c =
    match dict_get c entries with
    | Some words =>
        if decide (c < length st.1)
        then Some (round2 (Qsum (map sw_confidence (sort_key sw_left words)) /
                           Qlen (sort_key sw_left words)))
        else None
    | None => st.2 !! c
    end.
Proof.
  revert st. induction entries as [|[k words] entries IH]; intros [cells confs] Hnd Hkeys Hlen;
    simpl in *; [done|].
  apply NoDup_cons in Hnd as [Hk Hnd]. apply Forall_cons in Hkeys as [Hklt Hkeys].
  destruct (Nat.ltb_spec k (length cells)) as [_|?]; [|lia].
  destruct (IH (<[k := strip (join " " (map sw_text (sort_key sw_left words)))]> cells,
                <[k := round2 (Qsum (map sw_confidence (sort_key sw_left words)) /
                               Qlen (sort_key sw_left words))]> confs))
    as [IH1 IH2]; simpl.
  { done. }
  { by rewrite length_insert. }
  { by rewrite !length_insert. }
  simpl in IH1, IH2. rewrite IH1, IH2, !length_insert.
  destruct (decide (c = k)) as [->|Hne].
  - apply dict_get_None in Hk. rewrite Hk.
    rewrite !list_lookup_insert_eq by lia. destruct (decide (k < length cells)); [done | lia].
  - destruct (dict_get c entries); [done|].
    by rewrite !list_lookup_insert_ne by done.
Qed.

End RowCells.

(** X5. In a reconstructed row, the cell of column c holds exactly the words
    of the row assigned to column c: its text is their texts in left-to-right
    order joined by single spaces and trimmed, its confidence the rounded
    mean of their confidences; a column without a word gets the empty text
    and confidence 0.  Cells are numbered from 1. *)
Theorem build_row_cells (column_ranges : list ColumnRange) (row_idx : nat)
    (row_words : list SpatialWord) (c : nat) :
  c < length column_ranges ->
  cells (build_row column_ranges row_idx row_words) !! c =
  Some {| column_index := Z.of_nat c + 1;
          sc_text := group_text (column_group column_ranges c row_words);
          sc_confidence := group_confidence (column_group column_ranges c row_words) |}.
Proof.
  intros Hc. unfold build_row.
  assert (column_ranges <> []) as Hne by (intros ->; simpl in Hc; lia).
  set (column_words := fold_left (group_step column_ranges) row_words []).
  destruct (group_fold_grouped column_ranges row_words [] []) as [Hnd Hget].
  { split; [constructor | done]. }
  simpl in Hget. fold column_words in Hnd, Hget.
  assert (Forall (fun k => k < length column_ranges) column_words.*1) as Hkeys.
  { apply (fold_left_invariant (fun cw => Forall (fun k => k < length column_ranges) cw.*1)).
    - intros; by apply group_step_keys.
    - constructor. }
  destruct (combine_fold_lookup column_words
              (replicate (length column_ranges) "", replicate (length column_ranges) 0%Q) c)
    as [Htext Hconf]; simpl; [done | by rewrite length_replicate | by rewrite !length_replicate |].
  simpl in Htext, Hconf. rewrite length_replicate in Htext, Hconf.
  rewrite lookup_replicate_2 in Htext by done.
  rewrite lookup_replicate_2 in Hconf by done.
  destruct (fold_left combine_step column_words _) as [row_cells row_confidences].
  simpl in Htext, Hconf. cbn [cells]. rewrite list_lookup_imap.
  rewrite Hget in Htext, Hconf.
  destruct (column_group column_ranges c row_words) as [|w group]; simpl.
  - rewrite Htext. simpl. by rewrite Hconf.
  - rewrite decide_True in Htext by done. rewrite decide_True in Hconf by done.
    rewrite Htext. simpl. by rewrite Hconf.
Qed.

Lemma build_row_cells_witness :
  cells (build_row sample_ranges 0
           [spatial_word "a" "total" 90 0.125 0.5 0.03125 0.015625;
            spatial_word "b" "due" 80 0.1875 0.5 0.03125 0.015625]) !! 0%nat =
  Some {| column_index := 1; sc_text := "total due"; sc_confidence := 85 |}.
Proof.
  exact (build_row_cells sample_ranges 0
           [spatial_word "a" "total" 90 0.125 0.5 0.03125 0.015625;
            spatial_word "b" "due" 80 0.1875 0.5 0.03125 0.015625] 0
           (Nat.lt_0_succ 1)).
Defined.

(** ** A table of one word *)

Lemma boundary_tolerance_below (doc_width w : Q) :
  (doc_width == w)%Q -> (0.01 < w)%Q -> (boundary_tolerance_of doc_width < w)%Q.
Proof.
  intros Hdw Hw. unfold boundary_tolerance_of. apply Q.max_lub_lt; [done|].
  eapply Qle_lt_trans; [apply Q.le_min_r|]. lra.
Qed.

Lemma edges_pair_extent (e1 e2 : Q) :
  (e1 < e2)%Q -> py_max [e1; e2] = Some e2 /\ py_min [e1; e2] = Some e1.
Proof.
  intros H12. unfold py_max, py_min. cbn [fold_left]. repeat q_test. done.
Qed.

Lemma boundaries_pair (tol e1 e2 : Q) :
  fold_left (boundary_step tol) [e1; e2] [] =
  if Qleb (Qabs (e2 - e1)) tol then [((e1 + e2) / 2)%Q] else [e1; e2].
Proof.
  cbn [fold_left]. unfold boundary_step at 2. cbn [merge_boundary app].
  unfold boundary_step. cbn [merge_boundary].
  by destruct (Qleb (Qabs (e2 - e1)) tol).
Qed.

Lemma build_row_one (column_ranges : list ColumnRange) (row_idx : nat) (a : SpatialWord) :
  length column_ranges = 1%nat ->
  get_column_index column_ranges a = 0%nat ->
  map sc_text (cells (build_row column_ranges row_idx [a])) = [strip (sw_text a)].
Proof.
  intros Hlen Ha. unfold build_row. rewrite Hlen.
  cbn [fold_left]. unfold group_step. rewrite Ha. cbn. reflexivity.
Qed.

Lemma single_word_core (table : Block) (word_id text : string) (conf l t w h : Q) :
  (0 <= w)%Q ->
  ((w <= 0.01)%Q ->
   reconstruct_from_spatial_words table [spatial_word word_id text conf l t w h] = None) /\
  ((0.01 < w)%Q ->
   exists st,
     reconstruct_from_spatial_words table [spatial_word word_id text conf l t w h] = Some st /\
     row_count st = 1%nat /\ column_count st = 1%nat /\ spatial_texts st = [[strip text]]).
Proof.
  intros Hw0.
  assert (forall tol, cluster_rows tol [spatial_word word_id text conf l t w h] =
                      [[spatial_word word_id text conf l t w h]]) as Hrows by done.
  split.
  - intros Hsmall. unfold reconstruct_from_spatial_words. cbv zeta.
    change (sort_key sw_top [spatial_word word_id text conf l t w h])
      with [spatial_word word_id text conf l t w h].
    rewrite Hrows. cbn [length Nat.ltb Nat.leb map].
    change (sort_key sw_left [spatial_word word_id text conf l t w h])
      with [spatial_word word_id text conf l t w h].
    cbn [flat_map app sw_left sw_right spatial_word dedup_Q List.filter].
    destruct (Qeq_bool l (l + w)) eqn:Heq; cbn [negb dedup_Q List.filter].
    + reflexivity.
    +
      assert (~ (l == l + w)%Q) as Hne by (by apply Qeq_bool_neq).
      assert (sort_key id [l; (l + w)%Q] = [l; (l + w)%Q]) as ->
        by (apply sort_by_chain; cbn [chain id]; repeat q_test; reflexivity).
      destruct (edges_pair_extent l (l + w)) as [-> ->]; [lra|].
      pose proof (boundary_tolerance_of_bounds (l + w - l)) as [Hb _].
      set (btol := boundary_tolerance_of (l + w - l)) in *.
      rewrite boundaries_pair, Qleb_abs_true by lra. reflexivity.
  - intros Hwide. unfold reconstruct_from_spatial_words. cbv zeta.
    change (sort_key sw_top [spatial_word word_id text conf l t w h])
      with [spatial_word word_id text conf l t w h].
    rewrite Hrows. cbn [length Nat.ltb Nat.leb map].
    change (sort_key sw_left [spatial_word word_id text conf l t w h])
      with [spatial_word word_id text conf l t w h].
    cbn [flat_map app sw_left sw_right spatial_word dedup_Q List.filter].
    rewrite (Qeq_bool_false l (l + w)) by (intros ?; lra). cbn [negb dedup_Q List.filter].
    assert (sort_key id [l; (l + w)%Q] = [l; (l + w)%Q]) as ->
      by (apply sort_by_chain; cbn [chain id]; repeat q_test; reflexivity).
    destruct (edges_pair_extent l (l + w)) as [-> ->]; [lra|].
    pose proof (boundary_tolerance_of_bounds (l + w - l)) as [Hb _].
    assert (boundary_tolerance_of (l + w - l) < w)%Q as Hlt
      by (apply boundary_tolerance_below; [lra | done]).
    set (btol := boundary_tolerance_of (l + w - l)) in *.
    rewrite boundaries_pair, Qleb_abs_false by lra.
    assert (sort_key id [l; (l + w)%Q] = [l; (l + w)%Q]) as ->
      by (apply sort_by_chain; cbn [chain id]; repeat q_test; reflexivity).
    cbn [length Nat.ltb Nat.leb].
    eexists. split; [reflexivity|]. cbn [row_count column_count length mk_column_ranges].
    split; [reflexivity|]. split; [reflexivity|].
    unfold spatial_texts. cbn [rows imap map].
    rewrite build_row_one; [reflexivity | reflexivity |].
    unfold get_column_index. cbn [mk_column_ranges containing_range cr_start cr_end
                                  sw_center_x spatial_word].
    repeat q_test. reflexivity.
Qed.

(** X6. A table whose only CELL child holds a single word that starts on
    the page ([0 <= l <= 1]).  When the word is at most 0.0099 wide its two
    edges merge into one boundary and the spatial reconstruction gives no
    result, so the caller falls back to the structural path; when it is
    between 0.0101 and 1 wide, the reconstruction succeeds with one row and
    one column holding the trimmed text of the word.  The widths within
    0.0001 of the boundary tolerance 0.01 are left out: the code computes
    the right edge [l + w] and the gap between the edges in binary floating
    point, where the rounding of the sum decides between the two outcomes
    (with [l = 0.3] and [w = 0.01] the gap exceeds 0.01, with [l = 0.1] it
    does not), whereas the coordinates are exact rationals here.  The
    rounding error of the gap is below 0.0000000000000003 for these
    coordinates, so outside the margin the two agree. *)
Theorem single_word_table (blocks_map : gmap string Block) (table : Block)
    (cell_id : string) (word : Block) (l t w h : Q) :
  child_ids table = [cell_id] ->
  word_in_cell blocks_map cell_id word ->
  word_at word l t w h ->
  (0 <= l <= 1)%Q ->
  ((0 <= w <= 0.0099)%Q -> reconstruct_table_structure_spatially blocks_map table = None) /\
  ((0.0101 <= w <= 1)%Q ->
   exists st,
     reconstruct_table_structure_spatially blocks_map table = Some st /\
     row_count st = 1%nat /\ column_count st = 1%nat /\
     spatial_texts st = [[strip (word_text word)]]).
Proof.
  intros Hids Hcell Hat Hl.
  unfold reconstruct_table_structure_spatially, spatial_body, table_word_blocks.
  rewrite Hids, (cell_step_word _ _ word) by done.
  cbn [for_each app]. rewrite bind_Ok.
  unfold reconstruct_from_words. cbn [omap list_omap].
  rewrite (spatial_word_of_at _ _ _ _ _ Hat).
  split.
  - intros [Hw0 Hw]. apply (single_word_core table (Id word) (word_text word)) ; [done|].
    eapply Qle_trans; [exact Hw|]. by vm_compute.
  - intros [Hw _]. apply (single_word_core table (Id word) (word_text word)).
    + eapply Qle_trans; [|exact Hw]. by vm_compute.
    + eapply Qlt_le_trans; [|exact Hw]. by vm_compute.
Qed.

Lemma single_word_table_witness :
  exists st,
    reconstruct_table_structure_spatially (mk_blocks_map one_word_blocks) small_table = Some st /\
    row_count st = 1%nat /\ column_count st = 1%nat /\
    spatial_texts st = [["Total"]].
Proof.
  refine (proj2 (single_word_table (mk_blocks_map one_word_blocks) small_table "sc"
                   (word_block "sw" " Total " 98 (box 0.25 0.25 0.125 0.03125))
                   0.25 0.25 0.125 0.03125 eq_refl _ eq_refl _) _).
  - exists (cell_block "sc" (Some 1%Z) (Some 1%Z) None None ["sw"]), "sw". by vm_compute.
  - split; by vm_compute.
  - split; by vm_compute.
Defined.

(** ** The AI restructuring step *)

Lemma str_chars_nonempty (c : Ascii.ascii) (s : string) : str_chars (String c s) <> [].
Proof.
  cbn [str_chars]. destruct (str_chars s); [discriminate|].
  destruct (continues s); discriminate.
Qed.

Lemma py_iter_truthy (v : json) (elements : list json) :
  py_truthy v = true -> py_iter v = Some elements -> elements <> [].
Proof.
  destruct v as [|b|z|q|s|l|items]; try discriminate.
  - destruct s as [|c s]; [discriminate|]. intros _ [= <-] Hnil.
    apply fmap_nil_inv in Hnil. by apply str_chars_nonempty in Hnil.
  - destruct l; [discriminate|]. by intros _ [= <-].
  - destruct items; [discriminate|]. by intros _ [= <-].
Qed.

Lemma py_slice_from_length {A} (start : Z) (l : list A) :
  (length (py_slice_from start l) <= length l)%nat.
Proof. unfold py_slice_from. destruct (start <? 0)%Z; rewrite length_drop; lia. Qed.

Lemma restructure_body_inv (chat_completion : list (list string) -> option json)
    (table_data : TableData) (r : RestructuredTable) :
  restructure_body chat_completion table_data = Some r ->
  exists headers start,
    headers <> [] /\
    r = {| r_tableId := tableId table_data;
           r_pageNumber := pageNumber table_data;
           r_table_confidence := table_confidence table_data;
           r_rowCount :=
             Z.of_nat (S (length (py_slice_from start (table_rows table_data))));
           r_columnCount := Z.of_nat (length headers);
           r_table_spatiallyReconstructed := spatiallyReconstructed table_data;
           r_rows :=
             {| r_row_rowIndex := 1; r_cells := imap header_cell headers |} ::
             imap (data_row headers) (py_slice_from start (table_rows table_data));
           restructured := true;
           original_row_count := Z.of_nat (length (table_rows table_data));
           ai_analysis := ai_analysis r |}.
Proof.
  unfold restructure_body. intros Hrun.
  destruct (chat_completion _) as [analysis|]; [|discriminate]. cbn in Hrun.
  destruct (py_get "header_row_indices" _ analysis); [|discriminate]. cbn in Hrun.
  destruct (py_get "consolidated_headers" _ analysis) as [headers_value|]; [|discriminate].
  cbn in Hrun.
  destruct (py_get "data_start_row" _ analysis) as [start_value|]; [|discriminate].
  cbn in Hrun.
  destruct (py_truthy headers_value) eqn:Htruthy; [|discriminate].
  destruct (py_lt_int start_value _) as [[|]|]; try discriminate. cbn in Hrun.
  destruct (py_iter headers_value) as [headers|] eqn:Hiter; [|discriminate]. cbn in Hrun.
  destruct (py_index start_value) as [start|]; [|discriminate]. cbn in Hrun.
  injection Hrun as <-. exists headers, start. split; [|by rewrite length_imap].
  by eapply py_iter_truthy.
Qed.

(** X7. Whenever [smart_table_restructure] returns a restructured table,
    that table is a regular grid: [rowCount] is the number of its rows (the
    header row and at most all original rows), [columnCount] is positive,
    every row has exactly [columnCount] cells, the row at position [i] has
    row index [i + 1], and the cell at position [j] of it has row index
    [i + 1] and column index [j + 1].  The table keeps its id, page and
    confidence, is flagged as restructured, and records the original number
    of rows. *)
Theorem restructured_table_grid (ai_enabled : bool)
    (chat_completion : list (list string) -> option json)
    (table_data : TableData) (r : RestructuredTable) :
  smart_table_restructure ai_enabled chat_completion table_data = inr r ->
  (restructured r = true /\ r_tableId r = tableId table_data /\
   r_pageNumber r = pageNumber table_data /\
   r_table_confidence r = table_confidence table_data /\
   original_row_count r = Z.of_nat (length (table_rows table_data))) /\
  (r_rowCount r = Z.of_nat (length (r_rows r)) /\
   (1 <= r_rowCount r <= original_row_count r + 1)%Z /\
   (1 <= r_columnCount r)%Z) /\
  forall (i : nat) (row : RestructuredRow),
    r_rows r !! i = Some row ->
    r_row_rowIndex row = (Z.of_nat i + 1)%Z /\
    Z.of_nat (length (r_cells row)) = r_columnCount r /\
    forall (j : nat) (cell : RestructuredCell),
      r_cells row !! j = Some cell ->
      r_rowIndex cell = (Z.of_nat i + 1)%Z /\ r_columnIndex cell = (Z.of_nat j + 1)%Z.
Proof.
  unfold smart_table_restructure. destruct (negb ai_enabled); [discriminate|].
  destruct (restructure_body _ _) as [r'|] eqn:Hbody; [|discriminate].
  intros [= ->]. apply restructure_body_inv in Hbody as (headers & start & Hne & ->).
  cbn [restructured r_tableId r_pageNumber r_table_confidence original_row_count
       r_rowCount r_columnCount r_rows].
  split; [done|]. split.
  - split; [by rewrite length_cons, length_imap|].
    pose proof (py_slice_from_length start (table_rows table_data)).
    destruct headers; [done|]. cbn [length]. lia.
  - intros [|i] row Hrow.
    + injection Hrow as <-. cbn [r_row_rowIndex r_cells].
      split; [done|]. split; [by rewrite length_imap|].
      intros j cell Hcell. rewrite list_lookup_imap in Hcell.
      destruct (headers !! j); [|discriminate]. injection Hcell as <-. done.
    + change (imap (data_row headers) (py_slice_from start (table_rows table_data)) !! i =
              Some row) in Hrow.
      rewrite list_lookup_imap in Hrow.
      destruct (py_slice_from _ _ !! i) as [original_row|]; [|discriminate].
      injection Hrow as <-. cbn [data_row r_row_rowIndex r_cells].
      split; [lia|]. split; [by rewrite length_imap|].
      intros j cell Hcell. rewrite list_lookup_imap in Hcell.
      destruct (headers !! j); [|discriminate]. injection Hcell as <-.
      destruct (row_cells original_row !! j); cbn; lia.
Qed.

Lemma restructured_table_grid_witness :
  exists r,
    smart_table_restructure true ledger_chat ledger_table = inr r /\
    r_rowCount r = Z.of_nat (length (r_rows r)) /\
    (1 <= r_rowCount r <= original_row_count r + 1)%Z /\
    (1 <= r_columnCount r)%Z.
Proof.
  destruct (smart_table_restructure true ledger_chat ledger_table) as [t|r] eqn:Hrun;
    [by vm_compute in Hrun|].
  exists r. split; [done|].
  exact (proj1 (proj2 (restructured_table_grid true ledger_chat ledger_table r Hrun))).
Defined.

Lemma py_slice_from_first {A} (start : Z) (l : list A) :
  py_slice_from start l = drop (first_data_row start (length l)) l.
Proof. unfold py_slice_from, first_data_row. by destruct (start <? 0)%Z. Qed.

(** X8. With the restructuring enabled, an analysis that is a JSON object
    whose [consolidated_headers] is a non-empty list and whose
    [data_start_row] is an integer below the number of rows is always
    applied.  The new table starts with one header row holding the listed
    headers with confidence 100; the rows before [data_start_row] are
    dropped (a negative [data_start_row] counts from the end, keeping only
    the last rows); every remaining row becomes one row of as many cells as
    there are headers: its first cells are the original cells, re-indexed,
    cells beyond the header count are dropped, and missing cells are filled
    with empty text of confidence 0. *)
Theorem restructured_data_rows (chat_completion : list (list string) -> option json)
    (table_data : TableData) (analysis : list (string * json)) (headers : list json)
    (start : Z) :
  chat_completion (analysis_data table_data) = Some (JDict analysis) ->
  dict_get "consolidated_headers" analysis = Some (JList headers) ->
  headers <> [] ->
  dict_get "data_start_row" analysis = Some (JInt start) ->
  (start < Z.of_nat (length (table_rows table_data)))%Z ->
  exists (r : RestructuredTable) (header_row : RestructuredRow),
    smart_table_restructure true chat_completion table_data = inr r /\
    ai_analysis r = JDict analysis /\
    r_rows r !! 0%nat = Some header_row /\
    map r_text (r_cells header_row) = headers /\
    Forall (fun cell => r_confidence cell = 100%Q) (r_cells header_row) /\
    length (r_rows r) =
      S (length (table_rows table_data) -
         first_data_row start (length (table_rows table_data))) /\
    forall (k : nat) (original_row : RowData),
      table_rows table_data
        !! (first_data_row start (length (table_rows table_data)) + k)%nat =
        Some original_row ->
      exists row,
        r_rows r !! S k = Some row /\
        length (r_cells row) = length headers /\
        forall j : nat, (j < length headers)%nat ->
          r_cells row !! j =
          Some (match row_cells original_row !! j with
                | Some cell => moved_cell (Z.of_nat k + 2) j cell
                | None => empty_cell (Z.of_nat k + 2) j
                end).
Proof.
  intros Hchat Hheaders Hne Hstart Hlt.
  unfold smart_table_restructure, restructure_body. cbn [negb].
  rewrite Hchat. cbn [mbind option_bind py_get]. rewrite Hheaders, Hstart.
  cbn [default from_option id py_truthy py_lt_int py_iter py_index mbind option_bind].
  destruct headers as [|header headers]; [done|].
  rewrite (proj2 (Z.ltb_lt _ _) Hlt). cbn [mbind option_bind].
  eexists _, _. split; [reflexivity|]. cbn [ai_analysis r_rows].
  split; [reflexivity|]. split; [reflexivity|]. cbn [r_cells].
  split.
  { apply list_eq. intros j. rewrite list_lookup_fmap, list_lookup_imap.
    by destruct ((header :: headers) !! j). }
  split.
  { apply Forall_forall. intros cell Hcell. apply list_elem_of_lookup in Hcell as [j Hj].
    rewrite list_lookup_imap in Hj. destruct ((header :: headers) !! j); [|discriminate].
    by injection Hj as <-. }
  rewrite py_slice_from_first. split.
  { by rewrite length_cons, length_imap, length_drop. }
  intros k original_row Hrow.
  exists (data_row (header :: headers) k original_row). split.
  { change ((imap (data_row (header :: headers))
               (drop (first_data_row start (length (table_rows table_data)))
                     (table_rows table_data))) !! k =
            Some (data_row (header :: headers) k original_row)).
    by rewrite list_lookup_imap, lookup_drop, Hrow. }
  cbn [data_row r_cells]. split; [by rewrite length_imap|].
  intros j Hj. rewrite list_lookup_imap.
  destruct (lookup_lt_is_Some_2 (header :: headers) j Hj) as [h ->]. reflexivity.
Qed.

Lemma restructured_data_rows_witness :
  exists (r : RestructuredTable) (row : RestructuredRow),
    smart_table_restructure true ledger_chat ledger_table = inr r /\
    length (r_rows r) = 3%nat /\
    r_rows r !! 2%nat = Some row /\
    map r_text (r_cells row) = [JStr "01/03"; JStr "7.25"; JStr ""] /\
    map r_rowIndex (r_cells row) = [3%Z; 3%Z; 3%Z].
Proof.
  destruct (restructured_data_rows ledger_chat ledger_table ledger_analysis
              [JStr "Posting date"; JStr "Amount (net)"; JStr "Note"] 2
              eq_refl eq_refl ltac:(done) eq_refl ltac:(vm_compute; reflexivity))
    as (r & header_row & Hrun & _ & _ & _ & _ & Hlen & Hrows).
  destruct (Hrows 1%nat
              {| rowIndex := 4;
                 row_cells := [out_cell "d1" 4 1 "01/03" 93; out_cell "d2" 4 2 "7.25" 92] |}
              eq_refl) as (row & Hrow & Hcells & Hcell).
  exists r, row. split; [exact Hrun|]. split; [exact Hlen|]. split; [exact Hrow|].
  pose proof (Hcell 0%nat ltac:(cbn; lia)) as H0.
  pose proof (Hcell 1%nat ltac:(cbn; lia)) as H1.
  pose proof (Hcell 2%nat ltac:(cbn; lia)) as H2.
  destruct (r_cells row) as [|c0 [|c1 [|c2 [|c3 rest]]]]; try discriminate.
  cbn in H0, H1, H2. injection H0 as ->. injection H1 as ->. injection H2 as ->.
  split; reflexivity.
Defined.

(** X9. [smart_table_restructure] hands back its argument unchanged when the
    restructuring is not enabled; when the chat completion or the parsing of
    its reply fails; when the reply is not a JSON object or is an empty one;
    when its
    [consolidated_headers] is missing or empty; when its [data_start_row]
    is an integer that is not below the number of rows (with the key
    missing, 1 is taken, so a table of one row is never restructured); and
    when [data_start_row] is a JSON number with a fraction part or an
    exponent, which Python reads as a [float], whatever its value. *)
Theorem restructure_declined (chat_completion : list (list string) -> option json)
    (table_data : TableData) :
  smart_table_restructure false chat_completion table_data = inl table_data /\
  (chat_completion (analysis_data table_data) = None ->
   smart_table_restructure true chat_completion table_data = inl table_data) /\
  (forall reply,
     chat_completion (analysis_data table_data) = Some reply ->
     json_keys reply = [] ->
     smart_table_restructure true chat_completion table_data = inl table_data) /\
  (forall analysis,
     chat_completion (analysis_data table_data) = Some (JDict analysis) ->
     (dict_get "consolidated_headers" analysis = None \/
      dict_get "consolidated_headers" analysis = Some (JList [])) ->
     smart_table_restructure true chat_completion table_data = inl table_data) /\
  (forall analysis start,
     chat_completion (analysis_data table_data) = Some (JDict analysis) ->
     default (JInt 1) (dict_get "data_start_row" analysis) = JInt start ->
     (Z.of_nat (length (table_rows table_data)) <= start)%Z ->
     smart_table_restructure true chat_completion table_data = inl table_data) /\
  (forall analysis q,
     chat_completion (analysis_data table_data) = Some (JDict analysis) ->
     dict_get "data_start_row" analysis = Some (JNum q) ->
     smart_table_restructure true chat_completion table_data = inl table_data).
Proof.
  split; [done|]. unfold smart_table_restructure, restructure_body. cbn [negb].
  split; [by intros ->|]. split.
  { intros reply -> Hkeys. cbn [mbind option_bind].
    destruct reply as [| | | | | |[|item items]]; try done. }
  split.
  { intros analysis -> Hheaders. cbn [mbind option_bind py_get].
    by destruct Hheaders as [-> | ->]. }
  split.
  { intros analysis start -> Hstart Hge. cbn [mbind option_bind py_get]. rewrite Hstart.
    destruct (py_truthy _); [|done]. cbn [py_lt_int].
    by rewrite (proj2 (Z.ltb_ge _ _) Hge). }
  intros analysis q -> Hstart. cbn [mbind option_bind py_get]. rewrite Hstart.
  cbn [default from_option id py_lt_int py_index].
  destruct (py_truthy _); [|done]. cbn [mbind option_bind].
  destruct (Qltb q _); [|done].
  by destruct (py_iter _).
Qed.

Lemma restructure_declined_witness :
  smart_table_restructure true
    (fun _ => Some (JDict [("consolidated_headers", JList [JStr "Date"; JStr "Amount"]);
                           ("data_start_row", JNum 2)]))
    ledger_table = inl ledger_table.
Proof.
  refine (proj2 (proj2 (proj2 (proj2 (proj2
            (restructure_declined
               (fun _ => Some (JDict [("consolidated_headers", JList [JStr "Date"; JStr "Amount"]);
                                      ("data_start_row", JNum 2)]))
               ledger_table)))))
          [("consolidated_headers", JList [JStr "Date"; JStr "Amount"]);
           ("data_start_row", JNum 2)] 2%Q eq_refl eq_refl).
Defined.

(** ** The job starter *)

Lemma str_take_length (n : nat) (s : string) : (str_len (str_take n s) <= n)%nat.
Proof.
  revert n. induction s as [|c s IH]; intros n; cbn [str_take str_len]; [lia|].
  destruct (is_continuation c) eqn:Hc; cbn [str_len].
  - rewrite Hc. specialize (IH n). lia.
  - destruct n as [|n]; cbn [str_len]; [lia|]. rewrite Hc. specialize (IH n). lia.
Qed.

Lemma str_take_all (n : nat) (s : string) :
  (str_len s <= n)%nat -> str_take n s = s.
Proof.
  revert n. induction s as [|c s IH]; intros n; cbn [str_take str_len]; [done|].
  destruct (is_continuation c).
  - intros Hlen. rewrite IH; [done | lia].
  - destruct n as [|n]; [lia|]. intros Hlen. rewrite IH; [done | lia].
Qed.

Lemma continues_take (n : nat) (s : string) :
  continues (str_take n s) = continues s.
Proof.
  destruct s as [|c s]; [done|]. cbn [str_take continues].
  destruct (is_continuation c) eqn:Hc; [by cbn; rewrite Hc|].
  destruct n; [done|]. by cbn; rewrite Hc.
Qed.

(** The characters of the first [n] characters are the first [n]
    characters; bytes at the start of [s] that begin no character count as
    one more. *)
Lemma str_chars_take (n : nat) (s : string) :
  str_chars (str_take n s) =
  take (n + (if continues s then 1 else 0)) (str_chars s).
Proof.
  revert n. induction s as [|c s IH]; intros n; [cbn; by rewrite take_nil|].
  cbn [str_take continues].
  destruct (is_continuation c) eqn:Hc.
  - cbn [str_chars]. rewrite IH, continues_take.
    destruct (str_chars s) as [|first rest].
    + rewrite take_nil, Nat.add_1_r. cbn. by rewrite take_nil.
    + destruct (continues s).
      * by rewrite !Nat.add_1_r.
      * rewrite Nat.add_0_r, Nat.add_1_r. by destruct n.
  - rewrite Nat.add_0_r. destruct n as [|n]; [done|].
    cbn [str_chars]. rewrite IH, continues_take.
    destruct (str_chars s) as [|first rest].
    + rewrite take_nil. cbn. by rewrite take_nil.
    + destruct (continues s).
      * by rewrite Nat.add_1_r.
      * rewrite Nat.add_0_r. by destruct n.
Qed.

Lemma continues_replace (old : Ascii.ascii) (new s : string) :
  continues new = false -> new <> "" -> continues s = false ->
  continues (str_replace old new s) = false.
Proof.
  intros Hnew Hne. destruct s as [|c s]; [done|]. cbn [str_replace continues].
  intros Hc. destruct (Ascii.eqb c old); [|done].
  destruct new; [done|]. exact Hnew.
Qed.

Lemma str_contains_app (c : Ascii.ascii) (s t : string) :
  str_contains c (s +:+ t) = str_contains c s || str_contains c t.
Proof.
  induction s as [|c' s IH]; [done|].
  rewrite app_String. cbn [str_contains]. by rewrite IH, orb_assoc.
Qed.

Lemma str_contains_take (c : Ascii.ascii) (n : nat) (s : string) :
  str_contains c s = false -> str_contains c (str_take n s) = false.
Proof.
  revert n. induction s as [|c' s IH]; intros n; [done|].
  cbn [str_contains str_take]. intros [Hc Hs]%orb_false_elim.
  destruct (is_continuation c'); [|destruct n; [done|]];
    cbn [str_contains]; by rewrite Hc, IH.
Qed.

Lemma str_replace_clean (old : Ascii.ascii) (new s : string) :
  str_contains old new = false -> str_contains old (str_replace old new s) = false.
Proof.
  intros Hnew. induction s as [|c s IH]; [done|]. cbn [str_replace].
  destruct (Ascii.eqb c old) eqn:Hc.
  - by rewrite str_contains_app, Hnew, IH.
  - cbn [str_contains]. by rewrite Hc, IH.
Qed.

Lemma str_replace_absent (old : Ascii.ascii) (new s : string) :
  str_contains old s = false -> str_replace old new s = s.
Proof.
  induction s as [|c s IH]; [done|]. cbn.
  intros [-> Hs]%orb_false_elim. by rewrite IH.
Qed.

(** X10. The job tag the starter derives from an object key is at most 64
    characters long and contains no slash; it is the key itself exactly
    when the key contains no slash and is at most 64 characters long, so a
    key with a directory part is never recoverable as the job tag.  The cut
    is between characters: the characters of the tag are the first 64
    characters of the key with its slashes replaced, whatever their
    encoded length. *)
Theorem job_tag_properties (object_key : string) :
  (str_len (textract_lambda.job_tag_of object_key) <= 64)%nat /\
  str_contains (char_of "/") (textract_lambda.job_tag_of object_key) = false /\
  (textract_lambda.job_tag_of object_key = object_key <->
   str_contains (char_of "/") object_key = false /\ (str_len object_key <= 64)%nat) /\
  (continues object_key = false ->
   str_chars (textract_lambda.job_tag_of object_key) =
   take 64 (str_chars (str_replace (char_of "/") "--" object_key))).
Proof.
  unfold textract_lambda.job_tag_of.
  assert (str_contains (char_of "/")
            (str_take 64 (str_replace (char_of "/") "--" object_key)) = false) as Hclean
    by (by apply str_contains_take, str_replace_clean).
  split; [apply str_take_length|]. split; [exact Hclean|]. split; [split|].
  - intros Heq. split; [by rewrite <- Heq at 1|].
    rewrite <- Heq. apply str_take_length.
  - intros [Hslash Hlen]. by rewrite str_replace_absent, str_take_all.
  - intros Hstart. rewrite str_chars_take, continues_replace by done.
    by rewrite Nat.add_0_r.
Qed.

Lemma job_tag_properties_witness :
  let long_key := "docs/" +:+ String.concat "" (replicate 57 "a") +:+ utf8 233 +:+ "z.pdf" in
  continues long_key = false /\
  textract_lambda.job_tag_of long_key =
    "docs--" +:+ String.concat "" (replicate 57 "a") +:+ utf8 233 /\
  String.length (textract_lambda.job_tag_of long_key) = 65%nat /\
  str_chars (textract_lambda.job_tag_of long_key) =
    take 64 (str_chars (str_replace (char_of "/") "--" long_key)).
Proof.
  intros long_key.
  split; [reflexivity|]. split; [by vm_compute|]. split; [by vm_compute|].
  exact (proj2 (proj2 (proj2 (job_tag_properties long_key))) eq_refl).
Defined.

(** X11. The job starter answers 400 exactly when the bucket or the key is
    missing or empty, and then asks nothing of Textract.  Otherwise it makes
    exactly one [start_document_analysis] call, for the bucket and key as
    given, the features TABLES and FORMS and the job tag derived from the
    key, and answers 200 with the job id when the reply carries one, and 500
    when the call raises or the reply has no job id. *)
Theorem start_handler_outcomes (SNS_TOPIC_ARN TEXTRACT_ROLE_ARN : string)
    (start_document_analysis : textract_lambda.StartDocumentAnalysis -> textract_lambda.reply)
    (event : textract_lambda.Event) :
  let run :=
    textract_lambda.lambda_handler SNS_TOPIC_ARN TEXTRACT_ROLE_ARN start_document_analysis
      event in
  (textract_lambda.statusCode run.1 = 400%Z <->
   str_truthy (textract_lambda.bucket event) = false \/
   str_truthy (textract_lambda.key event) = false) /\
  (textract_lambda.statusCode run.1 = 400%Z -> run.2 = []) /\
  (textract_lambda.statusCode run.1 <> 400%Z ->
   exists bucket_name object_key,
     textract_lambda.bucket event = Some bucket_name /\
     textract_lambda.key event = Some object_key /\
     let request :=
       {| textract_lambda.DocumentLocation_S3Object_Bucket := bucket_name;
          textract_lambda.DocumentLocation_S3Object_Name := object_key;
          textract_lambda.FeatureTypes := ["TABLES"; "FORMS"];
          textract_lambda.NotificationChannel_SNSTopicArn := SNS_TOPIC_ARN;
          textract_lambda.NotificationChannel_RoleArn := TEXTRACT_ROLE_ARN;
          textract_lambda.JobTag := textract_lambda.job_tag_of object_key |} in
     run.2 = [request] /\
     match start_document_analysis request with
     | textract_lambda.Response (Some job_id) =>
         run.1 =
         {| textract_lambda.statusCode := 200;
            textract_lambda.body :=
              textract_lambda.started_body "Textract job started successfully." job_id
                bucket_name object_key |}
     | _ => textract_lambda.statusCode run.1 = 500%Z
     end).
Proof.
  cbv zeta. unfold textract_lambda.lambda_handler.
  destruct (textract_lambda.bucket event) as [bucket_name|];
    [destruct (str_truthy (Some bucket_name)) eqn:Hbucket|];
    cbn [str_truthy negb orb fst snd textract_lambda.statusCode].
  2, 3: split; [split; [by left | done] | split; [done | by intros []]].
  destruct (textract_lambda.key event) as [object_key|];
    [destruct (str_truthy (Some object_key)) eqn:Hkey|];
    cbn [str_truthy negb orb fst snd textract_lambda.statusCode].
  2, 3: split; [split; [by right | done] | split; [done | by intros []]].
  cbn [default from_option id].
  destruct (start_document_analysis _) as [[job_id|]|text] eqn:Hreply;
    cbn [fst snd textract_lambda.statusCode].
  all: split; [split; [done | by intros [|]]|].
  all: split; [done|].
  all: intros _; exists bucket_name, object_key; cbv zeta; rewrite Hreply; done.
Qed.

(** ** The result processor's handler *)

Lemma page_request_first (job_id : string) (next_token : option string) :
  next_token = None \/ str_truthy next_token = true ->
  {| kw_JobId := job_id; kw_MaxResults := 1000;
     kw_NextToken := if str_truthy next_token then next_token else None |} =
  page_request job_id next_token.
Proof. by intros [-> | ->]. Qed.

Lemma fetch_loop_replies (env : Environment) (job_id : string)
    (pages : list AnalysisResponse) (last : outcome AnalysisResponse) :
  forall (fuel : nat) (next_token : option string) (results_blocks : list Block)
         (s : HandlerState),
    next_token = None \/ str_truthy next_token = true ->
    replies env job_id (trace s) next_token pages last ->
    (length pages < fuel)%nat ->
    match last with
    | Returned page => str_truthy (NextToken page) = false
    | Raised _ => True
    end ->
    get_textract_results_loop env fuel job_id next_token results_blocks s =
    Some (match last with
          | Returned page =>
              Returned (results_blocks ++ flat_map blocks_of (pages ++ [page]))
          | Raised e => Raised e
          end,
          {| trace := trace s ++ page_requests job_id next_token pages;
             webhook_payload := webhook_payload s |}).
Proof.
  induction pages as [|page rest IH]; intros fuel next_token results_blocks s Htoken Hreplies
    Hfuel Hlast.
  - destruct fuel as [|fuel]; [cbn in Hfuel; lia|].
    cbn [replies] in Hreplies. cbn [get_textract_results_loop].
    rewrite page_request_first by done.
    unfold io_bind, io_call. rewrite Hreplies. cbn [page_requests].
    destruct last as [page|e]; [|done].
    rewrite Hlast. cbn [io_ret app flat_map trace webhook_payload].
    by rewrite app_nil_r.
  - destruct fuel as [|fuel]; [cbn in Hfuel; lia|].
    cbn [replies] in Hreplies. destruct Hreplies as (Hpage & Hnext & Hrest).
    cbn [get_textract_results_loop].
    rewrite page_request_first by done.
    unfold io_bind at 1, io_call. rewrite Hpage, Hnext.
    rewrite (IH fuel (NextToken page) _ _ (or_intror Hnext)); cbn [trace webhook_payload];
      [|exact Hrest|cbn in Hfuel; lia|exact Hlast].
    cbn [page_requests]. rewrite <- app_assoc. cbn [app].
    destruct last as [last_page|e]; [|done].
    cbn [app flat_map]. by rewrite app_assoc.
Qed.

(** X12. [get_textract_results] follows the page tokens: when Textract
    answers the first request (sent without a token) and each request for an
    announced page, the result is the blocks of all pages in the order
    received (a page without [Blocks] adds none), the loop ending at the
    first page without a token or with an empty one; the requests made are
    one per page, each carrying the token of the page before.  When a
    request fails, the exception is the outcome of the whole fetch and the
    blocks received so far are not returned. *)
Theorem get_textract_results_pages (env : Environment) (job_id : string)
    (pages : list AnalysisResponse) (last : outcome AnalysisResponse)
    (fuel : nat) (s : HandlerState) :
  replies env job_id (trace s) None pages last ->
  (length pages < fuel)%nat ->
  match last with
  | Returned page => str_truthy (NextToken page) = false
  | Raised _ => True
  end ->
  get_textract_results env fuel job_id s =
  Some (match last with
        | Returned page => Returned (flat_map blocks_of (pages ++ [page]))
        | Raised e => Raised e
        end,
        {| trace := trace s ++ page_requests job_id None pages;
           webhook_payload := webhook_payload s |}).
Proof.
  intros Hreplies Hfuel Hlast. unfold get_textract_results.
  by rewrite (fetch_loop_replies env job_id pages last fuel None [] s (or_introl eq_refl)).
Qed.

Lemma fetch_loop_state (env : Environment) (job_id : string) (fuel : nat) :
  forall (next_token : option string) (results_blocks : list Block) (s s' : HandlerState)
         (result : outcome (list Block)),
    get_textract_results_loop env fuel job_id next_token results_blocks s = Some (result, s') ->
    webhook_payload s' = webhook_payload s /\
    exists calls, trace s' = trace s ++ calls /\
                  Forall (fun call => is_textract_call call = true) calls.
Proof.
  induction fuel as [|fuel IH]; intros next_token results_blocks s s' result; [done|].
  cbn [get_textract_results_loop]. unfold io_bind at 1, io_call.
  destruct (get_document_analysis env _ _) as [response|e].
  - destruct (str_truthy (NextToken response)).
    + intros Hrun. apply IH in Hrun as (Hpayload & calls & Htrace & Hcalls).
      cbn [trace webhook_payload] in *. split; [done|].
      eexists (_ :: calls). rewrite Htrace, <- app_assoc. split; [done|].
      by constructor.
    + intros [= <- <-]. cbn. split; [done|]. eexists [_]. split; [done|].
      by repeat constructor.
  - intros [= <- <-]. cbn. split; [done|]. eexists [_]. split; [done|].
    by repeat constructor.
Qed.

Lemma uploaded_app (env : Environment) (calls more : list Call) (kwargs : PutObject) :
  uploaded env calls kwargs -> uploaded env (calls ++ more) kwargs.
Proof.
  intros (before & after & -> & Hput). exists before, (after ++ more).
  by rewrite <- app_assoc.
Qed.

Lemma uploaded_last (env : Environment) (before : list Call) (kwargs : PutObject) :
  put_object env before kwargs = Returned tt ->
  uploaded env (before ++ [S3Call kwargs]) kwargs.
Proof. intros Hput. by exists before, []. Qed.

Lemma textract_not_webhook (calls : list Call) :
  Forall (fun call => is_textract_call call = true) calls ->
  Forall (fun call => is_webhook_call call = false) calls.
Proof. intros H. eapply Forall_impl; [exact H|]. by intros []. Qed.

Lemma send_webhook_run (env : Environment) (payload : WebhookPayload) (s : HandlerState) :
  _send_webhook env payload s =
  Some (Returned tt, {| trace := trace s ++ webhook_calls env payload;
                        webhook_payload := webhook_payload s |}).
Proof.
  unfold _send_webhook, webhook_calls. destruct (str_truthy (WEBHOOK_URL env)); cbn [negb].
  - reflexivity.
  - unfold io_ret. rewrite app_nil_r. by destruct s.
Qed.

Lemma io_try_bind {A B} (m : io A) (k : A -> io B) (handler : exception -> io B)
    (s : HandlerState) :
  io_try (io_bind m k) handler s =
  match m s with
  | Some (Returned a, s1) => io_try (k a) handler s1
  | Some (Raised e, s1) => handler e s1
  | None => None
  end.
Proof. unfold io_try, io_bind. by destruct (m s) as [[[a|e] s1]|]. Qed.

Lemma process_failed_reported (env : Environment) (job_id original_s3_object_key : string)
    (e : exception) (s s' : HandlerState) (result : outcome Response) :
  s3Key (webhook_payload s) = original_s3_object_key ->
  textractJobId (webhook_payload s) = job_id ->
  jsonS3Key (webhook_payload s) = None ->
  Forall (fun call => is_webhook_call call = false) (trace s) ->
  (forall csv_key, csvS3Key (webhook_payload s) = Some csv_key ->
     csvUrl (webhook_payload s) = Some (object_url env csv_key) /\
     exists content,
       uploaded env (trace s) {| Bucket := OUTPUT_S3_BUCKET env; Key := csv_key;
                                 Body := content; ContentType := "text/csv" |}) ->
  process_failed env job_id e s = Some (result, s') ->
  exists response,
    result = Returned response /\
    handler_invariant env original_s3_object_key job_id response (trace s').
Proof.
  intros Hkey Hjob Hjson Hcalls Hcsv. unfold process_failed.
  unfold io_bind, io_update, io_payload. cbn [trace webhook_payload].
  rewrite send_webhook_run. cbn [io_ret trace webhook_payload].
  intros [= <- <-]. eexists. split; [reflexivity|].
  eexists _, _. split; [reflexivity|]. cbn [trace]. split; [reflexivity|].
  split; [done|]. split; [done|]. split; [done|].
  split; [right; cbn; eauto|]. split.
  - intros csv_key Hcsv_key. destruct (Hcsv csv_key Hcsv_key) as (Hurl & content & Hup).
    split; [done|]. exists content. by apply uploaded_app.
  - cbn. by rewrite Hjson.
Qed.

Lemma process_reported (env : Environment) (fuel : nat) (job_id original_s3_object_key : string)
    (result : outcome Response) (s' : HandlerState) :
  io_try (process env fuel job_id original_s3_object_key) (process_failed env job_id)
    {| trace := []; webhook_payload := initial_payload original_s3_object_key job_id |} =
    Some (result, s') ->
  exists response,
    result = Returned response /\
    handler_invariant env original_s3_object_key job_id response (trace s').
Proof.
  unfold process. rewrite io_try_bind.
  destruct (get_textract_results env fuel job_id _) as [[[blocks|e] s1]|] eqn:Hfetch;
    [| |done].
  all: apply fetch_loop_state in Hfetch as (Hpayload & fetch_calls & Htrace & Hfetch).
  all: apply textract_not_webhook in Hfetch.
  all: destruct s1 as [trace1 payload1]; cbn [trace webhook_payload app] in Hpayload, Htrace;
    subst trace1 payload1.
  2: { by apply process_failed_reported. }
  destruct blocks as [|block blocks].
  { unfold io_try, io_bind, io_update, io_payload. cbn [trace webhook_payload].
    rewrite send_webhook_run. cbn [io_ret trace webhook_payload].
    intros [= <- <-]. eexists. split; [reflexivity|].
    eexists _, _. split; [reflexivity|]. cbn [trace]. split; [reflexivity|].
    split; [done|]. split; [done|]. split; [done|]. split; [right; cbn; eauto|]. done. }
  cbv zeta.
  set (base := splitext_root env _).
  set (csv_key := OUTPUT_S3_PREFIX env +:+ "/" +:+ base +:+ ".csv").
  set (json_key := OUTPUT_S3_PREFIX env +:+ "/" +:+ base +:+ ".json").
  rewrite io_try_bind. unfold io_exc at 1.
  destruct (parse_tables_to_csv_data _ _) as [csv_data_rows|e];
    [|by apply process_failed_reported].
  rewrite io_try_bind.
  match goal with
  | |- context [io_try ?K (process_failed env job_id) _] => set (json_phase := K)
  end.
  assert (forall s1 : HandlerState,
            s3Key (webhook_payload s1) = original_s3_object_key ->
            textractJobId (webhook_payload s1) = job_id ->
            jsonS3Key (webhook_payload s1) = None ->
            errorMessage (webhook_payload s1) = None ->
            Forall (fun call => is_webhook_call call = false) (trace s1) ->
            (forall key, csvS3Key (webhook_payload s1) = Some key ->
               csvUrl (webhook_payload s1) = Some (object_url env key) /\
               exists content,
                 uploaded env (trace s1) {| Bucket := OUTPUT_S3_BUCKET env; Key := key;
                                            Body := content; ContentType := "text/csv" |}) ->
            io_try json_phase (process_failed env job_id) s1 = Some (result, s') ->
            exists response,
              result = Returned response /\
              handler_invariant env original_s3_object_key job_id response (trace s')) as Hjson.
  { intros s1 Hkey Hjob Hnone Herror Hcalls Hcsv. subst json_phase.
    rewrite io_try_bind. unfold io_exc at 1.
    destruct (parse_blocks_to_structured_json _ _ _ _ _ _) as [structured_json_data|e];
      [|by apply process_failed_reported].
    rewrite io_try_bind. unfold io_call at 1.
    destruct (put_object env (trace s1) _) as [[]|e] eqn:Hput.
    2: { apply process_failed_reported; cbn [trace webhook_payload]; try done.
         - apply Forall_app. split; [done|]. by repeat constructor.
         - intros key Hcsv_key. destruct (Hcsv key Hcsv_key) as (Hurl & content & Hup).
           split; [done|]. exists content. by apply uploaded_app. }
    unfold io_try, io_bind, io_update, io_payload. cbn [trace webhook_payload].
    rewrite send_webhook_run. cbn [io_ret trace webhook_payload].
    intros [= <- <-]. eexists. split; [reflexivity|].
    eexists _, _. split; [reflexivity|]. cbn [trace]. split; [reflexivity|].
    split; [apply Forall_app; split; [done|]; by repeat constructor|].
    split; [done|]. split; [done|].
    split; [left; cbn; eauto|]. split.
    - intros key Hcsv_key. destruct (Hcsv key Hcsv_key) as (Hurl & content & Hup).
      split; [done|]. exists content. by apply uploaded_app, uploaded_app.
    - intros key [= <-]. split; [done|]. eexists. by apply uploaded_app, uploaded_last. }
  destruct csv_data_rows as [|row rows].
  { apply Hjson; cbn [trace webhook_payload]; done. }
  unfold io_bind at 1, io_call at 1. cbn [trace webhook_payload].
  destruct (put_object env fetch_calls _) as [[]|e] eqn:Hput.
  - cbn [io_update trace webhook_payload]. apply Hjson; cbn [trace webhook_payload]; try done.
    + apply Forall_app. split; [done|]. by repeat constructor.
    + intros key [= <-]. split; [done|]. eexists. by apply uploaded_last.
  - apply process_failed_reported; cbn [trace webhook_payload]; try done.
    apply Forall_app. split; [done|]. by repeat constructor.
Qed.

Lemma get_textract_results_pages_witness :
  get_textract_results (sample_env false false) 2 "job-1"
    {| trace := []; webhook_payload := initial_payload "uploads/docs/a.pdf" "job-1" |} =
  Some (Returned lines_blocks,
        {| trace := [TextractCall (page_request "job-1" None);
                     TextractCall (page_request "job-1" (Some "page-2"))];
           webhook_payload := initial_payload "uploads/docs/a.pdf" "job-1" |}).
Proof.
  exact (get_textract_results_pages (sample_env false false) "job-1"
           [ {| Blocks := Some (take 3 lines_blocks); NextToken := Some "page-2" |} ]
           (Returned {| Blocks := Some (drop 3 lines_blocks); NextToken := None |})
           2 {| trace := []; webhook_payload := initial_payload "uploads/docs/a.pdf" "job-1" |}
           (conj eq_refl (conj eq_refl eq_refl)) ltac:(cbn; lia) eq_refl).
Defined.

Lemma fetch_loop_endless (env : Environment) (job_id : string) :
  (forall trace kwargs,
     exists page, get_document_analysis env trace kwargs = Returned page /\
                  str_truthy (NextToken page) = true) ->
  forall (fuel : nat) (next_token : option string) (results_blocks : list Block)
         (s : HandlerState),
    get_textract_results_loop env fuel job_id next_token results_blocks s = None.
Proof.
  intros Hmore. induction fuel as [|fuel IH]; intros next_token results_blocks s; [done|].
  cbn [get_textract_results_loop]. unfold io_bind at 1, io_call.
  destruct (Hmore (trace s)
              {| kw_JobId := job_id; kw_MaxResults := 1000;
                 kw_NextToken := if str_truthy next_token then next_token else None |})
    as (page & -> & ->).
  apply IH.
Qed.

(** X13. [get_textract_results] has no bound of its own on the number of
    pages: against a service that answers every request with a page that
    announces a further one, the loop is still running after any number of
    iterations. *)
Theorem get_textract_results_endless (env : Environment) (job_id : string) :
  (forall trace kwargs,
     exists page, get_document_analysis env trace kwargs = Returned page /\
                  str_truthy (NextToken page) = true) ->
  forall (fuel : nat) (s : HandlerState), get_textract_results env fuel job_id s = None.
Proof. intros Hmore fuel s. by apply fetch_loop_endless. Qed.

Lemma get_textract_results_endless_witness :
  get_textract_results (sample_env true false) 1000 "job-1"
    {| trace := []; webhook_payload := initial_payload "uploads/docs/a.pdf" "job-1" |} = None.
Proof.
  apply (get_textract_results_endless (sample_env true false) "job-1").
  intros trace kwargs. cbn. destruct (kw_NextToken kwargs); eauto.
Defined.

(** X14. The source key the handler works with is never empty.  When the
    message has a [DocumentLocation] with an [S3ObjectName], that name is
    the key, and the job tag is not consulted: an empty name gives the
    placeholder "unknown_source_file_for_job_<job id>" even when a job tag
    is present.  Without such a name the key is the job tag when there is a
    non-empty one, and the placeholder otherwise. *)
Theorem source_key_selection (message : Message_) (job_id : string) :
  original_s3_object_key_of message job_id <> "" /\
  (forall location name,
     DocumentLocation message = Some location -> S3ObjectName location = Some name ->
     original_s3_object_key_of message job_id =
     if str_empty name then "unknown_source_file_for_job_" +:+ job_id else name) /\
  ((DocumentLocation message = None \/
    exists location, DocumentLocation message = Some location /\ S3ObjectName location = None) ->
   original_s3_object_key_of message job_id =
   match JobTag message with
   | Some tag => if str_empty tag then "unknown_source_file_for_job_" +:+ job_id else tag
   | None => "unknown_source_file_for_job_" +:+ job_id
   end).
Proof.
  unfold original_s3_object_key_of. split; [|split].
  - destruct (DocumentLocation message ≫= S3ObjectName) as [[|c name]|]; try done.
    destruct (JobTag message) as [[|c tag]|]; done.
  - intros location name -> Hname. cbn. rewrite Hname. by destruct name.
  - intros Hnone.
    assert (DocumentLocation message ≫= S3ObjectName = None) as ->.
    { destruct Hnone as [-> | (location & -> & Hname)]; [done|]. exact Hname. }
    by destruct (JobTag message) as [[|c tag]|].
Qed.

Lemma job_failed_run (env : Environment) (message : Message_) (job_id key : string) :
  io_run
    (let* _ := io_update
                 (set_failed (default "Textract job failed (reason not specified in SNS)."
                                      (StatusMessage message))) in
     let* payload := io_payload in
     let* _ := _send_webhook env payload in
     io_ret {| statusCode := 200; body := payload_body payload |})
    (initial_payload key job_id) =
  let payload :=
    set_failed (default "Textract job failed (reason not specified in SNS)."
                        (StatusMessage message)) (initial_payload key job_id) in
  Some (Returned {| statusCode := 200; body := payload_body payload |},
        webhook_calls env payload).
Proof.
  unfold io_run, io_bind, io_update, io_payload. cbn [trace webhook_payload].
  rewrite send_webhook_run. reflexivity.
Qed.

Lemma process_returns (env : Environment) (fuel : nat) (job_id key : string)
    (s : HandlerState) :
  io_try (process env fuel job_id key) (process_failed env job_id) s = None <->
  get_textract_results env fuel job_id s = None.
Proof.
  assert (forall e s1, process_failed env job_id e s1 <> None) as Hfailed.
  { intros e s1. unfold process_failed, io_bind, io_update, io_payload.
    cbn [trace webhook_payload]. by rewrite send_webhook_run. }
  unfold process. rewrite io_try_bind.
  destruct (get_textract_results env fuel job_id s) as [[[blocks|e] s1]|]; [| |done].
  2: { split; [by intros ?%Hfailed | done]. }
  split; [|done]. intros Hnone. exfalso. revert Hnone.
  destruct blocks as [|block blocks].
  { unfold io_try, io_bind, io_update, io_payload. cbn [trace webhook_payload].
    by rewrite send_webhook_run. }
  cbv zeta. rewrite io_try_bind. unfold io_exc at 1.
  destruct (parse_tables_to_csv_data _ _) as [csv_data_rows|e]; [|apply Hfailed].
  rewrite io_try_bind.
  assert (forall s2,
            io_try
              (let* structured_json_data :=
                 io_exc (parse_blocks_to_structured_json (ai_enabled env) (ChatCompletion_create env)
      (mk_blocks_map (block :: blocks))
                           (block :: blocks) key job_id) in
               let* _ :=
                 io_call (S3Call (json_upload env key structured_json_data))
                   (fun trace => put_object env trace (json_upload env key structured_json_data)) in
               let* _ :=
                 io_update
                   (set_json (Key (json_upload env key structured_json_data))
                      (object_url env (Key (json_upload env key structured_json_data)))) in
               let* _ := io_update set_processed in
               let* payload := io_payload in
               let* _ := _send_webhook env payload in
               io_ret {| statusCode := 200; body := payload_body payload |})
              (process_failed env job_id) s2 <> None) as Hjson.
  { intros s2. rewrite io_try_bind. unfold io_exc at 1.
    destruct (parse_blocks_to_structured_json _ _ _ _ _ _) as [out|e]; [|apply Hfailed].
    rewrite io_try_bind. unfold io_call at 1.
    destruct (put_object env (trace s2) _) as [[]|e]; [|apply Hfailed].
    unfold io_try, io_bind, io_update, io_payload. cbn [trace webhook_payload].
    by rewrite send_webhook_run. }
  destruct csv_data_rows as [|row rows]; [apply Hjson|].
  unfold io_bind at 1, io_call at 1.
  destruct (put_object env (trace s1) _) as [[]|e]; [apply Hjson | apply Hfailed].
Qed.

Lemma handler_parsed (env : Environment) (fuel : nat) (event : SnsEvent)
    (message : Message_) (job_id sns_status key : string) :
  parse_event env event = Returned (Some (message, job_id, sns_status, key)) ->
  lambda_handler env fuel event =
  if negb (String.eqb sns_status "SUCCEEDED") then
    let payload :=
      set_failed (default "Textract job failed (reason not specified in SNS)."
                          (StatusMessage message)) (initial_payload key job_id) in
    Some (Returned {| statusCode := 200; body := payload_body payload |},
          webhook_calls env payload)
  else
    io_run (io_try (process env fuel job_id key) (process_failed env job_id))
      (initial_payload key job_id).
Proof.
  intros Hparse. unfold lambda_handler. rewrite Hparse.
  destruct (negb (String.eqb sns_status "SUCCEEDED")); [|done].
  apply job_failed_run.
Qed.

Lemma handler_invariant_holds (env : Environment) (fuel : nat) (event : SnsEvent)
    (message : Message_) (job_id sns_status key : string)
    (result : outcome Response) (calls : list Call) :
  parse_event env event = Returned (Some (message, job_id, sns_status, key)) ->
  lambda_handler env fuel event = Some (result, calls) ->
  exists response, result = Returned response /\ handler_invariant env key job_id response calls.
Proof.
  intros Hparse. rewrite (handler_parsed env fuel event _ _ _ _ Hparse).
  destruct (negb (String.eqb sns_status "SUCCEEDED")).
  - cbv zeta. intros [= <- <-]. eexists. split; [reflexivity|].
    eexists _, []. split; [reflexivity|]. split; [reflexivity|].
    split; [done|]. split; [done|]. split; [done|]. split; [right; cbn; eauto|]. done.
  - unfold io_run.
    destruct (io_try _ _ _) as [[result' s']|] eqn:Hrun; [|done].
    intros [= <- <-]. by apply process_reported in Hrun.
Qed.

(** X15. The handler raises exactly when the text of the message is no
    JSON: the [JSONDecodeError] of [json.loads] leaves the handler, and no
    service is called.  Otherwise it returns, unless the paging loop of
    [get_textract_results] is still running.  For an event whose message
    cannot be read (no record, no message, a JSON value that is no object,
    no [JobId] or no [Status]) it answers 400 and calls no service.
    Otherwise the response carries the webhook payload, with the source key
    and the job id; that payload is reported by the last call, once, when a
    webhook is configured, and no other webhook call is made; and the
    payload is either "processed", with status code 200, no error message
    and the key of the JSON object, or "failed", with status code 200 or
    500, an error message and no JSON key.  When the notification says that
    the job did not succeed, the answer is 200 and failed with the status
    message of the notification, and neither Textract nor S3 is called. *)
Theorem handler_reports_outcome (env : Environment) (fuel : nat) (event : SnsEvent) :
  (forall e,
     parse_event env event = Raised e <->
     exists text reason,
       message_text event = Some text /\ json_loads env text = Undecodable reason /\
       e = JSONDecodeError reason) /\
  (parse_event env event = Returned None <->
   message_text event = None \/
   exists text,
     message_text event = Some text /\
     (json_loads env text = Decoded None \/
      exists message,
        json_loads env text = Decoded (Some message) /\
        (JobId message = None \/ Status message = None))) /\
  (lambda_handler env fuel event = None <->
   exists message job_id key,
     parse_event env event = Returned (Some (message, job_id, "SUCCEEDED", key)) /\
     get_textract_results env fuel job_id
       {| trace := []; webhook_payload := initial_payload key job_id |} = None) /\
  forall (result : outcome Response) (calls : list Call),
    lambda_handler env fuel event = Some (result, calls) ->
    match parse_event env event with
    | Raised e => result = Raised e /\ calls = []
    | Returned None =>
        result =
          Returned {| statusCode := 400; body := error_body "Invalid SNS message format" |} /\
        calls = []
    | Returned (Some (message, job_id, sns_status, original_s3_object_key)) =>
        exists response payload service_calls,
          result = Returned response /\
          body response = payload_body payload /\
          calls = service_calls ++ webhook_calls env payload /\
          Forall (fun call => is_webhook_call call = false) service_calls /\
          s3Key payload = original_s3_object_key /\ textractJobId payload = job_id /\
          (statusCode response = 200%Z /\ status payload = Some "processed" /\
           errorMessage payload = None /\ is_Some (jsonS3Key payload) \/
           (statusCode response = 200%Z \/ statusCode response = 500%Z) /\
           status payload = Some "failed" /\ is_Some (errorMessage payload) /\
           jsonS3Key payload = None) /\
          (sns_status <> "SUCCEEDED" ->
           statusCode response = 200%Z /\ service_calls = [] /\
           errorMessage payload =
             Some (default "Textract job failed (reason not specified in SNS)."
                           (StatusMessage message)))
    end.
Proof.
  split; [|split; [|split]].
  - intros e. unfold parse_event. fold (message_text event).
    destruct (message_text event) as [text|].
    + split.
      * destruct (json_loads env text) as [reason|message] eqn:Hload; [|discriminate].
        intros [= <-]. by exists text, reason.
      * intros (text' & reason & [= <-] & -> & ->). done.
    + split; [discriminate|]. by intros (? & ? & ? & _).
  - unfold parse_event. fold (message_text event).
    destruct (message_text event) as [text|]; [|split; [by left | done]].
    destruct (json_loads env text) as [reason|[message|]] eqn:Hload.
    + split; [discriminate|].
      intros [|(? & [= <-] & [|(? & ? & _)])]; congruence.
    + cbn [mbind option_bind].
      destruct (JobId message) as [job_id|] eqn:Hjob; cbn [mbind option_bind].
      * destruct (Status message) as [sns_status|] eqn:Hstatus; cbn [mbind option_bind].
        -- split; [discriminate|].
           intros [|(? & [= <-] & [|(? & ? & [|])])]; congruence.
        -- split; [|done]. intros _. right. exists text. split; [done|]. right.
           exists message. split; [done|]. by right.
      * split; [|done]. intros _. right. exists text. split; [done|]. right.
        exists message. split; [done|]. by left.
    + split; [|done]. intros _. right. exists text. split; [done|]. by left.
  - destruct (parse_event env event) as [[[[[message job_id] sns_status] key]|]|e] eqn:Hparse.
    + rewrite (handler_parsed env fuel event _ _ _ _ Hparse).
      destruct (String.eqb sns_status "SUCCEEDED") eqn:Hstatus; cbn [negb].
      * apply String.eqb_eq in Hstatus as ->. unfold io_run.
        pose proof (process_returns env fuel job_id key
                      {| trace := []; webhook_payload := initial_payload key job_id |}) as Hret.
        destruct (io_try _ _ _) as [[result' s']|].
        -- split; [done|]. intros (? & ? & ? & [= <- <- <-] & Hnone).
           by apply Hret in Hnone.
        -- split; [|done]. intros _. exists message, job_id, key. split; [done|].
           by apply Hret.
      * split; [done|]. intros (? & ? & ? & [= <- <- Hs <-] & _).
        apply String.eqb_neq in Hstatus. done.
    + unfold lambda_handler. rewrite Hparse. split; [done|]. by intros (? & ? & ? & ? & _).
    + unfold lambda_handler. rewrite Hparse. split; [done|]. by intros (? & ? & ? & ? & _).
  - intros result calls Hrun.
    destruct (parse_event env event) as [[[[[message job_id] sns_status] key]|]|e] eqn:Hparse.
    + destruct (handler_invariant_holds env fuel event _ _ _ _ _ _ Hparse Hrun)
        as (response & -> & payload & service_calls & Hbody & Hcalls & Hservice & Hkey & Hjob &
            Hstatus & _).
      exists response, payload, service_calls.
      do 7 (split; [done|]).
      intros Hfailed. rewrite (handler_parsed env fuel event _ _ _ _ Hparse) in Hrun.
      apply String.eqb_neq in Hfailed. rewrite Hfailed in Hrun. cbn [negb] in Hrun.
      cbv zeta in Hrun. injection Hrun as <- <-. cbn [body] in Hbody.
      injection Hbody as <-. split; [done|]. split; [|done].
      apply (app_inv_tail (webhook_calls env
               (set_failed (default "Textract job failed (reason not specified in SNS)."
                                    (StatusMessage message)) (initial_payload key job_id)))).
      by rewrite <- Hcalls.
    + unfold lambda_handler in Hrun. rewrite Hparse in Hrun. by injection Hrun as <- <-.
    + unfold lambda_handler in Hrun. rewrite Hparse in Hrun. by injection Hrun as <- <-.
Qed.

Lemma handler_reports_outcome_witness :
  let env := sample_env false false in
  let e := JSONDecodeError "Expecting value: line 1 column 1 (char 0)" in
  message_text garbled_event = Some "not json" /\
  parse_event env garbled_event = Raised e /\
  lambda_handler env 2 garbled_event = Some (Raised e, []).
Proof.
  intros env e.
  destruct (handler_reports_outcome env 2 garbled_event) as (Hraise & _ & _ & Hrun).
  assert (parse_event env garbled_event = Raised e) as Hparse.
  { apply Hraise. exists "not json", "Expecting value: line 1 column 1 (char 0)".
    repeat split; reflexivity. }
  split; [reflexivity|]. split; [exact Hparse|].
  destruct (lambda_handler env 2 garbled_event) as [[result calls]|] eqn:Hhandler;
    [|by vm_compute in Hhandler].
  specialize (Hrun result calls eq_refl). rewrite Hparse in Hrun.
  destruct Hrun as [-> ->]. reflexivity.
Defined.

(** X16. The payload the handler reports names only objects that were
    uploaded: when it carries a CSV key (or a JSON key), a [put_object] for
    that key in the output bucket, with the matching content type,
    succeeded among the calls made, and the URL given is the one of that
    object.  This holds for failed payloads too. *)
Theorem payload_objects_uploaded (env : Environment) (fuel : nat) (event : SnsEvent)
    (response : Response) (calls : list Call) (payload : WebhookPayload) :
  lambda_handler env fuel event = Some (Returned response, calls) ->
  body response = payload_body payload ->
  (forall csv_key, csvS3Key payload = Some csv_key ->
     csvUrl payload = Some (object_url env csv_key) /\
     exists content,
       uploaded env calls {| Bucket := OUTPUT_S3_BUCKET env; Key := csv_key; Body := content;
                             ContentType := "text/csv" |}) /\
  (forall json_key, jsonS3Key payload = Some json_key ->
     jsonUrl payload = Some (object_url env json_key) /\
     exists content,
       uploaded env calls {| Bucket := OUTPUT_S3_BUCKET env; Key := json_key; Body := content;
                             ContentType := "application/json" |}).
Proof.
  intros Hrun Hbody.
  destruct (parse_event env event) as [[[[[message job_id] sns_status] key]|]|e] eqn:Hparse.
  - destruct (handler_invariant_holds env fuel event _ _ _ _ _ _ Hparse Hrun)
      as (response' & [= <-] & payload' & service_calls & Hbody' & _ & _ & _ & _ & _ &
          Hcsv & Hjson).
    rewrite Hbody in Hbody'. injection Hbody' as <-. done.
  - unfold lambda_handler in Hrun. rewrite Hparse in Hrun. injection Hrun as <- <-.
    discriminate.
  - unfold lambda_handler in Hrun. rewrite Hparse in Hrun. discriminate.
Qed.

Lemma process_failed_run (env : Environment) (job_id : string) (e : exception)
    (s : HandlerState) :
  process_failed env job_id e s =
  let payload := set_failed (processing_error env job_id e) (webhook_payload s) in
  Some (Returned {| statusCode := 500; body := payload_body payload |},
        {| trace := trace s ++ webhook_calls env payload; webhook_payload := payload |}).
Proof.
  unfold process_failed, io_bind, io_update, io_payload. cbn [trace webhook_payload].
  by rewrite send_webhook_run.
Qed.

Lemma process_run (env : Environment) (fuel : nat) (job_id key : string)
    (pages : list AnalysisResponse) (last : AnalysisResponse)
    (csv_data_rows : list (list string)) :
  let blocks := flat_map blocks_of (pages ++ [last]) in
  let payload1 := payload_after_csv env key job_id csv_data_rows in
  let calls1 := page_requests job_id None pages ++ csv_calls env key csv_data_rows in
  replies env job_id [] None pages (Returned last) ->
  str_truthy (NextToken last) = false ->
  (length pages < fuel)%nat ->
  blocks <> [] ->
  parse_tables_to_csv_data (mk_blocks_map blocks) blocks = Ok csv_data_rows ->
  (csv_data_rows <> [] ->
   put_object env (page_requests job_id None pages) (csv_upload env key csv_data_rows) =
     Returned tt) ->
  io_run (io_try (process env fuel job_id key) (process_failed env job_id))
    (initial_payload key job_id) =
  match parse_blocks_to_structured_json (ai_enabled env) (ChatCompletion_create env)
      (mk_blocks_map blocks) blocks key job_id with
  | Raise e =>
      let payload := set_failed (processing_error env job_id (ParserError e)) payload1 in
      Some (Returned {| statusCode := 500; body := payload_body payload |},
            calls1 ++ webhook_calls env payload)
  | Ok structured_json_data =>
      let upload := json_upload env key structured_json_data in
      match put_object env calls1 upload with
      | Raised e =>
          let payload := set_failed (processing_error env job_id e) payload1 in
          Some (Returned {| statusCode := 500; body := payload_body payload |},
                (calls1 ++ [S3Call upload]) ++ webhook_calls env payload)
      | Returned _ =>
          let payload := set_processed (set_json (Key upload) (object_url env (Key upload)) payload1) in
          Some (Returned {| statusCode := 200; body := payload_body payload |},
                (calls1 ++ [S3Call upload]) ++ webhook_calls env payload)
      end
  end.
Proof.
  intros blocks payload1 calls1 Hreplies Hlast Hfuel Hblocks Hcsv Hput.
  unfold io_run, process. rewrite io_try_bind. unfold get_textract_results.
  rewrite (fetch_loop_replies env job_id pages (Returned last) fuel None []
             {| trace := []; webhook_payload := initial_payload key job_id |}
             (or_introl eq_refl) Hreplies Hfuel Hlast).
  cbn [trace webhook_payload app]. fold blocks. clearbody blocks.
  destruct blocks as [|block rest] eqn:Hblocks_eq; [done|]. rewrite <- Hblocks_eq in *.
  clear Hblocks_eq block rest.
  cbv zeta. rewrite io_try_bind. unfold io_exc at 1. rewrite Hcsv.
  match goal with
  | |- context [io_try (io_bind ?step _) _ ?s0] =>
      assert (step s0 = Some (Returned tt, {| trace := calls1; webhook_payload := payload1 |}))
        as Hstep
  end.
  { subst calls1 payload1. destruct csv_data_rows as [|row rows].
    - cbn [csv_calls payload_after_csv]. by rewrite app_nil_r.
    - unfold io_bind, io_call. cbn [trace webhook_payload].
      change (put_object env (page_requests job_id None pages) _)
        with (put_object env (page_requests job_id None pages)
                (csv_upload env key (row :: rows))).
      by rewrite Hput. }
  rewrite io_try_bind, Hstep. clear Hstep.
  rewrite io_try_bind. unfold io_exc at 1.
  destruct (parse_blocks_to_structured_json _ _ _ _ _ _) as [structured_json_data|e].
  2: { by rewrite process_failed_run. }
  rewrite io_try_bind. unfold io_call at 1. cbn [trace webhook_payload].
  change (put_object env calls1 _)
    with (put_object env calls1 (json_upload env key structured_json_data)).
  cbv zeta.
  destruct (put_object env calls1 (json_upload env key structured_json_data)) as [[]|e].
  2: { by rewrite process_failed_run. }
  unfold io_try, io_bind, io_update, io_payload. cbn [trace webhook_payload].
  by rewrite send_webhook_run.
Qed.

(** X17. The whole handler on a notification of a succeeded job: when
    Textract serves the pages, they hold at least one block, both parsers
    succeed and S3 accepts every upload, the handler fetches the pages,
    uploads the CSV text when the tabular artifact has rows (and only
    then), uploads the serialised structured record, reports the payload
    and answers 200.  The payload is "processed", names the JSON object and,
    when it was written, the CSV object, both under the output prefix and
    the base of the source key, and carries no error message. *)
Theorem handler_success (env : Environment) (fuel : nat) (event : SnsEvent)
    (message : Message_) (job_id key : string)
    (pages : list AnalysisResponse) (last : AnalysisResponse)
    (csv_data_rows : list (list string)) (structured_json_data : OutputJson) :
  let blocks := flat_map blocks_of (pages ++ [last]) in
  parse_event env event = Returned (Some (message, job_id, "SUCCEEDED", key)) ->
  replies env job_id [] None pages (Returned last) ->
  str_truthy (NextToken last) = false ->
  (length pages < fuel)%nat ->
  blocks <> [] ->
  parse_tables_to_csv_data (mk_blocks_map blocks) blocks = Ok csv_data_rows ->
  parse_blocks_to_structured_json (ai_enabled env) (ChatCompletion_create env)
      (mk_blocks_map blocks) blocks key job_id =
    Ok structured_json_data ->
  (forall trace kwargs, put_object env trace kwargs = Returned tt) ->
  let csv_key := Key (csv_upload env key csv_data_rows) in
  let json_key := Key (json_upload env key structured_json_data) in
  let payload :=
    {| s3Key := key; textractJobId := job_id; status := Some "processed";
       jsonS3Key := Some json_key; jsonUrl := Some (object_url env json_key);
       csvS3Key := match csv_data_rows with [] => None | _ :: _ => Some csv_key end;
       csvUrl := match csv_data_rows with
                 | [] => None
                 | _ :: _ => Some (object_url env csv_key)
                 end;
       errorMessage := None |} in
  lambda_handler env fuel event =
  Some (Returned {| statusCode := 200; body := payload_body payload |},
        page_requests job_id None pages ++
        match csv_data_rows with
        | [] => []
        | _ :: _ => [S3Call (csv_upload env key csv_data_rows)]
        end ++
        [S3Call (json_upload env key structured_json_data)] ++
        webhook_calls env payload).
Proof.
  intros blocks Hparse Hreplies Hlast Hfuel Hblocks Hcsv Hjson Hput.
  rewrite (handler_parsed env fuel event _ _ _ _ Hparse). cbn [String.eqb negb].
  replace (String.eqb "SUCCEEDED" "SUCCEEDED") with true by done. cbn [negb].
  rewrite (process_run env fuel job_id key pages last csv_data_rows) by eauto.
  fold blocks. rewrite Hjson. cbv zeta. rewrite Hput.
  rewrite <- !app_assoc. by destruct csv_data_rows.
Qed.

Lemma handler_success_witness :
  exists payload calls,
    lambda_handler (sample_env false false) 2 (sample_event "SUCCEEDED") =
      Some (Returned {| statusCode := 200; body := payload_body payload |}, calls) /\
    status payload = Some "processed" /\
    csvS3Key payload = Some "processed/docs/a.csv" /\
    jsonS3Key payload = Some "processed/docs/a.json" /\
    length calls = 5%nat.
Proof.
  eexists _, _. split.
  - eapply (handler_success (sample_env false false) 2 (sample_event "SUCCEEDED")
              (sample_message "SUCCEEDED") "job-1" "uploads/docs/a.pdf"
              [ {| Blocks := Some (take 3 lines_blocks); NextToken := Some "page-2" |} ]
              {| Blocks := Some (drop 3 lines_blocks); NextToken := None |}
              [ ["Detected Lines (No Table Structure Found)"]; ["first line"]; ["second"];
                ["third"] ]).
    + reflexivity.
    + by vm_compute.
    + reflexivity.
    + cbn; lia.
    + by vm_compute.
    + by vm_compute.
    + vm_compute. reflexivity.
    + reflexivity.
  - by vm_compute.
Defined.

(** X18. A failure after the CSV upload does not withdraw it: when the CSV
    object was written and then the structured record cannot be built or
    its upload fails, the handler answers 500 with a "failed" payload that
    carries the error message of that exception and no JSON key, but still
    names the CSV object and its URL, and the CSV object stays uploaded. *)
Theorem csv_kept_on_failure (env : Environment) (fuel : nat) (event : SnsEvent)
    (message : Message_) (job_id key : string)
    (pages : list AnalysisResponse) (last : AnalysisResponse)
    (csv_data_rows : list (list string)) (e : exception) :
  let blocks := flat_map blocks_of (pages ++ [last]) in
  let upload := csv_upload env key csv_data_rows in
  parse_event env event = Returned (Some (message, job_id, "SUCCEEDED", key)) ->
  replies env job_id [] None pages (Returned last) ->
  str_truthy (NextToken last) = false ->
  (length pages < fuel)%nat ->
  parse_tables_to_csv_data (mk_blocks_map blocks) blocks = Ok csv_data_rows ->
  csv_data_rows <> [] ->
  put_object env (page_requests job_id None pages) upload = Returned tt ->
  ((exists e',
      parse_blocks_to_structured_json (ai_enabled env) (ChatCompletion_create env)
      (mk_blocks_map blocks) blocks key job_id = Raise e' /\
      e = ParserError e') \/
   (exists structured_json_data,
      parse_blocks_to_structured_json (ai_enabled env) (ChatCompletion_create env)
      (mk_blocks_map blocks) blocks key job_id =
        Ok structured_json_data /\
      put_object env (page_requests job_id None pages ++ [S3Call upload])
        (json_upload env key structured_json_data) = Raised e)) ->
  exists calls,
    lambda_handler env fuel event =
    Some (Returned
            {| statusCode := 500;
               body :=
                 payload_body
                   {| s3Key := key; textractJobId := job_id; status := Some "failed";
                      jsonS3Key := None; jsonUrl := None;
                      csvS3Key := Some (Key upload);
                      csvUrl := Some (object_url env (Key upload));
                      errorMessage := Some (processing_error env job_id e) |} |},
          calls) /\
    uploaded env calls upload.
Proof.
  intros blocks upload Hparse Hreplies Hlast Hfuel Hcsv Hrows Hput Hjson.
  assert (blocks <> []) as Hblocks.
  { intros Hnil. rewrite Hnil in Hcsv. by injection Hcsv as <-. }
  rewrite (handler_parsed env fuel event _ _ _ _ Hparse).
  replace (String.eqb "SUCCEEDED" "SUCCEEDED") with true by done. cbn [negb].
  rewrite (process_run env fuel job_id key pages last csv_data_rows) by eauto.
  fold blocks.
  assert (uploaded env (page_requests job_id None pages ++ csv_calls env key csv_data_rows)
            upload) as Hup.
  { destruct csv_data_rows as [|row rows]; [done|]. by apply uploaded_last. }
  destruct csv_data_rows as [|row rows]; [done|].
  destruct Hjson as [(e' & -> & ->) | (structured_json_data & -> & Hfail)]; cbv zeta.
  - eexists. split; [reflexivity|]. by apply uploaded_app.
  - cbn [csv_calls]. fold upload. rewrite Hfail.
    eexists. split; [reflexivity|]. by apply uploaded_app, uploaded_app.
Qed.

Lemma csv_kept_on_failure_witness :
  exists calls,
    lambda_handler (sample_env false true) 2 (sample_event "SUCCEEDED") =
    Some (Returned
            {| statusCode := 500;
               body :=
                 payload_body
                   {| s3Key := "uploads/docs/a.pdf"; textractJobId := "job-1";
                      status := Some "failed"; jsonS3Key := None; jsonUrl := None;
                      csvS3Key := Some "processed/docs/a.csv";
                      csvUrl := Some "https://results.s3.amazonaws.com/processed/docs/a.csv";
                      errorMessage :=
                        Some "Error during Lambda processing for job job-1: AccessDenied" |} |},
          calls) /\
    uploaded (sample_env false true) calls
      (csv_upload (sample_env false true) "uploads/docs/a.pdf"
         [ ["Detected Lines (No Table Structure Found)"]; ["first line"]; ["second"];
           ["third"] ]).
Proof.
  refine (csv_kept_on_failure (sample_env false true) 2 (sample_event "SUCCEEDED")
            (sample_message "SUCCEEDED") "job-1" "uploads/docs/a.pdf"
            [ {| Blocks := Some (take 3 lines_blocks); NextToken := Some "page-2" |} ]
            {| Blocks := Some (drop 3 lines_blocks); NextToken := None |}
            [ ["Detected Lines (No Table Structure Found)"]; ["first line"]; ["second"];
              ["third"] ]
            (ClientError "AccessDenied") eq_refl _ eq_refl _ _ _ eq_refl _).
  - by vm_compute.
  - cbn; lia.
  - by vm_compute.
  - done.
  - right. eexists. split; [vm_compute; reflexivity | reflexivity].
Defined.

Lemma payload_objects_uploaded_witness :
  exists response calls payload,
    lambda_handler (sample_env false true) 2 (sample_event "SUCCEEDED") =
      Some (Returned response, calls) /\
    body response = payload_body payload /\
    csvS3Key payload = Some "processed/docs/a.csv" /\
    exists content,
      uploaded (sample_env false true) calls
        {| Bucket := "results"; Key := "processed/docs/a.csv"; Body := content;
           ContentType := "text/csv" |}.
Proof.
  destruct (lambda_handler (sample_env false true) 2 (sample_event "SUCCEEDED"))
    as [[[response|e] calls]|] eqn:Hrun; [|by vm_compute in Hrun..].
  destruct (body response) as [error|payload] eqn:Hbody.
  { vm_compute in Hrun. injection Hrun as <- <-. discriminate. }
  exists response, calls, payload. split; [done|]. split; [done|].
  assert (csvS3Key payload = Some "processed/docs/a.csv") as Hcsv.
  { vm_compute in Hrun. injection Hrun as <- <-. by injection Hbody as <-. }
  split; [exact Hcsv|].
  exact (proj2 (proj1 (payload_objects_uploaded (sample_env false true) 2
                         (sample_event "SUCCEEDED") response calls payload Hrun Hbody)
                      "processed/docs/a.csv" Hcsv)).
Defined.

(** ** The restructuring loop *)

Lemma replace_by_index {A B} (f g : A -> B) (l : list A) :
  forall (done_ : list B),
    fold_left (fun out '(i, x) => <[i := f x]> out)
      (imap (fun i x => (length done_ + i, x)%nat) l) (done_ ++ map g l) =
    done_ ++ map f l.
Proof.
  induction l as [|x l IH]; intros done_; [done|].
  cbn [imap fold_left map]. rewrite Nat.add_0_r.
  rewrite insert_app_r_alt, Nat.sub_diag by lia. cbn [insert list_insert].
  specialize (IH (done_ ++ [f x])). rewrite length_app in IH. cbn [length] in IH.
  rewrite <- !app_assoc in IH. cbn [app] in IH. rewrite <- IH.
  f_equal. apply imap_ext. intros i y _. cbn. f_equal. lia.
Qed.

Lemma restructure_tables_map (ai_enabled : bool)
    (chat_completion : list (list string) -> option json) (tables : list TableData) :
  restructure_tables ai_enabled chat_completion tables =
  map (smart_table_restructure ai_enabled chat_completion) tables.
Proof.
  unfold restructure_tables.
  destruct (negb (bool_decide (tables = [])) && ai_enabled) eqn:Hcond.
  - exact (replace_by_index (smart_table_restructure ai_enabled chat_completion) inl
             tables []).
  - apply map_ext_in. intros table Hin. unfold smart_table_restructure.
    apply andb_false_iff in Hcond as [Hnil | ->]; [|done].
    apply negb_false_iff, bool_decide_eq_true in Hnil. subst tables. destruct Hin.
Qed.

(** X19. The restructuring loop replaces every table in place: its result
    is [smart_table_restructure] applied to each table of the output, in
    the same order, so no table is dropped, added or moved, and every table
    keeps its id, whether it was restructured or handed back unchanged. *)
Theorem restructure_tables_in_place (ai_enabled : bool)
    (chat_completion : list (list string) -> option json) (tables : list TableData) :
  restructure_tables ai_enabled chat_completion tables =
    map (smart_table_restructure ai_enabled chat_completion) tables /\
  map table_id_of (restructure_tables ai_enabled chat_completion tables) =
    map tableId tables.
Proof.
  pose proof (restructure_tables_map ai_enabled chat_completion tables) as Heq.
  split; [exact Heq|]. rewrite Heq, map_map. apply map_ext. intros table.
  unfold smart_table_restructure. destruct (negb ai_enabled); [done|].
  destruct (restructure_body _ _) as [r|] eqn:Hbody; [|done].
  by apply restructure_body_inv in Hbody as (headers & start & _ & ->).
Qed.

(** ** Field names and confidences of the structured record *)

Lemma py_slice_from_elem_of {A} (start : Z) (l : list A) (x : A) :
  x ∈ py_slice_from start l -> x ∈ l.
Proof.
  unfold py_slice_from. destruct (start <? 0)%Z; intros Hin;
    by eapply (subseteq_drop _ l).
Qed.

(** The restructuring step keeps a table of the record in order: the id and
    the confidence of the table are kept, a header cell has confidence 100,
    a padding cell 0, and a moved cell the confidence it had. *)
Lemma smart_table_restructure_ok (ai_enabled : bool)
    (chat_completion : list (list string) -> option json) (blocks : list Block)
    (table_data : TableData) :
  table_ok blocks table_data ->
  record_table_ok blocks (smart_table_restructure ai_enabled chat_completion table_data).
Proof.
  intros [Hblock Hcells].
  assert (record_table_ok blocks (inl table_data)) as Hsame.
  { split; [exact Hblock|]. cbn [cell_confidences_of].
    apply Forall_fmap, Forall_forall. intros cell Hcell.
    apply list_elem_of_In, in_flat_map in Hcell as (row & Hrow%list_elem_of_In & Hin%list_elem_of_In).
    rewrite Forall_forall in Hcells. specialize (Hcells row Hrow).
    rewrite Forall_forall in Hcells. by apply Hcells. }
  unfold smart_table_restructure. destruct (negb ai_enabled); [exact Hsame|].
  destruct (restructure_body chat_completion table_data) as [r|] eqn:Hbody; [|exact Hsame].
  apply restructure_body_inv in Hbody as (headers & start & _ & ->).
  split; [exact Hblock|]. cbn [cell_confidences_of r_rows flat_map r_cells].
  rewrite map_app. apply Forall_app. split.
  - apply Forall_fmap, Forall_forall. intros cell (i & header & -> & _)%elem_of_lookup_imap.
    by exists 10000%Z.
  - apply Forall_fmap, Forall_forall. intros cell Hcell.
    apply list_elem_of_In, in_flat_map in Hcell as (row & Hrow%list_elem_of_In & Hin%list_elem_of_In).
    apply elem_of_lookup_imap in Hrow as (k & original_row & -> & Hk).
    cbn [data_row r_cells] in Hin.
    apply elem_of_lookup_imap in Hin as (col_idx & header & -> & _).
    destruct (row_cells original_row !! col_idx) as [original_cell|] eqn:Hcol.
    + cbn [compose moved_cell r_confidence].
      apply list_elem_of_lookup_2, py_slice_from_elem_of in Hk.
      rewrite Forall_forall in Hcells. specialize (Hcells original_row Hk).
      rewrite Forall_forall in Hcells. apply Hcells. by eapply list_elem_of_lookup_2.
    + apply zero_two_decimals.
Qed.

(** C9 (amended). On a well-formed index the structured record is produced,
    whether or not the AI restructuring is enabled and whatever the chat
    completion answers; its top-level fields are, in order, originalS3Key,
    processingJobId, documentMetadata (holding pageCount), tables,
    keyValuePairs and rawLines; and the confidence of every cell of every
    table, restructured or not, of every key and value, and of every raw
    line is a number with at most 2 decimal places.  The confidence of a
    table is the confidence of its TABLE block, as it came. *)
Theorem structured_record_shape (ai_enabled : bool)
    (chat_completion : list (list string) -> option json)
    (blocks_map : gmap string Block) (blocks : list Block)
    (original_s3_key job_id : string) :
  well_formed blocks_map ->
  exists out,
    parse_blocks_to_structured_json ai_enabled chat_completion blocks_map blocks
      original_s3_key job_id = Ok out /\
    json_keys (output_json out) =
      ["originalS3Key"; "processingJobId"; "documentMetadata"; "tables"; "keyValuePairs";
       "rawLines"] /\
    json_field "originalS3Key" (output_json out) = Some (JStr original_s3_key) /\
    json_field "processingJobId" (output_json out) = Some (JStr job_id) /\
    json_field "documentMetadata" (output_json out) =
      Some (JDict [("pageCount",
                    JInt (Z.of_nat (length (List.filter (is_type "PAGE") blocks))))]) /\
    Forall (record_table_ok (List.filter (is_type "TABLE") blocks)) (tables out) /\
    Forall (fun p => two_decimals (keyConfidence p) /\ two_decimals (valueConfidence p))
           (keyValuePairs out) /\
    Forall (fun l => two_decimals (line_confidence l)) (rawLines out).
Proof.
  intros Hwf.
  destruct (parse_json_total blocks_map Hwf ai_enabled chat_completion blocks
              original_s3_key job_id) as (out & Hrun).
  exists out. split; [exact Hrun|].
  apply parse_json_inv in Hrun
    as (Hkey & Hjob & Hpages & (out_tables & Hloop & Htables) & Hpairs & Hlines).
  split; [reflexivity|].
  split; [simpl; by rewrite Hkey|].
  split; [simpl; by rewrite Hjob|].
  split; [simpl; by rewrite Hpages|].
  split.
  { rewrite Htables, restructure_tables_map. apply Forall_fmap.
    eapply Forall_impl; [by eapply json_tables_confidences|].
    intros table_data. apply smart_table_restructure_ok. }
  split.
  - apply Forall_forall. intros p Hp.
    apply list_elem_of_lookup in Hp as (i & Hi).
    destruct (Forall2_lookup_r _ _ _ _ _ Hpairs Hi) as (key_block & _ & Hkb).
    by eapply key_value_pair_confidences.
  - apply Forall_forall. intros l Hl.
    apply list_elem_of_lookup in Hl as (i & Hi).
    destruct (Forall2_lookup_r _ _ _ _ _ Hlines Hi) as (line & _ & Hline).
    by eapply raw_line_confidence.
Qed.

Lemma structured_record_shape_witness :
  well_formed (mk_blocks_map record_blocks) /\
  exists out,
    parse_blocks_to_structured_json true grid_chat (mk_blocks_map record_blocks)
      record_blocks "uploads/doc.pdf" "job-1" = Ok out /\
    json_keys (output_json out) =
      ["originalS3Key"; "processingJobId"; "documentMetadata"; "tables"; "keyValuePairs";
       "rawLines"] /\
    json_field "originalS3Key" (output_json out) = Some (JStr "uploads/doc.pdf") /\
    json_field "processingJobId" (output_json out) = Some (JStr "job-1") /\
    json_field "documentMetadata" (output_json out) =
      Some (JDict [("pageCount",
                    JInt (Z.of_nat (length (List.filter (is_type "PAGE") record_blocks))))]) /\
    Forall (record_table_ok (List.filter (is_type "TABLE") record_blocks)) (tables out) /\
    Forall (fun p => two_decimals (keyConfidence p) /\ two_decimals (valueConfidence p))
           (keyValuePairs out) /\
    Forall (fun l => two_decimals (line_confidence l)) (rawLines out) /\
    map cell_confidences_of (tables out) = [[100; 100; 100; 100; 97; 0; 96; 0]%Q] /\
    map pair_summary (keyValuePairs out) =
      [("Date", 98%Q, "01/01/2024", 95%Q); ("Name", 97%Q, "", 0%Q)] /\
    map line_confidence (rawLines out) = [96%Q].
Proof.
  assert (well_formed (mk_blocks_map record_blocks)) as Hwf.
  { apply mk_blocks_map_well_formed. vm_compute. reflexivity. }
  split; [exact Hwf|].
  destruct (structured_record_shape true grid_chat (mk_blocks_map record_blocks) record_blocks
              "uploads/doc.pdf" "job-1" Hwf)
    as (out & Hrun & Hkeys & Hkey & Hjob & Hmeta & Htables & Hpairs & Hlines).
  exists out. do 8 (split; [assumption|]).
  vm_compute in Hrun. injection Hrun as <-. by vm_compute.
Defined.

(** C9, as stated, fails twice on the record of [grid_blocks]: its first
    field is named originalS3Key (there is no originalSourceKey), and the
    confidence of its table is 99.123, the TABLE block's own, which has three
    decimal places. *)
Lemma structured_record_counterexample :
  exists out,
    parse_blocks_to_structured_json false no_chat (mk_blocks_map grid_blocks) grid_blocks
      "uploads/doc.pdf" "job-1" = Ok out /\
    json_keys (output_json out) =
      ["originalS3Key"; "processingJobId"; "documentMetadata"; "tables"; "keyValuePairs";
       "rawLines"] /\
    json_field "originalSourceKey" (output_json out) = None /\
    map table_confidence_of (tables out) = [Some 99.123%Q] /\
    ~ two_decimals 99.123%Q.
Proof.
  eexists. split; [vm_compute; reflexivity|].
  split; [reflexivity|]. split; [reflexivity|]. split; [reflexivity|].
  intros [n Hn]. unfold Qeq in Hn. simpl in Hn. lia.
Qed.

(** ** The tables and lines of the structured record *)

Lemma json_tables_loop (blocks_map : gmap string Block) (table_blocks : list Block) :
  forall out_tables result,
    for_each (json_table_step blocks_map) table_blocks out_tables = Ok result ->
    exists bodies,
      Forall2 (fun table body => json_table_body blocks_map table = Ok body)
              table_blocks bodies /\
      result = out_tables ++ omap id bodies.
Proof.
  induction table_blocks as [|table table_blocks IH]; intros out_tables result.
  - intros [= <-]. exists []. split; [constructor|]. by rewrite app_nil_r.
  - cbn [for_each]. intros (out' & Hstep & Hrest)%bind_Ok_inv.
    apply IH in Hrest as (bodies & Hbodies & ->).
    unfold json_table_step in Hstep.
    destruct (reconstruct_table_structure_spatially blocks_map table) as [st|] eqn:Hspatial.
    + injection Hstep as <-. exists (Some (spatial_table_data table st) :: bodies). split.
      * constructor; [|done]. unfold json_table_body. by rewrite Hspatial.
      * cbn. by rewrite <- app_assoc.
    + apply bind_Ok_inv in Hstep as (body & Hbody & Hstep).
      exists (body :: bodies). split.
      * constructor; [|done]. unfold json_table_body. by rewrite Hspatial.
      * destruct body as [table_data|]; injection Hstep as <-; cbn; [|done].
        by rewrite <- app_assoc.
Qed.

(** X20. On a well-formed index the structured record lists the tables in
    document order: each TABLE block contributes its spatial grid when the
    spatial reconstruction succeeds, else its structural grid, and nothing
    when it has no cell block; the tables of the record are what the
    restructuring step returns for the contributions that exist, in the
    order of their blocks (the contributions themselves when the step is
    not enabled).  The raw lines are one per LINE block, in document order,
    each with the id, page and geometry of its block, the resolved text,
    and the resolved confidence rounded to 2 places. *)
Theorem structured_record_contents (ai_enabled : bool)
    (chat_completion : list (list string) -> option json)
    (blocks_map : gmap string Block) (blocks : list Block)
    (original_s3_key job_id : string) :
  well_formed blocks_map ->
  exists out bodies,
    parse_blocks_to_structured_json ai_enabled chat_completion blocks_map blocks
      original_s3_key job_id = Ok out /\
    Forall2 (fun table body => json_table_body blocks_map table = Ok body)
            (List.filter (is_type "TABLE") blocks) bodies /\
    tables out = map (smart_table_restructure ai_enabled chat_completion) (omap id bodies) /\
    (ai_enabled = false -> tables out = map inl (omap id bodies)) /\
    rawLines out =
      map (fun line =>
             {| lineId := Id line;
                line_text := resolved_text blocks_map line;
                line_confidence :=
                  round2 (default 0%Q (py_min (contributing_confidences blocks_map line)));
                line_geometry := Geometry line;
                line_pageNumber := Page line |})
          (List.filter (is_type "LINE") blocks).
Proof.
  intros Hwf.
  destruct (parse_json_total blocks_map Hwf ai_enabled chat_completion blocks
              original_s3_key job_id) as (out & Hrun).
  pose proof Hrun as (_ & _ & _ & (out_tables & Hloop & Htables) & _ & Hlines)%parse_json_inv.
  apply json_tables_loop in Hloop as (bodies & Hbodies & ->).
  rewrite restructure_tables_map in Htables. cbn [app] in Htables.
  exists out, bodies. split; [done|]. split; [done|]. split; [done|]. split.
  { intros ->. rewrite Htables. apply map_ext. intros table_data. reflexivity. }
  clear Hrun Htables Hbodies.
  induction Hlines as [|line l lines ls Hline _ IH]; [done|].
  cbn [map]. rewrite <- IH. f_equal.
  unfold raw_line in Hline. rewrite resolver_result in Hline.
  - by injection Hline as <-.
  - intros child_id child _ Hlook. by apply (Hwf child_id child).
Qed.

Lemma structured_record_contents_witness :
  exists out bodies,
    parse_blocks_to_structured_json true grid_chat (mk_blocks_map record_blocks)
      record_blocks "k" "j" = Ok out /\
    Forall2 (fun table body => json_table_body (mk_blocks_map record_blocks) table = Ok body)
            (List.filter (is_type "TABLE") record_blocks) bodies /\
    tables out = map (smart_table_restructure true grid_chat) (omap id bodies) /\
    map table_id_of (tables out) = ["t"] /\
    map lineId (rawLines out) = ["l1"].
Proof.
  destruct (structured_record_contents true grid_chat (mk_blocks_map record_blocks)
              record_blocks "k" "j")
    as (out & bodies & Hrun & Hbodies & Htables & _ & Hlines).
  { apply mk_blocks_map_well_formed. by vm_compute. }
  exists out, bodies. do 3 (split; [done|]).
  rewrite Hlines. split; [|reflexivity].
  vm_compute in Hrun. injection Hrun as <-. reflexivity.
Defined.

(** ** The structural CSV grid: what each position shows *)

Lemma text_declared_at_snoc (blocks_map : gmap string Block) (cells : list Block)
    (cell : Block) (i j : Z) :
  text_declared_at blocks_map (cells ++ [cell]) i j =
  if decide (RowIndex cell = Some i /\ ColumnIndex cell = Some j)
  then resolved_text blocks_map cell else text_declared_at blocks_map cells i j.
Proof. unfold text_declared_at. by rewrite fold_left_app. Qed.

Lemma csv_cells_loop (blocks_map : gmap string Block) (cells : list Block) :
  well_formed blocks_map ->
  (forall cell, cell ∈ cells ->
     (exists id, blocks_map !! id = Some cell) /\ BlockType cell = "CELL" /\
     (1 <= default 1 (RowSpan cell))%Z /\ (1 <= default 1 (ColumnSpan cell))%Z) ->
  exists tcm max_row max_col,
    for_each (csv_cell_step blocks_map) cells (∅, 0%Z, 0%Z) = Ok (tcm, max_row, max_col) /\
    (forall i j, default "" (tcm !! (i, j)) = text_declared_at blocks_map cells i j) /\
    (forall cell r c, cell ∈ cells -> RowIndex cell = Some r -> ColumnIndex cell = Some c ->
       (r <= max_row)%Z /\ (c <= max_col)%Z) /\
    (cells <> [] -> tcm <> ∅).
Proof.
  intros Hwf. induction cells as [|cell cells IH] using rev_ind; intros Hcells.
  - exists ∅, 0%Z, 0%Z. split; [done|]. split; [|split; [|done]].
    + intros i j. by rewrite lookup_empty.
    + intros cell r c Hin. by apply elem_of_nil in Hin.
  - destruct IH as (tcm & max_row & max_col & Hrun & Htexts & Hmax & _).
    { intros cell' Hin. apply Hcells, elem_of_app. by left. }
    destruct (Hcells cell) as ((id & Hlook) & Hty & Hrs & Hcs);
      [apply elem_of_app; right; by left|].
    destruct (Hwf id cell Hlook) as [_ Hcell].
    destruct (Hcell Hty) as [[r Hr] [c Hc]].
    assert (children_readable blocks_map cell) as Hread.
    { intros child_id child _ Hchild. by apply (Hwf child_id child). }
    rewrite for_each_app, Hrun. cbn [mbind exc_bind for_each].
    rewrite (csv_cell_step_ok blocks_map cell r c _ _ tcm max_row max_col Hr Hc
               (resolver_result blocks_map cell Hread)).
    cbn [mbind exc_bind]. do 3 eexists. split; [reflexivity|]. split; [|split].
    3: { intros _ Hempty.
         pose proof (write_span_lookup r c (resolved_text blocks_map cell)
                       (default 1%Z (RowSpan cell)) (default 1%Z (ColumnSpan cell)) tcm r c)
           as Hwritten.
         rewrite Hempty, lookup_empty, decide_True in Hwritten by lia. discriminate. }
    + intros i j. rewrite write_span_lookup, text_declared_at_snoc, Hr, Hc.
      destruct (decide (Some r = Some i /\ Some c = Some j)) as [[[= <-] [= <-]]|Hne].
      * rewrite decide_True by lia. cbn. by rewrite decide_True.
      * case_decide as Hcov; [|apply Htexts]. cbn.
        rewrite decide_False; [apply Htexts|]. intros [-> ->]. by apply Hne.
    + intros cell' r' c' Hin Hr' Hc'. apply elem_of_app in Hin as [Hin|Hin].
      * destruct (Hmax cell' r' c' Hin Hr' Hc'). lia.
      * apply list_elem_of_singleton in Hin as ->.
        rewrite Hr in Hr'. rewrite Hc in Hc'. injection Hr' as <-. injection Hc' as <-. lia.
Qed.

(** X21. On a well-formed index, for a table whose cells have positive
    spans, the structural builder of the CSV path produces a grid exactly
    when the table has a cell block, and every position of the grid shows
    the text of the last cell declared at that position, or the empty
    string when none is: the span of a cell never replaces the text of
    another cell, whatever the order of the blocks, and a cell declared
    twice at one position shows its last text.  Every declared cell lies
    inside the grid. *)
Theorem csv_grid_shows_declared_cells (blocks_map : gmap string Block) (table : Block) :
  well_formed blocks_map ->
  (forall cell, cell ∈ cell_blocks_in_table blocks_map table ->
     (1 <= default 1 (RowSpan cell))%Z /\ (1 <= default 1 (ColumnSpan cell))%Z) ->
  exists result,
    structural_csv_rows blocks_map table = Ok result /\
    (result = None <-> cell_blocks_in_table blocks_map table = []) /\
    forall grid, result = Some grid ->
      (forall i j text, (1 <= i)%Z -> (1 <= j)%Z -> grid_at grid i j = Some text ->
         text = text_declared_at blocks_map (cell_blocks_in_table blocks_map table) i j) /\
      (forall cell r c,
         cell ∈ cell_blocks_in_table blocks_map table ->
         RowIndex cell = Some r -> ColumnIndex cell = Some c -> (1 <= r)%Z -> (1 <= c)%Z ->
         grid_at grid r c =
           Some (text_declared_at blocks_map (cell_blocks_in_table blocks_map table) r c)).
Proof.
  intros Hwf Hspans. unfold structural_csv_rows.
  destruct (csv_cells_loop blocks_map (cell_blocks_in_table blocks_map table) Hwf)
    as (tcm & max_row & max_col & Hrun & Htexts & Hmax & Hnonempty).
  { intros cell Hin. destruct (cell_blocks_in_table_cells blocks_map table cell Hin)
      as (Hty & Hid). destruct (Hspans cell Hin). done. }
  destruct (cell_blocks_in_table blocks_map table) as [|cell0 cells] eqn:Hcells.
  { exists None. split; [done|]. split; [done|]. discriminate. }
  rewrite Hrun. cbn [mbind exc_bind].
  rewrite decide_False by (by apply Hnonempty).
  eexists. split; [reflexivity|]. split; [done|].
  intros grid [= <-]. split.
  - intros i j text Hi Hj Hat.
    assert ((i <= max_row)%Z /\ (j <= max_col)%Z) as [Hi' Hj'].
    { unfold grid_at, grid_rows in Hat.
      rewrite list_lookup_fmap in Hat.
      destruct (seqZ 1 max_row !! Z.to_nat (i - 1)) as [r|] eqn:Hr; [|discriminate].
      apply lookup_seqZ in Hr as [_ Hr]. cbn in Hat.
      rewrite list_lookup_fmap in Hat.
      destruct (seqZ 1 max_col !! Z.to_nat (j - 1)) as [c|] eqn:Hc; [|discriminate].
      apply lookup_seqZ in Hc as [_ Hc]. lia. }
    rewrite grid_rows_at in Hat by lia. injection Hat as <-. apply Htexts.
  - intros cell r c Hin Hr Hc Hr1 Hc1.
    destruct (Hmax cell r c Hin Hr Hc).
    rewrite grid_rows_at by lia. f_equal. apply Htexts.
Qed.

Lemma csv_grid_shows_declared_cells_witness :
  exists grid,
    structural_csv_rows (mk_blocks_map heading_blocks) (table_block "ht" 90 ["h0"; "h1"; "h2"]) =
      Ok (Some grid) /\
    grid_at grid 1 1 = Some "Totals" /\ grid_at grid 1 2 = Some "2024" /\
    grid_at grid 2 1 = Some "net" /\ grid_at grid 2 2 = Some "".
Proof.
  destruct (csv_grid_shows_declared_cells (mk_blocks_map heading_blocks)
              (table_block "ht" 90 ["h0"; "h1"; "h2"]))
    as (result & Hrun & Hnone & Hgrid).
  - apply mk_blocks_map_well_formed. by vm_compute.
  - intros cell Hin. vm_compute in Hin.
    repeat (apply elem_of_cons in Hin as [->|Hin]; [by vm_compute|]).
    by apply elem_of_nil in Hin.
  - destruct result as [grid|];
      [|pose proof (proj1 Hnone eq_refl) as Hnil; by vm_compute in Hnil].
    exists grid. split; [exact Hrun|].
    destruct (Hgrid grid eq_refl) as [_ Hcells].
    rewrite (Hcells (cell_block "h0" (Some 1%Z) (Some 1%Z) (Some 2%Z) (Some 2%Z) ["hw0"])
               1%Z 1%Z ltac:(vm_compute; repeat constructor) eq_refl eq_refl
               ltac:(lia) ltac:(lia)).
    rewrite (Hcells (cell_block "h1" (Some 1%Z) (Some 2%Z) None None ["hw1"])
               1%Z 2%Z ltac:(vm_compute; repeat constructor) eq_refl eq_refl
               ltac:(lia) ltac:(lia)).
    rewrite (Hcells (cell_block "h2" (Some 2%Z) (Some 1%Z) None None ["hw2"])
               2%Z 1%Z ltac:(vm_compute; repeat constructor) eq_refl eq_refl
               ltac:(lia) ltac:(lia)).
    split; [by vm_compute|]. split; [by vm_compute|]. split; [by vm_compute|].
    vm_compute in Hrun. injection Hrun as <-. reflexivity.
Defined.

(** ** The structural rows of the structured record *)

Lemma insert_sorted_Permutation {A} (leb : A -> A -> bool) (x : A) (l : list A) :
  insert_sorted leb x l ≡ₚ x :: l.
Proof.
  induction l as [|y l IH]; cbn [insert_sorted]; [done|].
  destruct (leb x y); [done|]. rewrite IH. apply Permutation_swap.
Qed.

Lemma sort_by_Permutation {A} (leb : A -> A -> bool) (l : list A) : sort_by leb l ≡ₚ l.
Proof.
  unfold sort_by. induction l as [|x l IH]; cbn [foldr]; [done|].
  by rewrite insert_sorted_Permutation, IH.
Qed.

Lemma insert_sorted_keyZ {A} (key : A -> Z) (x : A) (l : list A) :
  ForallOrdPairs (fun a b => (key a <= key b)%Z) l ->
  ForallOrdPairs (fun a b => (key a <= key b)%Z)
    (insert_sorted (fun a b => (key a <=? key b)%Z) x l).
Proof.
  induction 1 as [|y l Hy Hl IH]; cbn [insert_sorted]; [by repeat constructor|].
  destruct (key x <=? key y)%Z eqn:Hxy.
  - apply Z.leb_le in Hxy. constructor; [|by constructor].
    constructor; [done|]. eapply Forall_impl; [exact Hy|]. intros z Hz; cbn in *. lia.
  - apply Z.leb_gt in Hxy. constructor; [|done].
    apply insert_sorted_Forall; [lia | done].
Qed.

Lemma sort_keyZ_sorted {A} (key : A -> Z) (l : list A) :
  ForallOrdPairs (fun a b => (key a <= key b)%Z) (sort_keyZ key l).
Proof.
  unfold sort_keyZ, sort_by. induction l as [|x l IH]; cbn [foldr]; [constructor|].
  by apply insert_sorted_keyZ.
Qed.

Lemma sorted_NoDup_strict {A} (key : A -> Z) (l : list A) :
  ForallOrdPairs (fun a b => (key a <= key b)%Z) l -> NoDup (map key l) ->
  ForallOrdPairs Z.lt (map key l).
Proof.
  induction 1 as [|x l Hx Hl IH]; cbn [map]; [constructor|].
  intros [Hnotin Hnodup]%NoDup_cons. constructor; [|by apply IH].
  apply Forall_fmap, Forall_forall. intros y Hy. cbn.
  rewrite Forall_forall in Hx. specialize (Hx y Hy).
  assert (key x <> key y); [|lia].
  intros Heq. apply Hnotin. rewrite Heq. by apply list_elem_of_fmap_2.
Qed.

Lemma sort_keyZ_strict {A} (key : A -> Z) (l : list A) :
  NoDup (map key l) -> ForallOrdPairs Z.lt (map key (sort_keyZ key l)).
Proof.
  intros Hnodup. apply sorted_NoDup_strict; [apply sort_keyZ_sorted|].
  unfold sort_keyZ. by rewrite (sort_by_Permutation _ l).
Qed.

Lemma dict_get_dict_set {K V} `{EqDecision K} (k k' : K) (v : V) (d : list (K * V)) :
  dict_get k' (dict_set k v d) = if decide (k' = k) then Some v else dict_get k' d.
Proof.
  induction d as [|[k0 v0] d IH]; cbn [dict_get dict_set].
  - by destruct (decide (k' = k)).
  - destruct (decide (k = k0)) as [->|Hne]; cbn [dict_get].
    + by destruct (decide (k' = k0)).
    + destruct (decide (k' = k0)) as [->|]; [by rewrite decide_False|]. apply IH.
Qed.

Lemma dict_get_absent {K V} `{EqDecision K} (k : K) (d : list (K * V)) :
  dict_get k d = None <-> k ∉ d.*1.
Proof.
  induction d as [|[k' v] d IH]; cbn [dict_get fmap list_fmap].
  - split; [intros _; apply not_elem_of_nil | done].
  - destruct (decide (k = k')) as [->|Hne].
    + split; [discriminate | intros Hk; exfalso; apply Hk; by left].
    + rewrite IH. split; [intros Hk Hin | intros Hk Hin; apply Hk; by right].
      apply elem_of_cons in Hin as [?|?]; done.
Qed.

Lemma dict_get_absent_not {K V} `{EqDecision K} (k : K) (d : list (K * V)) :
  dict_get k d <> None -> k ∈ d.*1.
Proof.
  intros Hget. destruct (decide (k ∈ d.*1)) as [|Hnotin]; [done|].
  by apply dict_get_absent in Hnotin.
Qed.

Lemma dict_set_keys_NoDup {K V} `{EqDecision K} (k : K) (v : V) (d : list (K * V)) :
  NoDup d.*1 -> NoDup (dict_set k v d).*1.
Proof.
  induction d as [|[k0 v0] d IH]; cbn [dict_set fmap list_fmap].
  - intros _. apply NoDup_singleton.
  - intros [Hnotin Hnodup]%NoDup_cons. destruct (decide (k = k0)) as [->|Hne].
    + by apply NoDup_cons.
    + cbn [fmap list_fmap]. apply NoDup_cons. split; [|by apply IH].
      rewrite <- dict_get_absent, dict_get_dict_set, decide_False by done.
      by apply dict_get_absent.
Qed.

Lemma dict_get_NoDup {K V} `{EqDecision K} (k : K) (v : V) (d : list (K * V)) :
  NoDup d.*1 -> (k, v) ∈ d <-> dict_get k d = Some v.
Proof.
  intros Hnodup. split; [|apply dict_get_elem_of].
  induction d as [|[k0 v0] d IH]; [by intros ?%elem_of_nil|].
  cbn [fmap list_fmap] in Hnodup. apply NoDup_cons in Hnodup as [Hnotin Hnodup].
  cbn [dict_get]. intros [[= -> ->]|Hin]%elem_of_cons.
  - by rewrite decide_True.
  - rewrite decide_False; [by apply IH|]. intros ->. apply Hnotin.
    by apply (list_elem_of_fmap_2 fst) in Hin.
Qed.

Lemma temp_rows_grouped (items : list ((Z * Z) * CellInfo)) :
  let temp_rows_dict := fold_left temp_rows_step items [] in
  NoDup temp_rows_dict.*1 /\
  forall r,
    dict_get r temp_rows_dict =
    match List.filter (fun item : (Z * Z) * CellInfo => (item.1.1 =? r)%Z) items with
    | [] => None
    | (_ :: _) as group => Some (map snd group)
    end.
Proof.
  cbv zeta. induction items as [|[[r0 c0] cell] items IH] using rev_ind.
  - split; [constructor | done].
  - destruct IH as [Hnodup Hget]. rewrite fold_left_app. cbn [fold_left temp_rows_step].
    set (temp := fold_left temp_rows_step items []) in *.
    destruct (dict_get r0 temp) as [row|] eqn:Hr0.
    + split; [by apply dict_set_keys_NoDup|].
      intros r. rewrite dict_get_dict_set, List.filter_app. cbn [List.filter fst].
      destruct (decide (r = r0)) as [->|Hne].
      * rewrite Z.eqb_refl. specialize (Hget r0). rewrite Hr0 in Hget.
        destruct (List.filter _ items) as [|item group]; [discriminate|].
        injection Hget as ->. cbn [app map snd]. by rewrite map_app.
      * rewrite (proj2 (Z.eqb_neq r0 r)) by done. rewrite app_nil_r. apply Hget.
    + split.
      * rewrite fmap_app. apply NoDup_app. split; [done|]. split; [|apply NoDup_singleton].
        intros r Hin [= ->]%list_elem_of_singleton. by apply dict_get_absent in Hr0.
      * intros r. rewrite List.filter_app. cbn [List.filter fst].
        specialize (Hget r). destruct (decide (r = r0)) as [->|Hne].
        -- rewrite Z.eqb_refl. rewrite Hr0 in Hget.
           destruct (List.filter _ items) as [|item group]; [|discriminate].
           cbn [app map snd]. clear Hget.
           induction temp as [|[k v] temp IHt]; cbn [dict_get app].
           ++ by rewrite decide_True.
           ++ cbn [dict_get] in Hr0. destruct (decide (r0 = k)); [discriminate|].
              apply IHt; [|done]. cbn [fmap list_fmap] in Hnodup.
              by apply NoDup_cons in Hnodup as [_ ?].
        -- rewrite (proj2 (Z.eqb_neq r0 r)) by done. rewrite app_nil_r, <- Hget.
           clear Hget Hr0 Hnodup. induction temp as [|[k v] temp IHt]; cbn [dict_get app].
           ++ by rewrite decide_False.
           ++ destruct (decide (r = k)); [done | apply IHt].
Qed.

Lemma NoDup_map_filter {A B} (g : A -> B) (f : A -> bool) (l : list A) :
  NoDup (map g l) -> NoDup (map g (List.filter f l)).
Proof.
  induction l as [|x l IH]; cbn [map List.filter]; [done|].
  intros [Hnotin Hnodup]%NoDup_cons. destruct (f x); [|by apply IH].
  cbn [map]. apply NoDup_cons. split; [|by apply IH].
  intros (y & Hy & Hin)%list_elem_of_fmap. apply Hnotin.
  rewrite Hy. apply list_elem_of_fmap_2.
  apply list_elem_of_In, filter_In in Hin as [Hin _]. by apply list_elem_of_In.
Qed.

Lemma structural_rows_spec (parsed_cells_map : list ((Z * Z) * CellInfo)) :
  NoDup parsed_cells_map.*1 ->
  (forall r c info, ((r, c), info) ∈ parsed_cells_map ->
     cell_rowIndex info = r /\ columnIndex info = c) ->
  ForallOrdPairs Z.lt (map rowIndex (structural_rows parsed_cells_map)) /\
  Forall (fun row =>
            row_cells row <> [] /\
            Forall (fun info => cell_rowIndex info = rowIndex row) (row_cells row) /\
            ForallOrdPairs Z.lt (map columnIndex (row_cells row)))
         (structural_rows parsed_cells_map) /\
  forall info,
    (exists row, row ∈ structural_rows parsed_cells_map /\ info ∈ row_cells row) <->
    info ∈ parsed_cells_map.*2.
Proof.
  intros Hnodup Hkeys. unfold structural_rows. cbv zeta.
  pose proof (sort_by_Permutation key_leb parsed_cells_map) as Hperm.
  set (sorted := sort_by key_leb parsed_cells_map) in *.
  destruct (temp_rows_grouped sorted) as [Htemp Hget]. cbv zeta in Htemp, Hget.
  set (temp := fold_left temp_rows_step sorted []) in *.
  assert (forall item, item ∈ sorted -> item ∈ parsed_cells_map) as Hsorted.
  { intros item. by rewrite Hperm. }
  assert (forall r, r ∈ temp.*1 ->
            exists item group,
              List.filter (fun item : (Z * Z) * CellInfo => (item.1.1 =? r)%Z) sorted =
                item :: group /\
              dict_get r temp = Some (map snd (item :: group))) as Hgroup.
  { intros r Hr. specialize (Hget r).
    destruct (List.filter _ sorted) as [|item group] eqn:Hfilter.
    - by apply dict_get_absent in Hget.
    - eauto. }
  assert (forall r item,
            item ∈ List.filter (fun item : (Z * Z) * CellInfo => (item.1.1 =? r)%Z) sorted ->
            item ∈ parsed_cells_map /\ item.1.1 = r /\
            cell_rowIndex item.2 = r /\ columnIndex item.2 = item.1.2) as Hitem.
  { intros r [[r' c'] info] [Hin Hr]%list_elem_of_In%filter_In. cbn in Hr.
    apply Z.eqb_eq in Hr as ->. apply list_elem_of_In, Hsorted in Hin.
    destruct (Hkeys _ _ _ Hin). done. }
  split; [|split].
  - rewrite map_map. cbn [rowIndex].
    change (ForallOrdPairs Z.lt (map id (sort_keyZ id temp.*1))).
    apply sort_keyZ_strict. by rewrite map_id.
  - apply Forall_fmap, Forall_forall. intros r Hr. unfold compose. cbn [rowIndex row_cells].
    assert (r ∈ temp.*1) as Hr'.
    { unfold sort_keyZ in Hr. by rewrite sort_by_Permutation in Hr. }
    destruct (Hgroup r Hr') as (item & group & Hfilter & ->). cbn [default from_option].
    split; [|split].
    + intros Hnil. apply (f_equal length) in Hnil. unfold sort_keyZ in Hnil.
      by rewrite sort_by_length in Hnil.
    + apply sort_by_Forall, Forall_fmap, Forall_forall. intros it Hit.
      rewrite <- Hfilter in Hit. by destruct (Hitem r it Hit) as (_ & _ & ? & _).
    + apply sort_keyZ_strict. unfold id. rewrite map_map.
      assert (map (fun it : (Z * Z) * CellInfo => columnIndex it.2) (item :: group) =
              map (fun it : (Z * Z) * CellInfo => it.1.2) (item :: group)) as ->.
      { apply map_ext_in. intros it Hit%list_elem_of_In. rewrite <- Hfilter in Hit.
        by destruct (Hitem r it Hit) as (_ & _ & _ & ?). }
      apply (NoDup_fmap_1 (pair r)). rewrite <- list_fmap_compose.
      assert ((pair r ∘ (fun it : (Z * Z) * CellInfo => it.1.2)) <$> (item :: group) =
              map fst (item :: group)) as ->.
      { apply map_ext_in. intros [[r' c'] info] Hit%list_elem_of_In. rewrite <- Hfilter in Hit.
        destruct (Hitem r _ Hit) as (_ & Hr0 & _). cbn in *. by subst. }
      rewrite <- Hfilter. apply NoDup_map_filter. by rewrite Hperm.
  - intros info. split.
    + intros (row & (r & -> & Hr)%list_elem_of_fmap & Hinfo). cbn [row_cells] in Hinfo.
      assert (r ∈ temp.*1) as Hr'.
      { unfold sort_keyZ in Hr. by rewrite sort_by_Permutation in Hr. }
      destruct (Hgroup r Hr') as (item & group & Hfilter & Hdict).
      rewrite Hdict in Hinfo. cbn [default from_option] in Hinfo.
      unfold sort_keyZ in Hinfo. rewrite sort_by_Permutation in Hinfo.
      apply list_elem_of_fmap in Hinfo as (it & -> & Hit). rewrite <- Hfilter in Hit.
      destruct (Hitem r it Hit) as (Hin & _). by apply list_elem_of_fmap_2.
    + intros ([[r c] info'] & -> & Hin)%list_elem_of_fmap. cbn [snd].
      assert (((r, c), info') ∈
                List.filter (fun item : (Z * Z) * CellInfo => (item.1.1 =? r)%Z) sorted)
        as Hfiltered.
      { apply list_elem_of_In, filter_In. split.
        - apply list_elem_of_In. by rewrite Hperm.
        - cbn. apply Z.eqb_refl. }
      assert (r ∈ temp.*1) as Hr.
      { apply dict_get_absent_not. rewrite Hget.
        destruct (List.filter _ sorted); [by apply elem_of_nil in Hfiltered | done]. }
      destruct (Hgroup r Hr) as (item & group & Hfilter & Hdict).
      exists {| rowIndex := r;
                row_cells := sort_keyZ columnIndex (default [] (dict_get r temp)) |}.
      split.
      * apply list_elem_of_fmap. exists r. split; [done|].
        unfold sort_keyZ. by rewrite sort_by_Permutation.
      * cbn [row_cells]. rewrite Hdict. cbn [default from_option].
        unfold sort_keyZ. rewrite sort_by_Permutation, <- Hfilter.
        by apply (list_elem_of_fmap_2 snd) in Hfiltered.
Qed.

Lemma cell_declared_at_snoc (blocks_map : gmap string Block) (cells : list Block)
    (cell : Block) (r c : Z) :
  cell_declared_at blocks_map (cells ++ [cell]) r c =
  if decide (RowIndex cell = Some r /\ ColumnIndex cell = Some c)
  then Some {| cellId := Id cell;
               cell_rowIndex := r;
               columnIndex := c;
               rowSpan := default 1%Z (RowSpan cell);
               columnSpan := default 1%Z (ColumnSpan cell);
               cell_text := resolved_text blocks_map cell;
               cell_confidence :=
                 round2 (default 0%Q (py_min (contributing_confidences blocks_map cell)));
               cell_geometry := Geometry cell;
               cell_spatiallyReconstructed := false |}
  else cell_declared_at blocks_map cells r c.
Proof. unfold cell_declared_at. by rewrite fold_left_app. Qed.

Lemma cell_declared_at_indices (blocks_map : gmap string Block) (cells : list Block)
    (r c : Z) (info : CellInfo) :
  cell_declared_at blocks_map cells r c = Some info ->
  cell_rowIndex info = r /\ columnIndex info = c /\ cell_spatiallyReconstructed info = false.
Proof.
  induction cells as [|cell cells IH] using rev_ind; [discriminate|].
  rewrite cell_declared_at_snoc. case_decide; [|done]. by intros [= <-].
Qed.

Lemma json_cells_loop (blocks_map : gmap string Block) (cells : list Block) :
  well_formed blocks_map ->
  (forall cell, cell ∈ cells ->
     (exists id, blocks_map !! id = Some cell) /\ BlockType cell = "CELL") ->
  exists parsed_cells_map max_r max_c,
    for_each (json_cell_step blocks_map) cells ([], 0%Z, 0%Z) =
      Ok (parsed_cells_map, max_r, max_c) /\
    NoDup parsed_cells_map.*1 /\
    (forall r c, dict_get (r, c) parsed_cells_map = cell_declared_at blocks_map cells r c) /\
    (forall cell r c, cell ∈ cells -> RowIndex cell = Some r -> ColumnIndex cell = Some c ->
       (r + default 1 (RowSpan cell) - 1 <= max_r)%Z /\
       (c + default 1 (ColumnSpan cell) - 1 <= max_c)%Z).
Proof.
  intros Hwf. induction cells as [|cell cells IH] using rev_ind; intros Hcells.
  - exists [], 0%Z, 0%Z. split; [done|]. split; [constructor|]. split; [done|].
    intros cell r c Hin. by apply elem_of_nil in Hin.
  - destruct IH as (pcm & max_r & max_c & Hrun & Hnodup & Hget & Hmax).
    { intros cell' Hin. apply Hcells, elem_of_app. by left. }
    destruct (Hcells cell) as ((id & Hlook) & Hty); [apply elem_of_app; right; by left|].
    destruct (Hwf id cell Hlook) as [_ Hcell].
    destruct (Hcell Hty) as [[r Hr] [c Hc]].
    assert (children_readable blocks_map cell) as Hread.
    { intros child_id child _ Hchild. by apply (Hwf child_id child). }
    rewrite for_each_app, Hrun. cbn [mbind exc_bind for_each].
    rewrite (json_cell_step_ok blocks_map cell r c _ _ pcm max_r max_c Hr Hc
               (resolver_result blocks_map cell Hread)).
    cbn [mbind exc_bind]. do 3 eexists. split; [reflexivity|].
    split; [by apply dict_set_keys_NoDup|]. split.
    + intros r' c'. rewrite dict_get_dict_set, cell_declared_at_snoc, Hr, Hc.
      destruct (decide ((r', c') = (r, c))) as [[= -> ->]|Hne].
      * by rewrite decide_True.
      * rewrite decide_False; [apply Hget|]. intros [[= ->] [= ->]]. done.
    + intros cell' r' c' Hin Hr' Hc'. apply elem_of_app in Hin as [Hin|Hin].
      * destruct (Hmax cell' r' c' Hin Hr' Hc'). lia.
      * apply list_elem_of_singleton in Hin as ->.
        rewrite Hr in Hr'. rewrite Hc in Hc'. injection Hr' as <-. injection Hc' as <-. lia.
Qed.

Lemma cell_declared_at_Some (blocks_map : gmap string Block) (cells : list Block)
    (r c : Z) (info : CellInfo) :
  cell_declared_at blocks_map cells r c = Some info ->
  exists cell,
    cell ∈ cells /\ RowIndex cell = Some r /\ ColumnIndex cell = Some c /\
    cellId info = Id cell /\
    rowSpan info = default 1%Z (RowSpan cell) /\
    columnSpan info = default 1%Z (ColumnSpan cell).
Proof.
  induction cells as [|cell cells IH] using rev_ind; [discriminate|].
  rewrite cell_declared_at_snoc. case_decide as Hcell.
  - intros [= <-]. exists cell. destruct Hcell. split; [|done].
    apply elem_of_app. right. by left.
  - intros (cell' & Hin & Hrest)%IH. exists cell'. split; [|done].
    apply elem_of_app. by left.
Qed.

(** X22. On a well-formed index the structural builder of the JSON path
    returns a table exactly when the table has a cell block.  Its rows are
    in strictly increasing order of row index and none is empty; the cells
    of a row carry the row's index and are in strictly increasing order of
    column index; the cells listed are exactly the records of the declared
    positions, one per position, a position declared by several cell blocks
    being recorded for the last of them; and [rowCount] and [columnCount]
    reach the last row and column that any listed cell spans. *)
Theorem structural_rows_listing (blocks_map : gmap string Block) (table : Block) :
  well_formed blocks_map ->
  exists result,
    structural_table_data blocks_map table = Ok result /\
    (result = None <-> cell_blocks_in_table blocks_map table = []) /\
    forall table_data, result = Some table_data ->
      ForallOrdPairs Z.lt (map rowIndex (table_rows table_data)) /\
      Forall (fun row =>
                row_cells row <> [] /\
                Forall (fun info => cell_rowIndex info = rowIndex row) (row_cells row) /\
                ForallOrdPairs Z.lt (map columnIndex (row_cells row)))
             (table_rows table_data) /\
      forall info,
        ((exists row, row ∈ table_rows table_data /\ info ∈ row_cells row) <->
         cell_declared_at blocks_map (cell_blocks_in_table blocks_map table)
           (cell_rowIndex info) (columnIndex info) = Some info) /\
        ((exists row, row ∈ table_rows table_data /\ info ∈ row_cells row) ->
         (cell_rowIndex info + rowSpan info - 1 <= rowCount table_data)%Z /\
         (columnIndex info + columnSpan info - 1 <= columnCount table_data)%Z).
Proof.
  intros Hwf. unfold structural_table_data.
  destruct (json_cells_loop blocks_map (cell_blocks_in_table blocks_map table) Hwf)
    as (pcm & max_r & max_c & Hrun & Hnodup & Hget & Hmax).
  { intros cell Hin. destruct (cell_blocks_in_table_cells blocks_map table cell Hin). done. }
  destruct (cell_blocks_in_table blocks_map table) as [|cell0 cells] eqn:Hcells.
  { exists None. split; [done|]. split; [done|]. discriminate. }
  rewrite Hrun. cbn [mbind exc_bind]. eexists. split; [reflexivity|]. split; [done|].
  intros table_data [= <-]. cbn [table_rows rowCount columnCount].
  assert (forall r c info, ((r, c), info) ∈ pcm -> cell_rowIndex info = r /\ columnIndex info = c)
    as Hkeys.
  { intros r c info Hin. apply dict_get_NoDup in Hin; [|done]. rewrite Hget in Hin.
    by destruct (cell_declared_at_indices _ _ _ _ _ Hin) as (? & ? & _). }
  destruct (structural_rows_spec pcm Hnodup Hkeys) as (Hrows & Hcols & Hmem).
  split; [done|]. split; [done|].
  intros info.
  assert ((exists row, row ∈ structural_rows pcm /\ info ∈ row_cells row) <->
          cell_declared_at blocks_map (cell0 :: cells) (cell_rowIndex info) (columnIndex info) =
            Some info) as Hlisted.
  { rewrite Hmem, <- Hget. split.
    - intros ([[r c] info'] & -> & Hin)%list_elem_of_fmap. cbn [snd].
      destruct (Hkeys r c info' Hin) as [-> ->]. by apply dict_get_NoDup.
    - intros Hin%dict_get_elem_of. by apply (list_elem_of_fmap_2 snd) in Hin. }
  split; [exact Hlisted|].
  intros Hin%Hlisted.
  apply cell_declared_at_Some in Hin as (cell & Hcell & Hr & Hc & _ & -> & ->).
  by apply (Hmax cell).
Qed.

Lemma structural_rows_listing_witness :
  exists table_data,
    structural_table_data (mk_blocks_map heading_blocks)
      (table_block "ht" 90 ["h0"; "h1"; "h2"]) = Ok (Some table_data) /\
    ForallOrdPairs Z.lt (map rowIndex (table_rows table_data)) /\
    map (fun row => map cellId (row_cells row)) (table_rows table_data) =
      [["h0"; "h1"]; ["h2"]] /\
    rowCount table_data = 2%Z /\ columnCount table_data = 2%Z.
Proof.
  destruct (structural_rows_listing (mk_blocks_map heading_blocks)
              (table_block "ht" 90 ["h0"; "h1"; "h2"]))
    as (result & Hrun & Hnone & Hspec).
  { apply mk_blocks_map_well_formed. by vm_compute. }
  destruct result as [table_data|];
    [|pose proof (proj1 Hnone eq_refl) as Hnil; by vm_compute in Hnil].
  exists table_data. split; [exact Hrun|].
  split; [exact (proj1 (Hspec table_data eq_refl))|].
  vm_compute in Hrun. injection Hrun as <-. by vm_compute.
Defined.

(** ** The structural builder: spans and the finished grid *)

Lemma greatest_snoc (extent : Block -> Z) (cells : list Block) (cell : Block) :
  greatest extent (cells ++ [cell]) = Z.max (greatest extent cells) (extent cell).
Proof.
  unfold greatest. induction cells as [|cell' cells IH]; cbn [app map foldr]; [lia|].
  rewrite IH. lia.
Qed.

Lemma last_filter_snoc {A} (f : A -> bool) (l : list A) (x : A) :
  last (List.filter f (l ++ [x])) = if f x then Some x else last (List.filter f l).
Proof.
  rewrite List.filter_app. cbn [List.filter]. destruct (f x).
  - apply last_snoc.
  - by rewrite app_nil_r.
Qed.

Lemma csv_cell_step_inv (blocks_map : gmap string Block) (cell : Block)
    (tcm tcm' : gmap (Z * Z) string) (max_row max_col max_row' max_col' : Z) :
  csv_cell_step blocks_map (tcm, max_row, max_col) cell = Ok (tcm', max_row', max_col') ->
  exists r c,
    RowIndex cell = Some r /\ ColumnIndex cell = Some c /\
    tcm' = write_span r c (default 1%Z (RowSpan cell)) (default 1%Z (ColumnSpan cell))
             (resolved blocks_map cell).1 tcm /\
    max_row' = Z.max max_row (last_row cell) /\ max_col' = Z.max max_col (last_column cell).
Proof.
  unfold csv_cell_step, resolved, last_row, last_column.
  destruct (RowIndex cell) as [r|]; [|discriminate].
  destruct (ColumnIndex cell) as [c|]; [|discriminate]. cbn [getitem mbind exc_bind].
  destruct (get_text_and_confidence_from_block blocks_map cell) as [[text conf]|];
    [|discriminate].
  intros [= <- <- <-]. by exists r, c.
Qed.

Lemma json_cell_step_inv (blocks_map : gmap string Block) (cell : Block)
    (pcm pcm' : list ((Z * Z) * CellInfo)) (max_r max_c max_r' max_c' : Z) :
  json_cell_step blocks_map (pcm, max_r, max_c) cell = Ok (pcm', max_r', max_c') ->
  exists r c,
    RowIndex cell = Some r /\ ColumnIndex cell = Some c /\
    pcm' = dict_set (r, c) (cell_record blocks_map cell) pcm /\
    max_r' = Z.max max_r (last_row cell) /\ max_c' = Z.max max_c (last_column cell).
Proof.
  unfold json_cell_step, cell_record, resolved, last_row, last_column.
  destruct (get_text_and_confidence_from_block blocks_map cell) as [[text conf]|];
    [|discriminate].
  cbn [mbind exc_bind].
  destruct (RowIndex cell) as [r|]; [|discriminate].
  destruct (ColumnIndex cell) as [c|]; [|discriminate]. cbn [getitem mbind exc_bind].
  intros [= <- <- <-]. by exists r, c.
Qed.

Lemma for_each_snoc_Ok {A S} (body : S -> A -> exc S) (l : list A) (x : A) (s s' : S) :
  for_each body (l ++ [x]) s = Ok s' ->
  exists s1, for_each body l s = Ok s1 /\ body s1 x = Ok s'.
Proof.
  rewrite for_each_app. destruct (for_each body l s) as [s1|e]; [|discriminate].
  cbn [mbind exc_bind for_each]. intros Hstep. exists s1. split; [done|].
  by destruct (body s1 x).
Qed.

(** The loop of the CSV path over the cells of a table, when it
    completes. *)
Lemma csv_cells_written (blocks_map : gmap string Block) (cells : list Block)
    (tcm : gmap (Z * Z) string) (max_row max_col : Z) :
  for_each (csv_cell_step blocks_map) cells (∅, 0%Z, 0%Z) = Ok (tcm, max_row, max_col) ->
  max_row = greatest last_row cells /\ max_col = greatest last_column cells /\
  forall i j,
    default "" (tcm !! (i, j)) =
    from_option (fun cell => (resolved blocks_map cell).1) "" (last_written cells i j).
Proof.
  revert tcm max_row max_col.
  induction cells as [|cell cells IH] using rev_ind; intros tcm max_row max_col.
  - intros [= <- <- <-]. do 2 (split; [done|]). intros i j. by rewrite lookup_empty.
  - intros ([[tcm1 max_row1] max_col1] & Hrun & Hstep)%for_each_snoc_Ok.
    destruct (IH _ _ _ Hrun) as (-> & -> & Htexts).
    apply csv_cell_step_inv in Hstep as (r & c & Hr & Hc & -> & -> & ->).
    rewrite !greatest_snoc. do 2 (split; [done|]).
    intros i j. unfold last_written. rewrite last_filter_snoc, write_span_lookup.
    fold (last_written cells i j).
    unfold declared_at, span_not_empty. rewrite Hr, Hc.
    destruct (decide (i = r /\ j = c)) as [[-> ->]|Hne].
    + rewrite bool_decide_eq_true_2 by done. cbn [andb].
      destruct (0 <? default 1 (RowSpan cell))%Z eqn:HR;
        [apply Z.ltb_lt in HR | apply Z.ltb_ge in HR];
        (destruct (0 <? default 1 (ColumnSpan cell))%Z eqn:HC;
         [apply Z.ltb_lt in HC | apply Z.ltb_ge in HC]); cbn [andb].
      * rewrite decide_True by lia. done.
      * rewrite decide_False by lia. apply Htexts.
      * rewrite decide_False by lia. apply Htexts.
      * rewrite decide_False by lia. apply Htexts.
    + rewrite bool_decide_eq_false_2 by (intros [[= ->] [= ->]]; by apply Hne).
      cbn [andb]. case_decide; [|apply Htexts]. cbn [default from_option]. apply Htexts.
Qed.

(** The loop of the structured-record path over the cells of a table, when
    it completes. *)
Lemma json_cells_recorded (blocks_map : gmap string Block) (cells : list Block)
    (pcm : list ((Z * Z) * CellInfo)) (max_r max_c : Z) :
  for_each (json_cell_step blocks_map) cells ([], 0%Z, 0%Z) = Ok (pcm, max_r, max_c) ->
  max_r = greatest last_row cells /\ max_c = greatest last_column cells /\
  NoDup pcm.*1 /\
  forall r c, dict_get (r, c) pcm = cell_record blocks_map <$> last_declared cells r c.
Proof.
  revert pcm max_r max_c.
  induction cells as [|cell cells IH] using rev_ind; intros pcm max_r max_c.
  - intros [= <- <- <-]. do 2 (split; [done|]). split; [constructor | done].
  - intros ([[pcm1 max_r1] max_c1] & Hrun & Hstep)%for_each_snoc_Ok.
    destruct (IH _ _ _ Hrun) as (-> & -> & Hnodup & Hget).
    apply json_cell_step_inv in Hstep as (r & c & Hr & Hc & -> & -> & ->).
    rewrite !greatest_snoc. do 2 (split; [done|]).
    split; [by apply dict_set_keys_NoDup|].
    intros r' c'. unfold last_declared. rewrite last_filter_snoc, dict_get_dict_set.
    fold (last_declared cells r' c'). unfold declared_at. rewrite Hr, Hc.
    destruct (decide ((r', c') = (r, c))) as [[= -> ->]|Hne].
    + by rewrite bool_decide_eq_true_2.
    + rewrite bool_decide_eq_false_2; [apply Hget|]. intros [[= ->] [= ->]]. done.
Qed.

Lemma last_filter_Some {A} (f : A -> bool) (l : list A) (x : A) :
  last (List.filter f l) = Some x -> x ∈ l /\ f x = true.
Proof.
  intros Hlast%last_Some_elem_of. by apply list_elem_of_In, filter_In in Hlast as [?%list_elem_of_In ?].
Qed.

(** C2 (amended). In the CSV path a cell with row span R and column span C
    puts its resolved text at the top-left position of the span and leaves,
    at each of the other R×C − 1 covered positions, the text already stored
    there, or an empty string when there is none; the other positions keep
    what they had, and the maxima advance to the last covered row and
    column.  The grid the builder returns for a table has as many rows as
    the last row any cell covers and in each row as many cells as the last
    column any cell covers, and each position shows the text of the last
    cell with a span that is not empty declared at that position, or the
    empty text when there is none.  In the structured-record path a cell is
    recorded once, under its top-left position, with its spans as fields:
    the table the builder returns has as [rowCount] and [columnCount] the
    last row and column any cell covers, and its rows list exactly the
    records of the last cell declared at each declared position, in
    strictly increasing order of row and, inside a row, of column: the
    other covered positions get no cell. *)
Theorem structural_cell_write (blocks_map : gmap string Block) :
  (forall (cell : Block) (r c : Z) (text : string) (conf : Q),
     RowIndex cell = Some r -> ColumnIndex cell = Some c ->
     get_text_and_confidence_from_block blocks_map cell = Ok (text, conf) ->
     let R := default 1%Z (RowSpan cell) in
     let C := default 1%Z (ColumnSpan cell) in
     (forall tcm max_row max_col,
        exists tcm',
          csv_cell_step blocks_map (tcm, max_row, max_col) cell =
            Ok (tcm', Z.max max_row (r + R - 1), Z.max max_col (c + C - 1)) /\
          forall i j,
            tcm' !! (i, j) =
            if decide ((r <= i < r + R)%Z /\ (c <= j < c + C)%Z)
            then Some (if decide (i = r /\ j = c) then text else default "" (tcm !! (i, j)))
            else tcm !! (i, j)) /\
     length (span_offsets R C) = (Z.to_nat R * Z.to_nat C)%nat /\
     (forall tcm max_row max_col,
        length (grid_rows tcm max_row max_col) = Z.to_nat max_row /\
        Forall (fun row => length row = Z.to_nat max_col) (grid_rows tcm max_row max_col) /\
        forall i j, (1 <= i <= max_row)%Z -> (1 <= j <= max_col)%Z ->
          grid_at (grid_rows tcm max_row max_col) i j = Some (default "" (tcm !! (i, j)))) /\
     (forall parsed_cells_map max_r max_c,
        exists info,
          json_cell_step blocks_map (parsed_cells_map, max_r, max_c) cell =
            Ok (dict_set (r, c) info parsed_cells_map,
                Z.max max_r (r + R - 1), Z.max max_c (c + C - 1)) /\
          cell_text info = text /\ cell_rowIndex info = r /\ columnIndex info = c /\
          rowSpan info = R /\ columnSpan info = C)) /\
  (forall (table : Block) (grid : list (list string)),
     structural_csv_rows blocks_map table = Ok (Some grid) ->
     let cells := cell_blocks_in_table blocks_map table in
     length grid = Z.to_nat (greatest last_row cells) /\
     Forall (fun row => length row = Z.to_nat (greatest last_column cells)) grid /\
     forall i j,
       (1 <= i <= greatest last_row cells)%Z -> (1 <= j <= greatest last_column cells)%Z ->
       grid_at grid i j =
       Some (from_option (fun cell => (resolved blocks_map cell).1) ""
               (last_written cells i j))) /\
  (forall (table : Block) (table_data : TableData),
     structural_table_data blocks_map table = Ok (Some table_data) ->
     let cells := cell_blocks_in_table blocks_map table in
     rowCount table_data = greatest last_row cells /\
     columnCount table_data = greatest last_column cells /\
     ForallOrdPairs Z.lt (map rowIndex (table_rows table_data)) /\
     Forall (fun row =>
               Forall (fun info => cell_rowIndex info = rowIndex row) (row_cells row) /\
               ForallOrdPairs Z.lt (map columnIndex (row_cells row)))
            (table_rows table_data) /\
     forall info,
       info ∈ listed_cells table_data <->
       exists cell,
         last_declared cells (cell_rowIndex info) (columnIndex info) = Some cell /\
         info = cell_record blocks_map cell).
Proof.
  split; [|split].
  - intros cell r c text conf Hr Hc Hres R C. repeat split.
    + intros tcm max_row max_col. eexists. split.
      * eapply csv_cell_step_ok; eauto.
      * intros i j. apply write_span_lookup.
    + apply span_offsets_length.
    + apply grid_rows_length.
    + apply grid_rows_length.
    + intros i j. apply grid_rows_at.
    + intros pcm max_r max_c. eexists. split; [eapply json_cell_step_ok; eauto|]. done.
  - intros table grid. unfold structural_csv_rows.
    destruct (cell_blocks_in_table blocks_map table) as [|cell0 cells0] eqn:Hcells;
      [discriminate|].
    destruct (for_each _ _ _) as [[[tcm max_row] max_col]|e] eqn:Hrun; [|discriminate].
    cbn [mbind exc_bind]. case_decide; [discriminate|]. intros [= <-].
    apply csv_cells_written in Hrun as (-> & -> & Htexts). cbv zeta.
    split; [apply grid_rows_length|]. split; [apply grid_rows_length|].
    intros i j Hi Hj. rewrite grid_rows_at by done. f_equal. apply Htexts.
  - intros table table_data. unfold structural_table_data.
    destruct (cell_blocks_in_table blocks_map table) as [|cell0 cells0] eqn:Hcells;
      [discriminate|].
    destruct (for_each _ _ _) as [[[pcm max_r] max_c]|e] eqn:Hrun; [|discriminate].
    cbn [mbind exc_bind]. intros [= <-].
    apply json_cells_recorded in Hrun as (-> & -> & Hnodup & Hget). cbv zeta.
    cbn [rowCount columnCount table_rows]. do 2 (split; [done|]).
    assert (forall r c info, ((r, c), info) ∈ pcm ->
              exists cell, last_declared (cell0 :: cells0) r c = Some cell /\
                           info = cell_record blocks_map cell /\
                           cell_rowIndex info = r /\ columnIndex info = c) as Hkeys.
    { intros r c info Hin. apply dict_get_NoDup in Hin; [|done]. rewrite Hget in Hin.
      destruct (last_declared (cell0 :: cells0) r c) as [cell|] eqn:Hlast; [|discriminate].
      injection Hin as <-. exists cell. do 2 (split; [done|]).
      apply last_filter_Some in Hlast as [_ [Hr Hc]%bool_decide_eq_true].
      cbn [cell_record cell_rowIndex columnIndex]. by rewrite Hr, Hc. }
    destruct (structural_rows_spec pcm Hnodup) as (Hrows & Hcols & Hmem).
    { intros r c info Hin. by destruct (Hkeys r c info Hin) as (_ & _ & _ & ? & ?). }
    split; [done|]. split.
    { eapply Forall_impl; [exact Hcols|]. by intros row (_ & ? & ?). }
    intros info. unfold listed_cells. cbn [table_rows].
    rewrite list_elem_of_In, in_flat_map.
    assert ((exists row, In row (structural_rows pcm) /\ In info (row_cells row)) <->
            (exists row, row ∈ structural_rows pcm /\ info ∈ row_cells row)) as ->.
    { split; intros (row & H1 & H2); exists row; by rewrite ?list_elem_of_In in *. }
    rewrite Hmem. split.
    + intros ([[r c] info'] & -> & Hin)%list_elem_of_fmap. cbn [snd].
      destruct (Hkeys r c info' Hin) as (cell & Hlast & -> & Hr & Hc).
      exists cell. rewrite Hr, Hc. done.
    + intros (cell & Hlast & ->).
      assert (dict_get (cell_rowIndex (cell_record blocks_map cell),
                        columnIndex (cell_record blocks_map cell)) pcm =
              Some (cell_record blocks_map cell)) as Hin by (by rewrite Hget, Hlast).
      apply dict_get_elem_of in Hin. by apply (list_elem_of_fmap_2 snd) in Hin.
Qed.

Lemma structural_cell_write_witness :
  let blocks_map := mk_blocks_map spanning_blocks in
  let table := table_block "t" 99 ["a"; "b"; "c"] in
  exists grid table_data,
    structural_csv_rows blocks_map table = Ok (Some grid) /\
    structural_table_data blocks_map table = Ok (Some table_data) /\
    grid = [["Title"; ""]; ["x"; "y"]] /\
    length grid = 2%nat /\
    Forall (fun row => length row = 2%nat) grid /\
    grid_at grid 1 2 = Some "" /\
    rowCount table_data = 2%Z /\ columnCount table_data = 2%Z /\
    map cellId (listed_cells table_data) = ["a"; "b"; "c"].
Proof.
  intros blocks_map table.
  destruct (structural_cell_write blocks_map) as (_ & Hcsv & Hjson).
  assert (exists grid, structural_csv_rows blocks_map table = Ok (Some grid) /\
                       grid = [["Title"; ""]; ["x"; "y"]]) as (grid & Hgrid & Hval)
    by (eexists; split; [vm_compute; reflexivity | reflexivity]).
  assert (exists table_data,
            structural_table_data blocks_map table = Ok (Some table_data) /\
            map cellId (listed_cells table_data) = ["a"; "b"; "c"])
    as (table_data & Htable & Hids)
    by (eexists; split; [vm_compute; reflexivity | reflexivity]).
  destruct (Hcsv table grid Hgrid) as (Hlen & Hrows & Hat).
  destruct (Hjson table table_data Htable) as (Hrc & Hcc & _).
  exists grid, table_data. do 3 (split; [done|]).
  split; [exact Hlen|]. split; [exact Hrows|].
  split; [exact (Hat 1%Z 2%Z ltac:(vm_compute; split; discriminate)
                   ltac:(vm_compute; split; discriminate))|].
  split; [exact Hrc|]. split; [exact Hcc | exact Hids].
Defined.
